(** * myCORE: habit scheduling, streak and strength scoring, local store

    A shallow embedding of [src/utils.ts] and [src/services/mockDb.ts].
    Arrays are lists, [localStorage] keys are optional lists (a key may be
    absent), asynchronous store methods are state transformers over the
    store record, the JavaScript runtime's [Date] is an interface
    ([DateRuntime]) with concrete instances for UTC and for local time
    zones, and JavaScript numbers are IEEE 754 binary64 values. *)

From Stdlib Require Import ZArith QArith Qround Qpower Lqa Lia Ascii String.
From Stdlib Require Import Floats.SpecFloat.
From Stdlib Require Import Sorting.Permutation Sorting.Sorted.
From stdpp Require Import base tactics option list strings.

Local Open Scope string_scope.
Local Open Scope list_scope.
Local Open Scope Z_scope.

(** ** Data model ([types.ts]) *)

(** Modelled from the spec: [types.ts] is not among the sources; the
    members are the ones the spec lists for the recurrence rule. *)
Inductive ScheduleType := DAILY | WEEKDAYS | WEEKENDS | CUSTOM.

(** Modelled from the spec: [types.ts] is not among the sources; the
    members are the interest tags the built-in catalog uses. *)
Inductive InterestType := HEALTH | FINANCE | DETOX | LEARNING | PRODUCTIVITY.

(** Modelled from the spec: the trigger descriptor of a habit. *)
Inductive TriggerType := MANUAL | LOCATION | APP_OPEN | SCREEN_TIME.

#[global] Instance ScheduleType_eq_dec : EqDecision ScheduleType.
Proof. solve_decision. Defined.
#[global] Instance InterestType_eq_dec : EqDecision InterestType.
Proof. solve_decision. Defined.
#[global] Instance TriggerType_eq_dec : EqDecision TriggerType.
Proof. solve_decision. Defined.

Module TriggerConfig.
(** Modelled from the spec: the opaque trigger configuration, with the keys
    the catalog's object literals use. *)
Record t := mk {
  locationName : option string;
  appName : option string;
  actionDetail : option string;
  thresholdMinutes : option Z
}.
End TriggerConfig.

Module Habit.
(** Modelled from the spec: the fields of the spec's Habit, named as the
    catalog's object literals name them. *)
Record t := mk {
  id : string;
  name : string;
  icon : string;
  interest : InterestType;
  schedule : ScheduleType;
  triggerType : TriggerType;
  triggerConfig : option TriggerConfig.t;
  streak : nat
}.
Definition with_streak (h : t) (n : nat) : t :=
  mk (id h) (name h) (icon h) (interest h) (schedule h)
     (triggerType h) (triggerConfig h) n.
End Habit.

Module HabitInstance.
(** Modelled from the spec: the fields of the spec's HabitInstance, named
    as the store's object literals and assignments name them; an absent
    optional field is [None]. *)
Record t := mk {
  id : string;
  habitId : string;
  date : string;
  completed : bool;
  completedAt : option string;
  value : option Q
}.
End HabitInstance.

(** ** The runtime's [Date]

    [getTime s] stands for [new Date(s).getTime()] and [getDay s] for
    [new Date(s).getDay()] (0 = Sunday ... 6 = Saturday, in the runtime's
    local time zone).  Dates are the ISO strings [formatDate] produces, for
    which the parse yields a finite timestamp. *)
Class DateRuntime := {
  getTime : string → Z;
  getDay : string → Z
}.

(** A concrete runtime: ISO [YYYY-MM-DD] strings read in UTC. *)
Module UTC.

Definition digit (c : ascii) : option Z :=
  let n := Z.of_nat (nat_of_ascii c) in
  if (48 <=? n) && (n <=? 57) then Some (n - 48) else None.

Fixpoint number (acc : Z) (cs : list ascii) : option Z :=
  match cs with
  | [] => Some acc
  | c :: cs' => match digit c with
                | Some d => number (10 * acc + d) cs'
                | None => None
                end
  end.

Definition chars (s : string) : list ascii := list_ascii_of_string s.

(** Year, month and day of a ten-character [YYYY-MM-DD] string. *)
Definition parse (s : string) : option (Z * Z * Z) :=
  match chars s with
  | [y1; y2; y3; y4; d1; m1; m2; d2; a1; a2] =>
      if (Ascii.eqb d1 "-"%char) && (Ascii.eqb d2 "-"%char) then
        match number 0 [y1; y2; y3; y4], number 0 [m1; m2], number 0 [a1; a2] with
        | Some y, Some m, Some d => Some (y, m, d)
        | _, _, _ => None
        end
      else None
  | _ => None
  end.

(** Days since 1970-01-01 of a proleptic Gregorian civil date. *)
Definition daysFromCivil (y m d : Z) : Z :=
  let y' := if m <=? 2 then y - 1 else y in
  let era := y' / 400 in
  let yoe := y' - era * 400 in
  let doy := (153 * (if 2 <? m then m - 3 else m + 9) + 2) / 5 + d - 1 in
  let doe := yoe * 365 + yoe / 4 - yoe / 100 + doy in
  era * 146097 + doe - 719468.

Definition days (s : string) : Z :=
  match parse s with
  | Some (y, m, d) => daysFromCivil y m d
  | None => 0
  end.

Definition time (s : string) : Z := days s * 86400000.

(** 1970-01-01 was a Thursday. *)
Definition day (s : string) : Z := (days s + 4) mod 7.

End UTC.

#[global] Instance utcRuntime : DateRuntime :=
  {| getTime := UTC.time; getDay := UTC.day |}.

(** A runtime whose local time is [offsetAt t] minutes east of UTC at the
    instant [t].  A date-only ISO string is parsed as midnight UTC, so
    [getTime] is the same everywhere, and [getDay] reads the day of the
    week that instant has in local time. *)
Definition localDay (offsetAt : Z → Z) (s : string) : Z :=
  let t := UTC.time s in
  ((t + offsetAt t * 60000) / 86400000 + 4) mod 7.

Definition localRuntime (offsetAt : Z → Z) : DateRuntime :=
  {| getTime := UTC.time; getDay := localDay offsetAt |}.

(** New York in winter: five hours behind UTC. *)
Definition newYork : DateRuntime := localRuntime (λ _, -300).

(** ** JavaScript numbers

    A number is an IEEE 754 binary64 value, and [*], [/] and [+] round to
    nearest, ties to even: the operations are those of the standard
    library's specification of binary floating point at precision 53. *)

Definition prec : Z := 53.
Definition emax : Z := 1024.

Definition fmul : spec_float → spec_float → spec_float := SFmul prec emax.
Definition fdiv : spec_float → spec_float → spec_float := SFdiv prec emax.
Definition fadd : spec_float → spec_float → spec_float := SFadd prec emax.

(** An integer as a number: an array length, a counter, an integer
    literal. *)
Definition numberOfZ (z : Z) : spec_float := binary_normalize prec emax z 0 false.

Definition numberOfNat (n : nat) : spec_float := numberOfZ (Z.of_nat n).

(** The literals [0.7] and [0.3]: the doubles nearest to the decimals,
    [0x3FE6666666666666] and [0x3FD3333333333333]. *)
Definition zeroPointSeven : spec_float := S754_finite false 6305039478318694 (-53).
Definition zeroPointThree : spec_float := S754_finite false 5404319552844595 (-54).

(** The exact value of a finite double. *)
Definition valueOf (x : spec_float) : Q :=
  match x with
  | S754_finite s m e => inject_Z (cond_Zopp s (Z.pos m)) * 2 ^ e
  | _ => 0
  end%Q.

(** The integer [Math.round] yields on a finite number: the integer
    nearest to the exact value, halves upward. *)
Definition mathRound (x : spec_float) : Z := Qfloor (valueOf x + (1 # 2)).

(** [Math.round] as a function on numbers: NaN, the infinities and the
    zeros are returned as they are, and a negative number that rounds to
    zero gives [-0]. *)
Definition mathRoundNumber (x : spec_float) : spec_float :=
  match x with
  | S754_finite s _ _ =>
      let k := mathRound x in
      if (k =? 0) && s then S754_zero true else numberOfZ k
  | _ => x
  end.

(** ** [utils.ts]: streak and strength *)

Section Utils.
Context {rt : DateRuntime}.

(** The comparator of both sorts:
    [(a, b) => new Date(b.date).getTime() - new Date(a.date).getTime()]. *)
Definition compareDesc (a b : HabitInstance.t) : Z :=
  getTime (HabitInstance.date b) - getTime (HabitInstance.date a).

(** [Array.prototype.sort] is stable: an element moves behind another only
    when the comparator is positive on the pair.  For a consistent
    comparator the result is fixed by the language, whatever the engine's
    algorithm; it is computed here by insertion from the right. *)
Fixpoint insertSorted (a : HabitInstance.t) (s : list HabitInstance.t)
  : list HabitInstance.t :=
  match s with
  | [] => [a]
  | b :: r => if 0 <? compareDesc a b then b :: insertSorted a r else a :: s
  end.

Definition sortDesc (l : list HabitInstance.t) : list HabitInstance.t :=
  foldr insertSorted [] l.

(** The [for ... of] loop of the streak: [continue] on today's open
    instance, [break] on any other open instance. *)
Fixpoint streakLoop (todayStr : string) (sorted : list HabitInstance.t)
    (currentStreak : nat) : nat :=
  match sorted with
  | [] => currentStreak
  | inst :: rest =>
      if HabitInstance.completed inst then streakLoop todayStr rest (S currentStreak)
      else if String.eqb (HabitInstance.date inst) todayStr
           then streakLoop todayStr rest currentStreak
           else currentStreak
  end.

(** [getHabitStreak(instances)]; [todayStr] is [formatDate(new Date())]. *)
Definition getHabitStreak (todayStr : string) (instances : list HabitInstance.t) : nat :=
  let sorted := sortDesc instances in
  streakLoop todayStr sorted 0.

(** [(totalCompleted / totalInstances) * 100]. *)
Definition completionRate (totalCompleted totalInstances : nat) : spec_float :=
  fmul (fdiv (numberOfNat totalCompleted) (numberOfNat totalInstances))
       (numberOfZ 100).

(** [(Math.min(currentStreak, 21) / 21) * 100]. *)
Definition streakBonus (currentStreak : nat) : spec_float :=
  fmul (fdiv (numberOfNat (Nat.min currentStreak 21)) (numberOfZ 21))
       (numberOfZ 100).

(** [calculateHabitStrength(habit, instances)] of [utils.ts].  The
    argument of [Math.round] is finite here (the divisor is a non-zero
    length), so the result is an integer, and is given as one. *)
Definition calculateHabitStrength (todayStr : string) (habit : Habit.t)
    (instances : list HabitInstance.t) : Z :=
  let sorted := sortDesc instances in
  let currentStreak := streakLoop todayStr sorted 0 in
  let totalCompleted := length (filter (λ i, HabitInstance.completed i) sorted) in
  let totalInstances := length sorted in
  if (totalInstances =? 0)%nat then 0
  else
    mathRound (fadd (fmul (completionRate totalCompleted totalInstances) zeroPointSeven)
                    (fmul (streakBonus currentStreak) zeroPointThree)).

End Utils.

(** ** [services/mockDb.ts]: the localStorage-backed store *)

Module ProjectStatus.
(** Modelled from the spec: a project's status is [active | completed]. *)
Inductive t := active | completed.

#[global] Instance eq_dec : EqDecision t.
Proof. solve_decision. Defined.
End ProjectStatus.

Module Task.
(** Modelled from the spec: [types.ts] is not among the sources.  [title]
    stands for the payload fields (description, due date, priority, ...)
    that no store operation inspects. *)
Record t := mk {
  id : string;
  title : string;
  projectId : option string;
  completed : bool
}.
End Task.

Module TaskUpdates.
(** [Partial<Task>]: [None] is an absent key.  A present [projectId] key may
    still hold [undefined]. *)
Record t := mk {
  id : option string;
  title : option string;
  projectId : option (option string);
  completed : option bool
}.
End TaskUpdates.

Module Project.
(** Modelled from the spec: a project with its derived progress and
    status. *)
Record t := mk {
  id : string;
  name : string;
  progress : Z;
  status : ProjectStatus.t
}.
End Project.

(** The five seed habits. *)
Definition SUGGESTED_HABITS : list Habit.t :=
  [ Habit.mk "h1" "Morning Run (Gym)" "Activity" HEALTH DAILY LOCATION
      (Some (TriggerConfig.mk (Some "Gold's Gym") None None None)) 0;
    Habit.mk "h2" "Market Analysis" "TrendingUp" FINANCE WEEKDAYS APP_OPEN
      (Some (TriggerConfig.mk None (Some "Market Terminal") (Some "Check S&P 500") None)) 0;
    Habit.mk "h3" "Social Media < 30m" "Smartphone" DETOX DAILY SCREEN_TIME
      (Some (TriggerConfig.mk None None None (Some 30))) 0;
    Habit.mk "h4" "Read 1 Chapter" "BookOpen" LEARNING DAILY MANUAL None 0;
    Habit.mk "h5" "Deep Work Session" "Zap" PRODUCTIVITY WEEKDAYS APP_OPEN
      (Some (TriggerConfig.mk None (Some "Timer Started") None None)) 0 ].

(** [arr.find(s => s.id === h.id)]. *)
Definition findById (hid : string) (l : list Habit.t) : option Habit.t :=
  snd <$> list_find (λ s, Habit.id s = hid) l.

(** The body of [getSuggestions] over an arbitrary catalog. *)
Definition suggestFrom (catalog : list Habit.t) (interests : list InterestType)
  : list Habit.t :=
  let suggestions := filter (λ h, Habit.interest h ∈ interests) catalog in
  let suggestions :=
    if (length suggestions <? 5)%nat then
      let remaining := (5 - length suggestions)%nat in
      let defaults :=
        take remaining
          (filter (λ h, findById (Habit.id h) suggestions = None) catalog) in
      suggestions ++ defaults
    else suggestions in
  take 5 suggestions.

Definition getSuggestions (interests : list InterestType) : list Habit.t :=
  suggestFrom SUGGESTED_HABITS interests.

(** The [localStorage] keys of the service that hold habits, instances,
    tasks and projects; an absent key is [None].  The user profile key is
    read by none of the operations below. *)
Record Store := mkStore {
  HABITS : option (list Habit.t);
  INSTANCES : option (list HabitInstance.t);
  TASKS : option (list Task.t);
  PROJECTS : option (list Project.t)
}.

Definition setInstances (st : Store) (l : list HabitInstance.t) : Store :=
  mkStore (HABITS st) (Some l) (TASKS st) (PROJECTS st).
Definition setTasks (st : Store) (l : list Task.t) : Store :=
  mkStore (HABITS st) (INSTANCES st) (Some l) (PROJECTS st).
Definition setProjects (st : Store) (l : list Project.t) : Store :=
  mkStore (HABITS st) (INSTANCES st) (TASKS st) (Some l).

(** [stored ? JSON.parse(stored) : []]. *)
Definition parseOr {A} (stored : option (list A)) : list A := default [] stored.

Section MockDb.
Context {rt : DateRuntime}.

(** The private [calculateHabitStrength] of the service: it also writes the
    streak into the habit object it is handed. *)
Definition dbCalculateHabitStrength (todayStr : string) (habit : Habit.t)
    (instances : list HabitInstance.t) : Habit.t * Z :=
  let sorted := sortDesc instances in
  let currentStreak := streakLoop todayStr sorted 0 in
  let habit := Habit.with_streak habit currentStreak in
  let totalCompleted := length (filter (λ i, HabitInstance.completed i) sorted) in
  let totalInstances := length sorted in
  if (totalInstances =? 0)%nat then (habit, 0)
  else
    (habit,
     mathRound (fadd (fmul (completionRate totalCompleted totalInstances) zeroPointSeven)
                     (fmul (streakBonus currentStreak) zeroPointThree))).

Definition getHabits (todayStr : string) (st : Store) : list Habit.t :=
  let habits := parseOr (HABITS st) in
  let instances := parseOr (INSTANCES st) in
  (λ habit,
     let habitInstances :=
       filter (λ i, HabitInstance.habitId i = Habit.id habit) instances in
     fst (dbCalculateHabitStrength todayStr habit habitInstances)) <$> habits.

(** The filter callback of [createInstancesForDay]. *)
Definition scheduled (isWeekend : bool) (h : Habit.t) : bool :=
  match Habit.schedule h with
  | DAILY => true
  | WEEKDAYS => negb isWeekend
  | WEEKENDS => isWeekend
  | _ => true
  end.

Definition isWeekendDay (dateStr : string) : bool :=
  let dayOfWeek := getDay dateStr in
  (dayOfWeek =? 0) || (dayOfWeek =? 6).

(** The object literal of the map callback; the identifier is
    [`${dateStr}_${h.id}`]. *)
Definition newInstance (dateStr : string) (h : Habit.t) : HabitInstance.t :=
  HabitInstance.mk (dateStr +:+ "_" +:+ Habit.id h) (Habit.id h) dateStr false None None.

Definition createInstancesForDay (dateStr : string) (habits : list Habit.t)
  : list HabitInstance.t :=
  let isWeekend := isWeekendDay dateStr in
  newInstance dateStr <$> filter (λ h, scheduled isWeekend h) habits.

(** One turn of the [for (const date of dates)] loop of [getWeekInstances],
    on the loop's three variables. *)
Definition weekStep (habits : list Habit.t)
    (acc : list HabitInstance.t * list HabitInstance.t * bool) (date : string)
  : list HabitInstance.t * list HabitInstance.t * bool :=
  let '(allInstances, weekInstances, hasChanges) := acc in
  let dayInst := filter (λ i, HabitInstance.date i = date) allInstances in
  if (length dayInst =? 0)%nat then
    let created := createInstancesForDay date habits in
    (allInstances ++ created, weekInstances ++ created, true)
  else (allInstances, weekInstances ++ dayInst, hasChanges).

(** [getWeekInstances(dates)]: the store afterwards and the returned list. *)
Definition getWeekInstances (todayStr : string) (dates : list string) (st : Store)
  : Store * list HabitInstance.t :=
  let allInstances := parseOr (INSTANCES st) in
  let habits := getHabits todayStr st in
  let '(allInstances, weekInstances, hasChanges) :=
    if (0 <? length habits)%nat
    then foldl (weekStep habits) (allInstances, [], false) dates
    else (allInstances, [], false) in
  let st := if hasChanges : bool then setInstances st allInstances else st in
  (st, weekInstances).

(** [updateInstanceStatus(instanceId, completed, value?)]; [now] is
    [new Date().toISOString()] and [value = None] is an omitted argument. *)
Definition updateInstanceStatus (now : string) (instanceId : string)
    (completed : bool) (value : option Q) (st : Store) : Store :=
  match INSTANCES st with
  | None => st
  | Some instances =>
      match list_find (λ i, HabitInstance.id i = instanceId) instances with
      | Some (idx, inst) =>
          let inst :=
            HabitInstance.mk (HabitInstance.id inst) (HabitInstance.habitId inst)
              (HabitInstance.date inst) completed
              (if completed then Some now else HabitInstance.completedAt inst)
              (match value with Some v => Some v | None => HabitInstance.value inst end) in
          setInstances st (<[idx := inst]> instances)
      | None => st
      end
  end.

(** *** Tasks and projects *)

Definition getTasks (st : Store) : list Task.t := parseOr (TASKS st).
Definition getProjects (st : Store) : list Project.t := parseOr (PROJECTS st).

(** Truthiness of an optional string: [undefined] and the empty string are
    falsy. *)
Definition truthy (s : option string) : option string :=
  match s with
  | Some x => if String.eqb x "" then None else Some x
  | None => None
  end.

(** [Math.round((completed / total) * 100)], guarded by [total === 0]. *)
Definition progressOf (completed total : nat) : Z :=
  if (total =? 0)%nat then 0
  else mathRound (fmul (fdiv (numberOfNat completed) (numberOfNat total))
                       (numberOfZ 100)).

Definition updateProjectProgress (projectId : string) (st : Store) : Store :=
  let tasks := getTasks st in
  let projectTasks := filter (λ t, Task.projectId t = Some projectId) tasks in
  let total := length projectTasks in
  let completed := length (filter (λ t, Task.completed t) projectTasks) in
  let progress := progressOf completed total in
  let projects := getProjects st in
  match list_find (λ p, Project.id p = projectId) projects with
  | Some (idx, p) =>
      let status :=
        if progress =? 100 then ProjectStatus.completed
        else if bool_decide (Project.status p = ProjectStatus.completed)
                && (progress <? 100)
             then ProjectStatus.active
             else Project.status p in
      setProjects st
        (<[idx := Project.mk (Project.id p) (Project.name p) progress status]> projects)
  | None => st
  end.

Definition recomputeIfLinked (projectId : option string) (st : Store) : Store :=
  match truthy projectId with
  | Some pid => updateProjectProgress pid st
  | None => st
  end.

Definition addTask (task : Task.t) (st : Store) : Store :=
  let tasks := getTasks st ++ [task] in
  let st := setTasks st tasks in
  recomputeIfLinked (Task.projectId task) st.

(** [{ ...task, ...updates }]. *)
Definition applyUpdates (task : Task.t) (updates : TaskUpdates.t) : Task.t :=
  Task.mk (default (Task.id task) (TaskUpdates.id updates))
          (default (Task.title task) (TaskUpdates.title updates))
          (default (Task.projectId task) (TaskUpdates.projectId updates))
          (default (Task.completed task) (TaskUpdates.completed updates)).

Definition updateTask (taskId : string) (updates : TaskUpdates.t) (st : Store) : Store :=
  let tasks := getTasks st in
  match list_find (λ t, Task.id t = taskId) tasks with
  | Some (idx, t) =>
      let updated := applyUpdates t updates in
      let st := setTasks st (<[idx := updated]> tasks) in
      recomputeIfLinked (Task.projectId updated) st
  | None => st
  end.

Definition deleteTask (taskId : string) (st : Store) : Store :=
  let tasks := getTasks st in
  let task := snd <$> list_find (λ t, Task.id t = taskId) tasks in
  let filtered := filter (λ t, Task.id t ≠ taskId) tasks in
  let st := setTasks st filtered in
  recomputeIfLinked (task ≫= Task.projectId) st.

Definition addProject (project : Project.t) (st : Store) : Store :=
  setProjects st (getProjects st ++ [project]).

(** *** Onboarding seed *)

(** What the seeding reads from the outside world: [draw k] is the outcome
    of the [k]-th evaluation of [Math.random() > 0.3] and [clock k] the
    [new Date().toISOString()] read next to it. *)
Record Entropy := mkEntropy {
  draw : nat → bool;
  clock : nat → string
}.

(** The [forEach] over freshly created past instances. *)
Fixpoint simulatePast (e : Entropy) (k : nat) (instances : list HabitInstance.t)
  : list HabitInstance.t * nat :=
  match instances with
  | [] => ([], k)
  | inst :: rest =>
      let inst :=
        if draw e k then
          HabitInstance.mk (HabitInstance.id inst) (HabitInstance.habitId inst)
            (HabitInstance.date inst) true (Some (clock e k)) (HabitInstance.value inst)
        else inst in
      let '(rest, k) := simulatePast e (S k) rest in
      (inst :: rest, k)
  end.

(** One turn of the [for (let i = -14; i <= 3; i++)] loop; [dayString i] is
    [formatDate] of today moved by [i] days. *)
Definition seedStep (dayString : Z → string) (e : Entropy) (habits : list Habit.t)
    (acc : list HabitInstance.t * nat) (i : Z) : list HabitInstance.t * nat :=
  let '(allInstances, k) := acc in
  let dateStr := dayString i in
  let isPast := i <? 0 in
  let existing := filter (λ inst, HabitInstance.date inst = dateStr) allInstances in
  if (length existing =? 0)%nat then
    let instances := createInstancesForDay dateStr habits in
    let '(instances, k) :=
      if isPast then simulatePast e k instances else (instances, k) in
    (allInstances ++ instances, k)
  else (allInstances, k).

Definition seedInstancesForWeek (dayString : Z → string) (e : Entropy)
    (habits : list Habit.t) (st : Store) : Store :=
  let allInstances := parseOr (INSTANCES st) in
  let '(allInstances, _) :=
    foldl (seedStep dayString e habits) (allInstances, 0%nat) (seqZ (-14) 18) in
  setInstances st allInstances.

End MockDb.

(** ** Specification vocabulary

    The notions the properties below are stated with. *)

Section Vocabulary.
Context {rt : DateRuntime}.

(** The moment the comparator reads off an instance. *)
Definition timeOf (i : HabitInstance.t) : Z := getTime (HabitInstance.date i).

(** Newest first: every instance is at least as late as all that follow. *)
Definition descending (l : list HabitInstance.t) : Prop :=
  StronglySorted (λ a b, timeOf b <= timeOf a) l.

#[global] Instance Q_eq_dec : EqDecision Q.
Proof. solve_decision. Defined.

#[global] Instance HabitInstance_eq_dec : EqDecision HabitInstance.t.
Proof. solve_decision. Defined.

(** Length of the leading run of completed instances. *)
Fixpoint leadingRun (l : list HabitInstance.t) : nat :=
  match l with
  | [] => 0
  | i :: r => if HabitInstance.completed i then S (leadingRun r) else 0
  end.

(** The instances the walk steps over: open and dated today. *)
Definition openToday (todayStr : string) (i : HabitInstance.t) : Prop :=
  HabitInstance.completed i = false ∧ HabitInstance.date i = todayStr.

#[global] Instance openToday_dec todayStr i : Decision (openToday todayStr i).
Proof. unfold openToday. apply _. Defined.

(** The score in the spec's words, computed exactly: completion rate
    [100 * completedCount / totalCount], streak bonus
    [100 * min(streak, 21) / 21], blended 70/30, and rounded to the nearest
    integer, halves upward. *)
Definition specCompletionRate (completedCount totalCount : nat) : Q :=
  100 * inject_Z (Z.of_nat completedCount) / inject_Z (Z.of_nat totalCount).

Definition specStreakBonus (streak : nat) : Q :=
  100 * inject_Z (Z.of_nat (Nat.min streak 21)) / 21.

Definition specBlend (completedCount totalCount streak : nat) : Q :=
  specCompletionRate completedCount totalCount * (7 # 10)
  + specStreakBonus streak * (3 # 10).

Definition roundHalfUp (q : Q) : Z := Qfloor (q + (1 # 2)).

Definition specScore (completedCount totalCount streak : nat) : Z :=
  roundHalfUp (specBlend completedCount totalCount streak).

(** [q] lies exactly halfway between two integers. *)
Definition halfway (q : Q) : Prop :=
  (inject_Z (Qfloor (q + (1 # 2))) == q + (1 # 2))%Q.

(** The sum the code rounds, in doubles. *)
Definition blend (c t s : nat) : spec_float :=
  fadd (fmul (completionRate c t) zeroPointSeven) (fmul (streakBonus s) zeroPointThree).

(** The exact quotient of two counts. *)
Definition ratio (c t : nat) : Q := inject_Z (Z.of_nat c) / inject_Z (Z.of_nat t).

(** Vocabulary of the rounding proofs.  The shift record [mrs] holds the
    integer part of [A / B] and the position of the remainder against one
    half. *)
Definition located (A B : Z) (mrs : shr_record) : Prop :=
  0 < B ∧ 0 <= A ∧ shr_m mrs = A / B
  ∧ match shr_r mrs, shr_s mrs with
    | false, false => A mod B = 0
    | false, true => 0 < 2 * (A mod B) < B
    | true, false => 2 * (A mod B) = B
    | true, true => B < 2 * (A mod B)
    end.

(** A positive normal double: 53 significant bits, exponent within [L]. *)
Definition normalIn (L : Z) (x : spec_float) : Prop :=
  ∃ m e, x = S754_finite false m e ∧ Zdigits2 (Z.pos m) = 53 ∧ - L <= e <= L.

(** Plus zero or a positive normal double. *)
Definition okNum (L : Z) (x : spec_float) : Prop :=
  x = S754_zero false ∨ normalIn L x.

(** Half a unit in the last place, relative: [2 ^ -53]. *)
Definition ulp53 : Q := 1 # 9007199254740992.

(** [V] is [X] rounded: within a relative [2 ^ -53]. *)
Definition near (V X : Q) : Prop :=
  (X * (1 - ulp53) <= V ∧ V <= X * (1 + ulp53))%Q.

(** Whether [createInstancesForDay] keeps habit [h] on [dateStr]. *)
Definition dueOn (dateStr : string) (h : Habit.t) : bool :=
  scheduled (isWeekendDay dateStr) h.

(** The instances the store holds for a date. *)
Definition dayInstances (date : string) (all : list HabitInstance.t)
  : list HabitInstance.t :=
  filter (λ i, HabitInstance.date i = date) all.

(** What one turn of the loop appends: a whole day, and only when the day
    has no instance yet. *)
Definition createdFor (habits : list Habit.t) (all : list HabitInstance.t)
    (date : string) : list HabitInstance.t :=
  if decide (dayInstances date all = []) then createInstancesForDay date habits
  else [].

(** What the whole loop appends. *)
Fixpoint ensure (habits : list Habit.t) (all : list HabitInstance.t)
    (dates : list string) : list HabitInstance.t :=
  match dates with
  | [] => []
  | d :: ds =>
      createdFor habits all d ++ ensure habits (all ++ createdFor habits all d) ds
  end.

(** The instances a call adds to the store: the stored list only grows at
    its end (see [getWeekInstances_appends]). *)
Definition createdByWeek (todayStr : string) (dates : list string) (st : Store)
  : list HabitInstance.t :=
  drop (length (parseOr (INSTANCES st)))
       (parseOr (INSTANCES (getWeekInstances todayStr dates st).1)).

(** [hasChanges] ends up set exactly when some turn met an empty day. *)
Fixpoint anyEmptyDay (habits : list Habit.t) (all : list HabitInstance.t)
    (dates : list string) : bool :=
  match dates with
  | [] => false
  | d :: ds =>
      bool_decide (dayInstances d all = [])
      || anyEmptyDay habits (all ++ createdFor habits all d) ds
  end.

(** The reading of lazy creation by single (date, habit) pairs: an instance
    is created exactly when its habit is due on a requested date and the
    store has no instance with that date and that habit. *)
Definition createsExactlyMissing (todayStr : string) (dates : list string)
    (st : Store) : Prop :=
  ∀ i, i ∈ createdByWeek todayStr dates st ↔
    ∃ d h, d ∈ dates ∧ h ∈ parseOr (HABITS st) ∧ dueOn d h = true
           ∧ (∀ j, j ∈ parseOr (INSTANCES st) →
                ¬ (HabitInstance.date j = d ∧ HabitInstance.habitId j = Habit.id h))
           ∧ i = newInstance d h.

Definition instanceKey (i : HabitInstance.t) : string * string :=
  (HabitInstance.habitId i, HabitInstance.date i).

Definition compositeId (i : HabitInstance.t) : Prop :=
  HabitInstance.id i = HabitInstance.date i +:+ "_" +:+ HabitInstance.habitId i.

(** At most one instance per (habitId, date) pair, each with the composite
    identifier of its date and habit. *)
Definition instancesInv (l : list HabitInstance.t) : Prop :=
  NoDup (instanceKey <$> l) ∧ Forall compositeId l.

Definition storeInv (st : Store) : Prop := instancesInv (parseOr (INSTANCES st)).

#[global] Instance compositeId_dec i : Decision (compositeId i).
Proof. unfold compositeId. apply _. Defined.

#[global] Instance instancesInv_dec l : Decision (instancesInv l).
Proof. unfold instancesInv. apply _. Defined.

#[global] Instance storeInv_dec st : Decision (storeInv st).
Proof. unfold storeInv. apply _. Defined.

(** The invariant read for every well-typed store, whatever its habits. *)
Definition preservesInvariant (op : Store → Store) : Prop :=
  ∀ st, storeInv st → storeInv (op st).

(** What [updateInstanceStatus] writes into the instance it found. *)
Definition toggled (now : string) (completed : bool) (value : option Q)
    (inst : HabitInstance.t) : HabitInstance.t :=
  HabitInstance.mk (HabitInstance.id inst) (HabitInstance.habitId inst)
    (HabitInstance.date inst) completed
    (if completed then Some now else HabitInstance.completedAt inst)
    (match value with Some v => Some v | None => HabitInstance.value inst end).

(** The progress and status a project should show for the current tasks. *)
Definition memberTasks (projectId : string) (st : Store) : list Task.t :=
  filter (λ t, Task.projectId t = Some projectId) (getTasks st).

Definition expectedProgress (projectId : string) (st : Store) : Z :=
  progressOf (length (filter (λ t, Task.completed t) (memberTasks projectId st)))
             (length (memberTasks projectId st)).

Definition upToDate (st : Store) (p : Project.t) : Prop :=
  Project.progress p = expectedProgress (Project.id p) st
  ∧ (Project.status p = ProjectStatus.completed ↔ Project.progress p = 100).

#[global] Instance TriggerConfig_eq_dec : EqDecision TriggerConfig.t.
Proof. solve_decision. Defined.

#[global] Instance Habit_eq_dec : EqDecision Habit.t.
Proof. solve_decision. Defined.

(** The suggestion rule in the spec's words: start from the catalog entries
    with a requested interest, then walk the catalog and add every entry not
    selected yet until [targetCount] entries are reached or the catalog is
    exhausted. *)
Fixpoint backfill (targetCount : nat) (selected candidates : list Habit.t)
  : list Habit.t :=
  match candidates with
  | [] => selected
  | c :: cs =>
      if decide (targetCount ≤ length selected)%nat then selected
      else if decide (c ∈ selected) then backfill targetCount selected cs
      else backfill targetCount (selected ++ [c]) cs
  end.

Definition specSuggest (targetCount : nat) (catalog : list Habit.t)
    (interests : list InterestType) : list Habit.t :=
  take targetCount
    (backfill targetCount (filter (λ h, Habit.interest h ∈ interests) catalog) catalog).

(** The entries a backfill may add: those whose identifier is not among the
    matched ones. *)
Definition unmatched (matched : list Habit.t) (h : Habit.t) : Prop :=
  findById (Habit.id h) matched = None.

#[global] Instance unmatched_dec matched h : Decision (unmatched matched h).
Proof. unfold unmatched. apply _. Defined.

End Vocabulary.

(** ** Further operations of [utils.ts] and [mockDb.ts] *)

(** [calculateCompletion(total, completed)] of [utils.ts]. *)
Definition calculateCompletion (total completed : spec_float) : spec_float :=
  if SFeqb total (S754_zero false) then numberOfZ 0
  else mathRoundNumber (fmul (fdiv completed total) (numberOfZ 100)).

Section MoreMockDb.
Context {rt : DateRuntime}.

(** [getInstancesForDate(dateStr)]: the store afterwards and the returned
    list. *)
Definition getInstancesForDate (todayStr : string) (dateStr : string) (st : Store)
  : Store * list HabitInstance.t :=
  let allInstances := parseOr (INSTANCES st) in
  let dayInstances := filter (λ i, HabitInstance.date i = dateStr) allInstances in
  if (length dayInstances =? 0)%nat then
    let habits := getHabits todayStr st in
    if (0 <? length habits)%nat then
      let dayInstances := createInstancesForDay dateStr habits in
      let allInstances := allInstances ++ dayInstances in
      (setInstances st allInstances, dayInstances)
    else (st, dayInstances)
  else (st, dayInstances).

End MoreMockDb.

Module Settings.
(** Modelled from the spec: the three toggles of a user's settings, named
    as [initUser] names them. *)
Record t := mk {
  locationEnabled : bool;
  notificationsEnabled : bool;
  screenTimeEnabled : bool
}.
End Settings.

Module User.
(** Modelled from the spec: the user profile, with the fields [initUser]
    writes. *)
Record t := mk {
  id : string;
  email : string;
  name : string;
  onboarded : bool;
  interests : list InterestType;
  settings : Settings.t
}.
End User.

Module Permissions.
(** The [permissions] argument of [completeOnboarding]. *)
Record t := mk {
  loc : bool;
  notif : bool;
  screen : bool
}.
End Permissions.

(** The whole of the service's state: the four list keys, the user key and
    the in-memory [currentUserCache]. *)
Record Session := mkSession {
  storage : Store;
  USER : option User.t;
  currentUserCache : option User.t
}.

(** [getUser()]: the cache wins; a stored profile is loaded into it. *)
Definition getUser (s : Session) : Session * option User.t :=
  match currentUserCache s with
  | Some u => (s, Some u)
  | None =>
      match USER s with
      | Some u => (mkSession (storage s) (USER s) (Some u), Some u)
      | None => (s, None)
      end
  end.

(** [initUser(email, name)]; [suffix] is
    [Math.random().toString(36).substr(2, 9)]. *)
Definition initUser (suffix : string) (email name : string) (s : Session)
  : Session * User.t :=
  let existing :=
    match USER s with
    | Some parsed =>
        if String.eqb (User.email parsed) email then Some parsed else None
    | None => None
    end in
  match existing with
  | Some parsed => (mkSession (storage s) (USER s) (Some parsed), parsed)
  | None =>
      let newUser :=
        User.mk ("u_" +:+ suffix) email name false []
          (Settings.mk false false false) in
      (mkSession (mkStore None None None None) (Some newUser) (Some newUser), newUser)
  end.

Section Onboarding.
Context {rt : DateRuntime}.

(** [completeOnboarding(userId, interests, habits, permissions)]; the seed
    reads [dayString] and [e] as [seedInstancesForWeek] does. *)
Definition completeOnboarding (dayString : Z → string) (e : Entropy)
    (userId : string) (interests : list InterestType) (habits : list Habit.t)
    (permissions : Permissions.t) (s : Session) : Session :=
  let '(s, user) := getUser s in
  match user with
  | Some user =>
      if String.eqb (User.id user) userId then
        let user :=
          User.mk (User.id user) (User.email user) (User.name user) true interests
            (Settings.mk (Permissions.loc permissions) (Permissions.notif permissions)
               (Permissions.screen permissions)) in
        let st := storage s in
        let st := mkStore (Some habits) (INSTANCES st) (TASKS st) (PROJECTS st) in
        let st := seedInstancesForWeek dayString e habits st in
        mkSession st (Some user) (Some user)
      else s
  | None => s
  end.

End Onboarding.

(** [updateUserSettings(settings)]. *)
Definition updateUserSettings (settings : Settings.t) (s : Session) : Session :=
  let '(s, user) := getUser s in
  match user with
  | Some user =>
      let user :=
        User.mk (User.id user) (User.email user) (User.name user)
          (User.onboarded user) (User.interests user) settings in
      mkSession (storage s) (Some user) (Some user)
  | None => s
  end.

(** [reset()]: [localStorage.clear()] and an empty cache. *)
Definition reset (s : Session) : Session :=
  mkSession (mkStore None None None None) None None.

(** Every stored project shows the progress and status of its current
    member tasks. *)
Definition allUpToDate (st : Store) : Prop :=
  Forall (upToDate st) (getProjects st).

(** The identifier, habit and date of every stored instance, in stored
    order. *)
Definition instanceShape (i : HabitInstance.t) : string * string * string :=
  (HabitInstance.id i, HabitInstance.habitId i, HabitInstance.date i).

(** Identifier and name of a project: what no task operation changes. *)
Definition projectShape (p : Project.t) : string * string :=
  (Project.id p, Project.name p).

(** The status [updateProjectProgress] writes next to a progress value. *)
Definition statusAfter (progress : Z) (status : ProjectStatus.t) : ProjectStatus.t :=
  if progress =? 100 then ProjectStatus.completed
  else if bool_decide (status = ProjectStatus.completed) && (progress <? 100)
       then ProjectStatus.active
       else status.

(** A habit with its stored streak blanked. *)
Definition unstreaked (h : Habit.t) : Habit.t := Habit.with_streak h 0.

(** ** Concrete data (UTC runtime) *)

Definition januaryDays : list string :=
  [ "2024-01-01"; "2024-01-02"; "2024-01-03"; "2024-01-04"; "2024-01-05";
    "2024-01-06"; "2024-01-07"; "2024-01-08"; "2024-01-09"; "2024-01-10";
    "2024-01-11"; "2024-01-12"; "2024-01-13"; "2024-01-14"; "2024-01-15";
    "2024-01-16"; "2024-01-17"; "2024-01-18"; "2024-01-19"; "2024-01-20";
    "2024-01-21" ].

Definition morningRun : Habit.t :=
  Habit.mk "h1" "Morning Run (Gym)" "Activity" HEALTH DAILY LOCATION
    (Some (TriggerConfig.mk (Some "Gold's Gym") None None None)) 0.

Definition marketAnalysis : Habit.t :=
  Habit.mk "h2" "Market Analysis" "TrendingUp" FINANCE WEEKDAYS APP_OPEN
    (Some (TriggerConfig.mk None (Some "Market Terminal") (Some "Check S&P 500") None)) 0.

Definition readChapter : Habit.t :=
  Habit.mk "h4" "Read 1 Chapter" "BookOpen" LEARNING DAILY MANUAL None 0.

(** An instance of habit [h1] on a day, done or open. *)
Definition run (d : string) (done : bool) : HabitInstance.t :=
  HabitInstance.mk (d +:+ "_h1") "h1" d done
    (if done then Some (d +:+ "T07:00:00.000Z") else None) None.

(** Stored out of order, with gaps between the days. *)
Definition gappedHistory : list HabitInstance.t :=
  [run "2024-01-02" false; run "2024-01-09" true; run "2024-01-05" true].

Definition gappedSorted : list HabitInstance.t :=
  [run "2024-01-09" true; run "2024-01-05" true; run "2024-01-02" false].

(** Twenty-one days in a row, all done. *)
Definition fullHistory : list HabitInstance.t := (λ d, run d true) <$> januaryDays.

(** Twenty days, the first nine done, the other eleven open. *)
Definition tieHistory : list HabitInstance.t :=
  ((λ d, run d true) <$> take 9 januaryDays)
  ++ ((λ d, run d false) <$> take 11 (drop 9 januaryDays)).

(** A store in which 2024-01-08 is populated for one of two daily habits. *)
Definition partialStore : Store :=
  mkStore (Some [morningRun; readChapter]) (Some [run "2024-01-08" false]) None None.

(** A store whose habit list names [h1] twice. *)
Definition duplicateHabits : Store :=
  mkStore (Some [morningRun; morningRun]) None None None.

(** Today is 2024-01-15: offsets -14 .. 3 are the first eighteen days of
    January. *)
Definition dayString15 (i : Z) : string :=
  default "" (januaryDays !! Z.to_nat (i + 14)).

Definition evenDraws : Entropy :=
  mkEntropy Nat.even (λ _, "2024-01-15T08:00:00.000Z").

Definition seededStore : Store :=
  mkStore (Some [morningRun; marketAnalysis]) (Some [run "2024-01-08" true]) None None.

(** A store with one completed instance. *)
Definition checkedStore : Store :=
  mkStore None
    (Some [HabitInstance.mk "2024-01-08_h1" "h1" "2024-01-08" true
             (Some "2024-01-08T07:30:00.000Z") None])
    None None.

(** Two projects; the only task belongs to the first and is completed. *)
Definition movedStore : Store :=
  mkStore None None
    (Some [Task.mk "t1" "Write report" (Some "pA") true])
    (Some [Project.mk "pA" "Alpha" 100 ProjectStatus.completed;
           Project.mk "pB" "Beta" 0 ProjectStatus.active]).

Definition moveToBeta : TaskUpdates.t :=
  TaskUpdates.mk None None (Some (Some "pB")) None.

(** One project with four tasks, three of them completed. *)
Definition fourTasks : Store :=
  addTask (Task.mk "t4" "Ship" (Some "p1") false)
    (addTask (Task.mk "t3" "Test" (Some "p1") true)
       (addTask (Task.mk "t2" "Build" (Some "p1") true)
          (addTask (Task.mk "t1" "Plan" (Some "p1") true)
             (addProject (Project.mk "p1" "Launch" 0 ProjectStatus.active)
                (mkStore None None None None))))).

(** Yesterday done, tomorrow scheduled and still open; today is 2024-01-20. *)
Definition aheadHistory : list HabitInstance.t :=
  [run "2024-01-19" true; run "2024-01-21" false].

(** Two days done and today's instance, 2024-01-20, still open. *)
Definition openTodayHistory : list HabitInstance.t :=
  [run "2024-01-19" true; run "2024-01-20" false; run "2024-01-18" true].

(** Two habits chosen, nothing scheduled yet. *)
Definition freshStore : Store :=
  mkStore (Some [morningRun; marketAnalysis]) None None None.

Definition ada : User.t :=
  User.mk "u_abc" "ada@example.org" "Ada" false [] (Settings.mk false false false).

(** A signed-in session right after [initUser]. *)
Definition adaSession : Session :=
  mkSession (mkStore None None None None) (Some ada) (Some ada).

Definition allGranted : Permissions.t := Permissions.mk true true true.

(** A second reading of the same day: the dates of the offsets -14 .. 3
    are those of [dayString15]. *)
Definition sameDay15 (i : Z) : string :=
  if i <? 4 then dayString15 i else "2024-01-19".

Definition oddDraws : Entropy :=
  mkEntropy Nat.odd (λ _, "2024-01-15T21:00:00.000Z").

Definition reviewTask : Task.t := Task.mk "t9" "Review" (Some "pB") false.

(** * Properties *)

Example utc_saturday : UTC.day "2024-01-06" = 6.
Proof. reflexivity. Qed.

Example utc_epoch : UTC.time "1970-01-02" = 86400000.
Proof. reflexivity. Qed.

(** ** The stable descending sort *)

Section SortFacts.
Context {rt : DateRuntime}.

Lemma insertSorted_perm a s : insertSorted a s ≡ₚ a :: s.
Proof.
  induction s as [|b r IH]; simpl; [done|].
  destruct (0 <? compareDesc a b); [|done].
  rewrite IH. apply perm_swap.
Qed.

Lemma sortDesc_perm l : sortDesc l ≡ₚ l.
Proof.
  induction l as [|a l IH]; simpl; [done|].
  by rewrite insertSorted_perm, IH.
Qed.

Lemma insertSorted_front a s :
  Forall (λ b, timeOf b <= timeOf a) s → insertSorted a s = a :: s.
Proof.
  destruct 1 as [|b r Hb _]; simpl; [done|].
  unfold compareDesc. fold (timeOf a) (timeOf b).
  destruct (Z.ltb_spec 0 (timeOf b - timeOf a)); [lia|done].
Qed.

Lemma insertSorted_descending a s : descending s → descending (insertSorted a s).
Proof.
  unfold descending. induction 1 as [|b r Hr IH Hb]; simpl.
  - repeat constructor.
  - unfold compareDesc. fold (timeOf a) (timeOf b).
    destruct (Z.ltb_spec 0 (timeOf b - timeOf a)) as [Hlt|Hge].
    + constructor; [done|].
      rewrite (insertSorted_perm a r). constructor; [lia|done].
    + constructor; [by constructor|].
      constructor; [lia|].
      eapply Forall_impl; [exact Hb|]. simpl. intros; lia.
Qed.

Lemma sortDesc_descending l : descending (sortDesc l).
Proof.
  induction l as [|a l IH]; simpl; [constructor|].
  by apply insertSorted_descending.
Qed.

Lemma sortDesc_fixed s : descending s → sortDesc s = s.
Proof.
  induction 1 as [|a s Hs IH Ha]; simpl; [done|].
  rewrite IH. by apply insertSorted_front.
Qed.

(** Insertions of instances with different timestamps commute. *)
Lemma insertSorted_comm a b s :
  timeOf a ≠ timeOf b →
  insertSorted a (insertSorted b s) = insertSorted b (insertSorted a s).
Proof.
  intros Hab. induction s as [|c r IH]; simpl; unfold compareDesc;
    fold (timeOf a) (timeOf b); [|fold (timeOf c)].
  - destruct (Z.ltb_spec 0 (timeOf b - timeOf a)),
             (Z.ltb_spec 0 (timeOf a - timeOf b)); try done; lia.
  - destruct (Z.ltb_spec 0 (timeOf c - timeOf b)) as [Hcb|Hcb],
             (Z.ltb_spec 0 (timeOf c - timeOf a)) as [Hca|Hca]; simpl;
      unfold compareDesc; fold (timeOf a) (timeOf b) (timeOf c).
    + destruct (Z.ltb_spec 0 (timeOf c - timeOf a)),
               (Z.ltb_spec 0 (timeOf c - timeOf b)); try lia.
      by rewrite IH.
    + destruct (Z.ltb_spec 0 (timeOf c - timeOf a)),
               (Z.ltb_spec 0 (timeOf a - timeOf b)),
               (Z.ltb_spec 0 (timeOf c - timeOf b)); try lia; done.
    + destruct (Z.ltb_spec 0 (timeOf b - timeOf a)),
               (Z.ltb_spec 0 (timeOf c - timeOf a)),
               (Z.ltb_spec 0 (timeOf c - timeOf b)); try lia; done.
    + destruct (Z.ltb_spec 0 (timeOf b - timeOf a)),
               (Z.ltb_spec 0 (timeOf a - timeOf b)),
               (Z.ltb_spec 0 (timeOf c - timeOf a)),
               (Z.ltb_spec 0 (timeOf c - timeOf b)); try lia; done.
Qed.

(** With pairwise-distinct timestamps the sort does not depend on the order
    in which the instances were stored. *)
Lemma sortDesc_permutation l l' :
  l ≡ₚ l' → NoDup (timeOf <$> l) → sortDesc l = sortDesc l'.
Proof.
  induction 1 as [|a l l' _ IH|a b l|l l' l'' H1 IH1 H2 IH2]; intros Hnd; simpl.
  - done.
  - apply NoDup_cons in Hnd as [_ Hnd]. by rewrite IH.
  - apply insertSorted_comm.
    rewrite !fmap_cons in Hnd.
    apply NoDup_cons in Hnd as [Hin _].
    intros Heq. apply Hin. rewrite Heq. left.
  - rewrite IH1 by done. apply IH2.
    by rewrite <- H1.
Qed.

(** Filtering commutes with the stable sort. *)
Lemma filter_insertSorted (P : HabitInstance.t → Prop) `{∀ x, Decision (P x)} a s :
  descending s →
  filter P (insertSorted a s) =
    if decide (P a) then insertSorted a (filter P s) else filter P s.
Proof.
  unfold descending. induction 1 as [|b r Hr IH Hb]; simpl.
  - rewrite filter_cons, filter_nil. by destruct (decide (P a)).
  - unfold compareDesc at 1. fold (timeOf a) (timeOf b).
    destruct (Z.ltb_spec 0 (timeOf b - timeOf a)) as [Hlt|Hge].
    + rewrite !filter_cons, IH.
      destruct (decide (P b)), (decide (P a)); try done.
      simpl. unfold compareDesc. fold (timeOf a) (timeOf b).
      by destruct (Z.ltb_spec 0 (timeOf b - timeOf a)); [|lia].
    + rewrite (filter_cons _ a).
      destruct (decide (P a)); [|done].
      symmetry. apply insertSorted_front.
      apply Forall_forall. intros x [_ Hx]%list_elem_of_filter.
      apply elem_of_cons in Hx as [->|Hx]; [lia|].
      rewrite Forall_forall in Hb. specialize (Hb x Hx). simpl in Hb. lia.
Qed.

Lemma filter_sortDesc (P : HabitInstance.t → Prop) `{∀ x, Decision (P x)} l :
  filter P (sortDesc l) = sortDesc (filter P l).
Proof.
  induction l as [|a l IH]; simpl; [done|].
  rewrite filter_insertSorted by apply sortDesc_descending.
  rewrite filter_cons, IH. by destruct (decide (P a)).
Qed.

End SortFacts.

(** ** The streak walk *)

Section StreakFacts.
Context {rt : DateRuntime}.

Lemma streakLoop_acc todayStr l n :
  streakLoop todayStr l n = (n + streakLoop todayStr l 0)%nat.
Proof.
  revert n. induction l as [|i r IH]; intros n; simpl; [lia|].
  destruct (HabitInstance.completed i).
  - rewrite (IH (S n)), (IH 1%nat). lia.
  - destruct (String.eqb _ _); [apply IH|lia].
Qed.

Lemma streakLoop_skip todayStr l n :
  streakLoop todayStr (filter (λ i, ¬ openToday todayStr i) l) n
  = streakLoop todayStr l n.
Proof.
  revert n. induction l as [|i r IH]; intros n; [done|].
  rewrite filter_cons.
  destruct (decide (¬ openToday todayStr i)) as [Hkeep|Hskip]; simpl.
  - destruct (HabitInstance.completed i) eqn:Hc; [apply IH|].
    destruct (String.eqb_spec (HabitInstance.date i) todayStr) as [Hd|Hd]; [|done].
    by destruct Hkeep.
  - apply dec_stable in Hskip as [Hc Hd].
    rewrite Hc, IH. by destruct (String.eqb_spec (HabitInstance.date i) todayStr).
Qed.

Lemma streakLoop_leadingRun todayStr l :
  Forall (λ i, HabitInstance.date i ≠ todayStr) l →
  streakLoop todayStr l 0 = leadingRun l.
Proof.
  induction 1 as [|i r Hi _ IH]; simpl; [done|].
  destruct (HabitInstance.completed i).
  - rewrite streakLoop_acc, IH. done.
  - by destruct (String.eqb_spec (HabitInstance.date i) todayStr).
Qed.

(** The streak of a list ignores today's open instances, wherever they were
    stored. *)
Lemma getHabitStreak_filter todayStr l :
  getHabitStreak todayStr (filter (λ i, ¬ openToday todayStr i) l)
  = getHabitStreak todayStr l.
Proof.
  unfold getHabitStreak. simpl.
  rewrite <- filter_sortDesc. apply streakLoop_skip.
Qed.

(** C1.  For instances with pairwise-distinct dates (as the comparator reads
    them: distinct timestamps), none dated today, [getHabitStreak] is the
    length of the leading run of completed instances of the list sorted by
    date descending, whatever the gaps between the dates; it is 0 when the
    newest instance is not completed. *)
Theorem getHabitStreak_leading_run (todayStr : string)
    (instances sorted : list HabitInstance.t) :
  NoDup (timeOf <$> instances) →
  Forall (λ i, HabitInstance.date i ≠ todayStr) instances →
  sorted ≡ₚ instances →
  descending sorted →
  getHabitStreak todayStr instances = leadingRun sorted
  ∧ (∀ newest rest, sorted = newest :: rest →
       HabitInstance.completed newest = false →
       getHabitStreak todayStr instances = 0%nat).
Proof.
  intros Hnd Htoday Hperm Hdesc.
  assert (Hsort : sortDesc instances = sorted).
  { rewrite <- (sortDesc_fixed sorted Hdesc).
    symmetry. apply sortDesc_permutation; [done|].
    by rewrite Hperm. }
  assert (Hrun : getHabitStreak todayStr instances = leadingRun sorted).
  { unfold getHabitStreak. simpl. rewrite Hsort.
    apply streakLoop_leadingRun. by rewrite Hperm. }
  split; [done|].
  intros newest rest -> Hopen. rewrite Hrun. simpl. by rewrite Hopen.
Qed.

(** C2.  Appending one open instance dated today to a list that has no
    instance dated today leaves the streak as it was. *)
Theorem getHabitStreak_append_open_today (todayStr : string)
    (instances : list HabitInstance.t) (x : HabitInstance.t) :
  Forall (λ i, HabitInstance.date i ≠ todayStr) instances →
  HabitInstance.date x = todayStr →
  HabitInstance.completed x = false →
  getHabitStreak todayStr (instances ++ [x]) = getHabitStreak todayStr instances.
Proof.
  intros _ Hd Hc.
  rewrite <- (getHabitStreak_filter todayStr (instances ++ [x])).
  rewrite filter_app, filter_cons, filter_nil.
  rewrite decide_False by (intros Hn; by apply Hn).
  rewrite app_nil_r. apply getHabitStreak_filter.
Qed.

End StreakFacts.

(** ** The strength score *)

(** *** Rounding to nearest in binary64

    The operations of [SpecFloat] are related to exact arithmetic: in the
    range of normal doubles the result of [*], [/] and [+] on positive
    operands is within a relative [2 ^ -53] of the exact result. *)

Section DoubleFacts.

Lemma digits2_pos_bounds (p : positive) :
  2 ^ (Z.pos (digits2_pos p) - 1) <= Z.pos p < 2 ^ Z.pos (digits2_pos p).
Proof.
  induction p as [p IH|p IH|]; cbn [digits2_pos].
  - rewrite Pos2Z.inj_succ.
    replace (Z.succ (Z.pos (digits2_pos p)) - 1) with (Z.succ (Z.pos (digits2_pos p) - 1)) by lia.
    rewrite !Z.pow_succ_r by lia. lia.
  - rewrite Pos2Z.inj_succ.
    replace (Z.succ (Z.pos (digits2_pos p)) - 1) with (Z.succ (Z.pos (digits2_pos p) - 1)) by lia.
    rewrite !Z.pow_succ_r by lia. lia.
  - simpl. lia.
Qed.

Lemma iter_pos_nat {A} (f : A → A) (p : positive) (x : A) :
  SpecFloat.iter_pos f p x = Nat.iter (Pos.to_nat p) f x.
Proof.
  revert x. induction p as [p IH|p IH|]; intros x; cbn [SpecFloat.iter_pos].
  - rewrite !IH, Pos2Nat.inj_xI.
    replace (S (2 * Pos.to_nat p)) with (Pos.to_nat p + (Pos.to_nat p + 1))%nat by lia.
    rewrite !Nat.iter_add. simpl. done.
  - rewrite !IH, Pos2Nat.inj_xO.
    replace (2 * Pos.to_nat p)%nat with (Pos.to_nat p + Pos.to_nat p)%nat by lia.
    by rewrite Nat.iter_add.
  - done.
Qed.

Lemma shr_1_located A B mrs : located A B mrs → located A (2 * B) (shr_1 mrs).
Proof.
  intros (HB & HA & Hm & Hloc).
  assert (Hdiv : A / (2 * B) = (A / B) / 2).
  { rewrite (Z.mul_comm 2 B). by rewrite Z.div_div by lia. }
  assert (Hmod : A mod (2 * B) = A mod B + B * ((A / B) mod 2)).
  { rewrite (Z.mul_comm 2 B). apply Z.rem_mul_r; lia. }
  pose proof (Z.mod_pos_bound A B HB) as Hr.
  pose proof (Z.div_pos A B HA HB) as Hq.
  destruct mrs as [m r s]. cbn [shr_m shr_r shr_s] in *.
  unfold located. split; [lia|]. split; [done|].
  rewrite Hdiv, Hmod, <- Hm.
  destruct m as [|[p|p|]|p]; cbn [shr_1 shr_m shr_r shr_s]; try lia.
  - (* 0 *)
    split; [done|]. change (0 mod 2) with 0.
    destruct r, s; cbn [orb]; lia.
  - (* 2p+1 *)
    split; [rewrite Pos2Z.inj_xI; apply Z.div_unique with 1; lia|].
    assert (Z.pos p~1 mod 2 = 1) as ->.
    { rewrite Pos2Z.inj_xI. symmetry. apply Z.mod_unique with (Z.pos p); lia. }
    destruct r, s; cbn [orb]; lia.
  - split; [rewrite Pos2Z.inj_xO; apply Z.div_unique with 0; lia|].
    assert (Z.pos p~0 mod 2 = 0) as ->.
    { rewrite Pos2Z.inj_xO. symmetry. apply Z.mod_unique with (Z.pos p); lia. }
    destruct r, s; cbn [orb]; lia.
  - split; [done|]. change (1 mod 2) with 1.
    destruct r, s; cbn [orb]; lia.
Qed.

Lemma shr_iter_located A B mrs (n : nat) :
  located A B mrs → located A (B * 2 ^ Z.of_nat n) (Nat.iter n shr_1 mrs).
Proof.
  intros H. induction n as [|n IH].
  - simpl. by rewrite Z.mul_1_r.
  - rewrite Nat2Z.inj_succ, Z.pow_succ_r by lia. cbn [Nat.iter].
    replace (B * (2 * 2 ^ Z.of_nat n)) with (2 * (B * 2 ^ Z.of_nat n)) by lia.
    by apply shr_1_located.
Qed.

Lemma round_nearest_even_located A B mrs :
  located A B mrs →
  let m2 := round_nearest_even (shr_m mrs) (loc_of_shr_record mrs) in
  2 * Z.abs (m2 * B - A) <= B
  ∧ A / B <= m2 <= A / B + 1
  ∧ (A mod B = 0 → m2 = A / B).
Proof.
  intros (HB & HA & Hm & Hloc). cbv zeta.
  pose proof (Z.mod_pos_bound A B HB) as Hr.
  pose proof (Z.div_mod A B ltac:(lia)) as Hdm.
  destruct mrs as [m r s]. cbn [shr_m shr_r shr_s] in *. subst m.
  destruct r, s; cbn [loc_of_shr_record round_nearest_even].
  - split; [nia|]. split; [lia|lia].
  - destruct (Z.even (A / B)); (split; [nia|]); (split; [lia|lia]).
  - split; [nia|]. split; [lia|lia].
  - split; [nia|]. split; [lia|lia].
Qed.

Lemma Zdigits2_bounds (m : Z) :
  0 < m → 2 ^ (Zdigits2 m - 1) <= m < 2 ^ Zdigits2 m ∧ 0 < Zdigits2 m.
Proof.
  destruct m as [|p|p]; try lia. intros _. cbn [Zdigits2].
  split; [apply digits2_pos_bounds|lia].
Qed.

Lemma Zdigits2_le (m k : Z) : 0 < m → m < 2 ^ k → Zdigits2 m <= k.
Proof.
  intros Hm Hk. destruct (Zdigits2_bounds m Hm) as [[Hlo _] Hpos].
  destruct (Z.le_gt_cases (Zdigits2 m) k) as [|Hgt]; [done|].
  assert (2 ^ k <= 2 ^ (Zdigits2 m - 1)) by (apply Z.pow_le_mono_r; lia).
  lia.
Qed.

Lemma Zdigits2_ge (m k : Z) : 0 < m → 2 ^ (k - 1) <= m → k <= Zdigits2 m.
Proof.
  intros Hm Hk. destruct (Zdigits2_bounds m Hm) as [[_ Hhi] Hpos].
  destruct (Z.le_gt_cases k (Zdigits2 m)) as [|Hgt]; [done|].
  assert (2 ^ Zdigits2 m <= 2 ^ (k - 1)) by (apply Z.pow_le_mono_r; lia).
  lia.
Qed.

Lemma located_of_loc_exact (m : Z) :
  0 <= m → located m 1 (shr_record_of_loc m loc_Exact).
Proof.
  intros Hm. unfold located. cbn.
  rewrite Z.div_1_r, Z.mod_1_r. lia.
Qed.

Lemma shr_fexp_located A B m e l :
  located A B (shr_record_of_loc m l) →
  let n := Z.max 0 (fexp prec emax (Zdigits2 m + e) - e) in
  located A (B * 2 ^ n) (shr_fexp prec emax m e l).1
  ∧ (shr_fexp prec emax m e l).2 = e + n.
Proof.
  intros Hloc. cbv zeta. unfold shr_fexp, shr.
  destruct (fexp prec emax (Zdigits2 m + e) - e) as [|p|p] eqn:Hn.
  - cbn [fst snd]. change (Z.max 0 0) with 0. rewrite Z.mul_1_r, Z.add_0_r. done.
  - cbn [fst snd]. rewrite Z.max_r by lia. split; [|done].
    rewrite iter_pos_nat. rewrite <- (positive_nat_Z p).
    by apply shr_iter_located.
  - cbn [fst snd]. rewrite Z.max_l by lia. rewrite Z.mul_1_r, Z.add_0_r. done.
Qed.

Lemma fexp_normal (e : Z) : -1021 <= e → fexp prec emax e = e - 53.
Proof. intros H. unfold fexp, emin, prec, emax. lia. Qed.

Lemma located_div A B m l :
  located A B (shr_record_of_loc m l) → m = A / B ∧ 0 < B ∧ 0 <= A.
Proof.
  intros (HB & HA & Hm & _). split; [|done].
  rewrite <- Hm. by destruct l as [|[]].
Qed.

(** Rounding to nearest of [A / B * 2 ^ e0], in the range of normal
    doubles: the result is finite and within a relative [2 ^ -53]. *)
Lemma binary_round_aux_correct A B m0 e0 l :
  0 < m0 → located A B (shr_record_of_loc m0 l) →
  -1021 <= Zdigits2 m0 + e0 <= 1000 → e0 <= 900 →
  (A mod B = 0 ∨ 53 <= Zdigits2 m0) →
  ∃ m e, binary_round_aux prec emax false m0 e0 l = S754_finite false m e
         ∧ e0 <= e
         ∧ 2 ^ 53 * Z.abs (Z.pos m * 2 ^ (e - e0) * B - A) <= A
         ∧ (53 <= Zdigits2 m0 →
            Zdigits2 (Z.pos m) = 53
            ∧ e0 + Zdigits2 m0 - 53 <= e <= e0 + Zdigits2 m0 - 52)
         ∧ (A mod B = 0 → Zdigits2 m0 <= 53 →
            Z.pos m * B = A ∧ e = e0).
Proof.
  intros Hm0 Hloc Hrange He0 Hex.
  destruct (located_div _ _ _ _ Hloc) as (Hq & HB & HA).
  destruct (Zdigits2_bounds m0 Hm0) as [[Hlo Hhi] Hdpos].
  set (d := Zdigits2 m0) in *.
  pose proof (shr_fexp_located A B m0 e0 l Hloc) as Hshr. cbv zeta in Hshr.
  rewrite fexp_normal in Hshr by lia. fold d in Hshr.
  set (n := Z.max 0 (d + e0 - 53 - e0)) in *.
  assert (Hn : n = Z.max 0 (d - 53)) by lia.
  assert (Hn0 : 0 <= n) by lia.
  unfold binary_round_aux.
  destruct (shr_fexp prec emax m0 e0 l) as [mrs' e'] eqn:Hs1.
  cbn [fst snd] in Hshr. destruct Hshr as [Hloc1 He'].
  pose proof (round_nearest_even_located _ _ _ Hloc1) as Hrne. cbv zeta in Hrne.
  set (m2 := round_nearest_even (shr_m mrs') (loc_of_shr_record mrs')) in *.
  destruct Hrne as (Hnear & Hbr & Hexact).
  assert (Hpow : 0 < 2 ^ n) by (apply Z.pow_pos_nonneg; lia).
  assert (Hm1 : A / (B * 2 ^ n) = m0 / 2 ^ n).
  { rewrite Hq. by rewrite Z.div_div by lia. }
  rewrite Hm1 in Hbr.
  (* bounds on the shifted mantissa *)
  assert (Hm1b : 0 <= m0 / 2 ^ n < 2 ^ 53 ∧ (53 <= d → 2 ^ 52 <= m0 / 2 ^ n)
                 ∧ (d < 53 → m0 / 2 ^ n = m0)).
  { destruct (Z.le_gt_cases 53 d) as [Hd|Hd].
    - assert (n = d - 53) as Hnd by lia.
      assert (Hsplit : 2 ^ d = 2 ^ 53 * 2 ^ n).
      { rewrite <- Z.pow_add_r by lia. f_equal. lia. }
      assert (Hsplit' : 2 ^ (d - 1) = 2 ^ 52 * 2 ^ n).
      { rewrite <- Z.pow_add_r by lia. f_equal. lia. }
      split; [split|split].
      + apply Z.div_pos; lia.
      + apply Z.div_lt_upper_bound; lia.
      + intros _. apply Z.div_le_lower_bound; lia.
      + lia.
    - assert (n = 0) as -> by lia. rewrite Z.pow_0_r, Z.div_1_r.
      assert (2 ^ d <= 2 ^ 53) by (apply Z.pow_le_mono_r; lia).
      split; [lia|]. split; [lia|done]. }
  destruct Hm1b as (Hm1r & Hm1lo & Hm1eq).
  assert (Hm2pos : 0 < m2).
  { destruct (Z.le_gt_cases 53 d) as [Hd|Hd].
    - specialize (Hm1lo Hd). lia.
    - rewrite (Hm1eq Hd) in Hbr. lia. }
  assert (Hm2le : m2 <= 2 ^ 53) by lia.
  (* the relative error of the rounded mantissa *)
  assert (Hrel : 2 ^ 53 * Z.abs (m2 * 2 ^ n * B - A) <= A).
  { destruct (Z.le_gt_cases 53 d) as [Hd|Hd].
    - specialize (Hm1lo Hd).
      assert (HAlo : 2 ^ 52 * (B * 2 ^ n) <= A).
      { pose proof (Z.mul_div_le A (B * 2 ^ n) ltac:(lia)).
        rewrite Hm1 in H. nia. }
      replace (m2 * 2 ^ n * B) with (m2 * (B * 2 ^ n)) by lia.
      change (2 ^ 53) with (2 * 2 ^ 52). nia.
    - destruct Hex as [Hex|Hex]; [|lia].
      assert (n = 0) as Hn' by lia. rewrite Hn' in *.
      rewrite Z.pow_0_r, Z.mul_1_r in *.
      rewrite (Hexact Hex).
      pose proof (Z.div_mod A B ltac:(lia)) as Hdm.
      replace (A / B * B - A) with 0 by lia. simpl. lia. }
  (* the second normalisation *)
  pose proof (shr_fexp_located m2 1 m2 e' loc_Exact
                (located_of_loc_exact m2 ltac:(lia))) as Hshr2.
  cbv zeta in Hshr2.
  destruct (shr_fexp prec emax m2 e' loc_Exact) as [mrs'' e''] eqn:Hs2.
  cbn [fst snd] in Hshr2.
  assert (Hd2 : Zdigits2 m2 + e' >= -1021).
  { destruct (Z.le_gt_cases 53 d) as [Hd|Hd].
    - specialize (Hm1lo Hd).
      assert (53 <= Zdigits2 m2) by (apply Zdigits2_ge; [lia|]; simpl; lia).
      lia.
    - assert (d <= Zdigits2 m2).
      { apply Zdigits2_ge; [lia|]. rewrite (Hm1eq Hd) in Hbr. lia. }
      lia. }
  rewrite fexp_normal in Hshr2 by lia.
  destruct (Z.eq_dec m2 (2 ^ 53)) as [Htop|Hntop].
  - (* the mantissa overflowed to 2^53 *)
    assert (Zdigits2 m2 = 54) as Hd54 by (rewrite Htop; reflexivity).
    rewrite Hd54 in Hshr2.
    replace (Z.max 0 (54 + e' - 53 - e')) with 1 in Hshr2 by lia.
    destruct Hshr2 as [(_ & _ & Hm'' & _) He''].
    rewrite Htop in Hm''. change (2 ^ 53 / (1 * 2 ^ 1)) with (2 ^ 52) in Hm''.
    rewrite Hm''. change (2 ^ 52) with (Z.pos (2 ^ 52)%positive) at 1. cbv iota.
    assert ((e'' <=? emax - prec) = true) as ->.
    { apply Z.leb_le. unfold emax, prec. lia. }
    assert (Hdtop : 53 <= d).
    { destruct (Z.le_gt_cases 53 d) as [Hd|Hd]; [done|].
      rewrite (Hm1eq Hd) in Hbr.
      assert (2 ^ d <= 2 ^ 52) by (apply Z.pow_le_mono_r; lia).
      change (2 ^ 53) with (2 * 2 ^ 52) in Htop. lia. }
    eexists _, _. split; [reflexivity|]. split; [lia|]. split; [|split].
    + replace (e'' - e0) with (n + 1) by lia.
      rewrite Z.pow_add_r by lia.
      replace (Z.pos (2 ^ 52) * (2 ^ n * 2 ^ 1)) with (m2 * 2 ^ n);
        [exact Hrel|].
      rewrite Htop. change (Z.pos (2 ^ 52)) with (2 ^ 52).
      change (2 ^ 53) with (2 ^ 52 * 2). change (2 ^ 1) with 2. lia.
    + intros _. split; [reflexivity|lia].
    + intros Hx Hd. exfalso.
      assert (d = 53) as Hd' by lia.
      assert (n = 0) as Hn' by lia. rewrite Hn' in *.
      rewrite Z.pow_0_r, Z.mul_1_r, Z.div_1_r in *.
      specialize (Hexact Hx). rewrite <- Hq in Hexact.
      assert (2 ^ d = 2 ^ 53) by (by rewrite Hd'). lia.
  - assert (Zdigits2 m2 <= 53) as Hd53 by (apply Zdigits2_le; lia).
    replace (Z.max 0 (Zdigits2 m2 + e' - 53 - e')) with 0 in Hshr2 by lia.
    destruct Hshr2 as [(_ & _ & Hm'' & _) He''].
    rewrite Z.pow_0_r, Z.mul_1_r, Z.div_1_r in Hm''.
    rewrite Hm''. destruct m2 as [|p2|p2] eqn:Hm2; try lia.
    assert ((e'' <=? emax - prec) = true) as ->.
    { apply Z.leb_le. unfold emax, prec. lia. }
    eexists _, _. split; [reflexivity|]. split; [lia|]. split; [|split].
    + replace (e'' - e0) with n by lia. exact Hrel.
    + intros Hd. specialize (Hm1lo Hd). split; [|lia].
      apply Z.le_antisymm; [apply Zdigits2_le; lia|].
      apply Zdigits2_ge; [lia|]. change (2 ^ (53 - 1)) with (2 ^ 52). lia.
    + intros Hx Hd.
      destruct (Z.eq_dec d 53) as [Hd'|Hd'].
      * assert (n = 0) as Hn' by lia. rewrite Hn' in *.
        rewrite Z.pow_0_r, Z.mul_1_r in *.
        specialize (Hexact Hx). split; [|lia].
        pose proof (Z.div_mod A B ltac:(lia)) as Hdm. rewrite Hexact. lia.
      * assert (n = 0) as Hn' by lia. rewrite Hn' in *.
        rewrite Z.pow_0_r, Z.mul_1_r in *.
        specialize (Hexact Hx). split; [|lia].
        pose proof (Z.div_mod A B ltac:(lia)) as Hdm. rewrite Hexact. lia.
Qed.

Lemma digits53_bounds (m : positive) :
  Zdigits2 (Z.pos m) = 53 → 2 ^ 52 <= Z.pos m < 2 ^ 53.
Proof.
  intros Hd. destruct (Zdigits2_bounds (Z.pos m) ltac:(lia)) as [H _].
  by rewrite Hd in H.
Qed.

Lemma SFmul_correct mx ex my ey :
  Zdigits2 (Z.pos mx) = 53 → Zdigits2 (Z.pos my) = 53 →
  -400 <= ex <= 400 → -400 <= ey <= 400 →
  ∃ m e, SFmul prec emax (S754_finite false mx ex) (S754_finite false my ey)
         = S754_finite false m e
         ∧ Zdigits2 (Z.pos m) = 53
         ∧ ex + ey + 52 <= e <= ex + ey + 54
         ∧ 2 ^ 53 * Z.abs (Z.pos m * 2 ^ (e - (ex + ey)) - Z.pos mx * Z.pos my)
           <= Z.pos mx * Z.pos my.
Proof.
  intros Hdx Hdy Hex Hey.
  pose proof (digits53_bounds mx Hdx) as Hx.
  pose proof (digits53_bounds my Hdy) as Hy.
  cbn [SFmul xorb].
  assert (Hd : 105 <= Zdigits2 (Z.pos (mx * my)) <= 106).
  { rewrite Pos2Z.inj_mul. split.
    - apply Zdigits2_ge; [lia|]. change (2 ^ (105 - 1)) with (2 ^ 52 * 2 ^ 52). nia.
    - apply Zdigits2_le; [lia|]. change (2 ^ 106) with (2 ^ 53 * 2 ^ 53). nia. }
  destruct (binary_round_aux_correct (Z.pos (mx * my)) 1 (Z.pos (mx * my))
              (ex + ey) loc_Exact) as (m & e & Heq & He & Hrel & Hnorm & _).
  - lia.
  - apply located_of_loc_exact. lia.
  - lia.
  - lia.
  - right. lia.
  - exists m, e. split; [exact Heq|].
    destruct (Hnorm ltac:(lia)) as [Hdm Hrange].
    split; [done|]. split; [lia|].
    rewrite Z.mul_1_r, Pos2Z.inj_mul in Hrel. exact Hrel.
Qed.

Lemma new_location_located (A B : Z) :
  0 < B → 0 <= A →
  located A B (shr_record_of_loc (A / B) (new_location B (A mod B))).
Proof.
  intros HB HA. pose proof (Z.mod_pos_bound A B HB) as Hr.
  unfold located. split; [done|]. split; [done|].
  unfold new_location, new_location_even, new_location_odd.
  destruct (Z.even B) eqn:Heven.
  - destruct (Z.eqb_spec (A mod B) 0) as [H0|H0].
    + cbn. by rewrite H0.
    + destruct (Z.compare_spec (2 * (A mod B)) B); cbn; (split; [done|lia]).
  - destruct (Z.eqb_spec (A mod B) 0) as [H0|H0].
    + cbn. by rewrite H0.
    + assert (Hodd : B ≠ 2 * (A mod B)).
      { intros Heq. rewrite Heq, Z.even_mul in Heven. discriminate. }
      destruct (Z.compare_spec (2 * (A mod B) + 1) B); cbn; (split; [done|lia]).
Qed.

Lemma SFdiv_correct mx ex my ey :
  Zdigits2 (Z.pos mx) = 53 → Zdigits2 (Z.pos my) = 53 →
  -400 <= ex <= 400 → -400 <= ey <= 400 →
  ∃ m e, SFdiv prec emax (S754_finite false mx ex) (S754_finite false my ey)
         = S754_finite false m e
         ∧ Zdigits2 (Z.pos m) = 53
         ∧ ex - ey - 53 <= e <= ex - ey - 51
         ∧ 2 ^ 53 * Z.abs (Z.pos m * 2 ^ (e - (ex - ey - 53)) * Z.pos my
                           - Z.pos mx * 2 ^ 53)
           <= Z.pos mx * 2 ^ 53.
Proof.
  intros Hdx Hdy Hex Hey.
  pose proof (digits53_bounds mx Hdx) as Hx.
  pose proof (digits53_bounds my Hdy) as Hy.
  cbn [SFdiv xorb]. unfold SFdiv_core_binary.
  rewrite Hdx, Hdy.
  replace (53 + ex - (53 + ey)) with (ex - ey) by lia.
  rewrite fexp_normal by lia.
  rewrite Z.min_l by lia.
  replace (ex - ey - (ex - ey - 53)) with 53 by lia. cbv zeta iota.
  rewrite Z.shiftl_mul_pow2 by lia.
  set (A := Z.pos mx * 2 ^ 53). set (B := Z.pos my).
  assert (Hde : Z.div_eucl A B = (A / B, A mod B)).
  { unfold Z.div, Z.modulo. by destruct (Z.div_eucl A B). }
  rewrite Hde.
  assert (HA : 0 <= A) by (unfold A; lia).
  assert (Hq : 2 ^ 52 <= A / B < 2 ^ 54).
  { split.
    - apply Z.div_le_lower_bound; [lia|]. unfold A, B.
      change (2 ^ 53) with (2 * 2 ^ 52) at 1. nia.
    - apply Z.div_lt_upper_bound; [lia|]. unfold A, B.
      change (2 ^ 54) with (2 * 2 ^ 53). nia. }
  assert (Hdq : 53 <= Zdigits2 (A / B) <= 54).
  { split; [apply Zdigits2_ge|apply Zdigits2_le]; lia. }
  destruct (binary_round_aux_correct A B (A / B) (ex - ey - 53)
              (new_location B (A mod B)))
    as (m & e & Heq & He & Hrel & Hnorm & _).
  - lia.
  - apply new_location_located; unfold B; lia.
  - lia.
  - lia.
  - right. lia.
  - exists m, e. split; [exact Heq|].
    destruct (Hnorm ltac:(lia)) as [Hdm Hrange].
    split; [done|]. split; [lia|]. exact Hrel.
Qed.

Lemma shl_align_value mx ex ex' :
  let '(mz, ez) := shl_align mx ex ex' in
  ez = Z.min ex ex' ∧ Z.pos mz = Z.pos mx * 2 ^ (ex - ez).
Proof.
  unfold shl_align.
  destruct (ex' - ex) as [|d|d] eqn:Hd.
  - split; [lia|]. rewrite Z.sub_diag. simpl. lia.
  - split; [lia|]. rewrite Z.sub_diag. simpl. lia.
  - split; [lia|].
    replace (ex - ex') with (Z.pos d) by lia.
    change (Pos.iter xO mx d) with (shift_pos d mx).
    rewrite shift_pos_correct. rewrite Z.pow_pos_fold. lia.
Qed.

Lemma SFadd_correct mx ex my ey :
  Zdigits2 (Z.pos mx) = 53 → Zdigits2 (Z.pos my) = 53 →
  -400 <= ex <= 400 → -400 <= ey <= 400 →
  let ez := Z.min ex ey in
  let S := Z.pos mx * 2 ^ (ex - ez) + Z.pos my * 2 ^ (ey - ez) in
  ∃ m e, SFadd prec emax (S754_finite false mx ex) (S754_finite false my ey)
         = S754_finite false m e
         ∧ Zdigits2 (Z.pos m) = 53
         ∧ Z.max ex ey <= e <= Z.max ex ey + 2
         ∧ 2 ^ 53 * Z.abs (Z.pos m * 2 ^ (e - ez) - S) <= S.
Proof.
  intros Hdx Hdy Hex Hey ez S.
  pose proof (digits53_bounds mx Hdx) as Hx.
  pose proof (digits53_bounds my Hdy) as Hy.
  cbn [SFadd]. fold ez.
  pose proof (shl_align_value mx ex ez) as Hax.
  pose proof (shl_align_value my ey ez) as Hay.
  destruct (shl_align mx ex ez) as [ax ex1].
  destruct (shl_align my ey ez) as [ay ey1].
  destruct Hax as [Hex1 Hax]. destruct Hay as [Hey1 Hay].
  cbn [fst cond_Zopp]. change (Z.pos ax + Z.pos ay) with (Z.pos (ax + ay)).
  cbn [binary_normalize]. unfold binary_round.
  assert (HS : Z.pos (ax + ay) = S).
  { rewrite Pos2Z.inj_add, Hax, Hay. unfold S. repeat f_equal; lia. }
  assert (Hpx : 0 < 2 ^ (ex - ez)) by (apply Z.pow_pos_nonneg; lia).
  assert (Hpy : 0 < 2 ^ (ey - ez)) by (apply Z.pow_pos_nonneg; lia).
  set (D := Z.max ex ey - ez).
  assert (HD : 0 <= D) by lia.
  assert (HpD : 0 < 2 ^ D) by (apply Z.pow_pos_nonneg; lia).
  assert (Hone : 1 <= 2 ^ D) by lia.
  assert (HSlo : 2 ^ 52 * 2 ^ D <= S ∧ S < 2 ^ 54 * 2 ^ D).
  { unfold S. destruct (Z.le_gt_cases ex ey) as [Hle|Hgt].
    - assert (ex - ez = 0) as -> by lia. assert (ey - ez = D) as -> by lia.
      rewrite Z.pow_0_r. change (2 ^ 54) with (2 * 2 ^ 53). nia.
    - assert (ey - ez = 0) as -> by lia. assert (ex - ez = D) as -> by lia.
      rewrite Z.pow_0_r. change (2 ^ 54) with (2 * 2 ^ 53). nia. }
  assert (HdS : 53 + D <= Zdigits2 S <= 54 + D).
  { split.
    - apply Zdigits2_ge; [lia|].
      replace (53 + D - 1) with (52 + D) by lia. rewrite Z.pow_add_r by lia. lia.
    - apply Zdigits2_le; [lia|]. rewrite Z.pow_add_r by lia. lia. }
  change (Z.pos (digits2_pos (ax + ay))) with (Zdigits2 (Z.pos (ax + ay))).
  rewrite HS.
  pose proof (shl_align_value (ax + ay) ez (fexp prec emax (Zdigits2 S + ez))) as Hal.
  destruct (shl_align (ax + ay) ez (fexp prec emax (Zdigits2 S + ez))) as [mz ez'].
  rewrite fexp_normal in Hal by lia.
  destruct Hal as [Hez' Hmz].
  rewrite Z.min_l in Hez' by lia. subst ez'.
  rewrite Z.sub_diag, Z.pow_0_r, Z.mul_1_r, HS in Hmz.
  destruct (binary_round_aux_correct S 1 (Z.pos mz) ez loc_Exact)
    as (m & e & Heq & He & Hrel & Hnorm & _).
  - lia.
  - rewrite Hmz. apply located_of_loc_exact. lia.
  - rewrite Hmz. lia.
  - lia.
  - right. rewrite Hmz. lia.
  - exists m, e. split; [exact Heq|].
    rewrite Hmz in Hnorm.
    destruct (Hnorm ltac:(lia)) as [Hdm Hrange].
    split; [done|]. split; [lia|].
    rewrite Z.mul_1_r in Hrel. exact Hrel.
Qed.

(** An integer below [2 ^ 53] converts without rounding. *)
Lemma numberOfZ_exact (z : Z) :
  0 < z < 2 ^ 53 →
  ∃ m e, binary_normalize prec emax z 0 false = S754_finite false m e
         ∧ Zdigits2 (Z.pos m) = 53 ∧ -52 <= e <= 0
         ∧ Z.pos m = z * 2 ^ (- e).
Proof.
  intros Hz. destruct z as [|p|p]; try lia.
  cbn [binary_normalize]. unfold binary_round.
  change (Z.pos (digits2_pos p)) with (Zdigits2 (Z.pos p)).
  destruct (Zdigits2_bounds (Z.pos p) ltac:(lia)) as [[Hlo Hhi] Hdpos].
  assert (Hd : Zdigits2 (Z.pos p) <= 53) by (apply Zdigits2_le; lia).
  set (d := Zdigits2 (Z.pos p)) in *.
  rewrite Z.add_0_r, fexp_normal by lia.
  pose proof (shl_align_value p 0 (d - 53)) as Hal.
  destruct (shl_align p 0 (d - 53)) as [mz ez].
  destruct Hal as [Hez Hmz]. rewrite Z.min_r in Hez by lia. subst ez.
  replace (0 - (d - 53)) with (53 - d) in Hmz by lia.
  assert (Hsplit : 2 ^ 53 = 2 ^ d * 2 ^ (53 - d)).
  { rewrite <- Z.pow_add_r by lia. f_equal. lia. }
  assert (Hsplit' : 2 ^ 52 = 2 ^ (d - 1) * 2 ^ (53 - d)).
  { rewrite <- Z.pow_add_r by lia. f_equal. lia. }
  assert (Hp : 0 < 2 ^ (53 - d)) by (apply Z.pow_pos_nonneg; lia).
  assert (Hdz : Zdigits2 (Z.pos mz) = 53).
  { apply Z.le_antisymm; [apply Zdigits2_le|apply Zdigits2_ge]; try lia.
    - rewrite Hmz, Hsplit. nia.
    - rewrite Hmz. change (53 - 1) with 52. rewrite Hsplit'. nia. }
  destruct (binary_round_aux_correct (Z.pos mz) 1 (Z.pos mz) (d - 53) loc_Exact)
    as (m & e & Heq & He & Hrel & Hnorm & Hexact).
  - lia.
  - apply located_of_loc_exact. lia.
  - lia.
  - lia.
  - left. apply Z.mod_1_r.
  - exists m, e. split; [exact Heq|].
    destruct (Hnorm ltac:(lia)) as [Hdm _].
    destruct (Hexact (Z.mod_1_r _) ltac:(lia)) as [Hval ->].
    split; [done|]. split; [lia|].
    rewrite Z.mul_1_r in Hval. rewrite Hval, Hmz. f_equal. f_equal. lia.
Qed.

Lemma pow2_pos (e : Z) : (0 < 2 ^ e)%Q.
Proof. apply Qpower_0_lt. reflexivity. Qed.

Lemma pow2_add (a b : Z) : (2 ^ (a + b) == 2 ^ a * 2 ^ b)%Q.
Proof. apply Qpower_plus. discriminate. Qed.

Lemma pow2_Z (n : Z) : 0 <= n → (inject_Z (2 ^ n) == 2 ^ n)%Q.
Proof. intros Hn. by rewrite Zpower_Qpower. Qed.

Lemma value_shift (m e e0 : Z) :
  e0 <= e → (inject_Z m * 2 ^ e == inject_Z (m * 2 ^ (e - e0)) * 2 ^ e0)%Q.
Proof.
  intros He. replace e with ((e - e0) + e0) at 1 by lia.
  rewrite pow2_add, inject_Z_mult, pow2_Z by lia. ring.
Qed.

Lemma near_of_Z (K A B : Z) (P : Q) :
  0 < B → (0 < P)%Q →
  2 ^ 53 * Z.abs (K * B - A) <= A →
  near (inject_Z K * P) (inject_Z A / inject_Z B * P).
Proof.
  intros HB HP Hrel.
  assert (Hb : (0 < inject_Z B)%Q).
  { change 0%Q with (inject_Z 0). rewrite <- Zlt_Qlt. lia. }
  assert (H1 : 9007199254740992 * (K * B) <= 9007199254740993 * A) by lia.
  assert (H2 : 9007199254740991 * A <= 9007199254740992 * (K * B)) by lia.
  rewrite Zle_Qle in H1, H2. rewrite !inject_Z_mult in H1, H2.
  change (inject_Z 9007199254740992) with (9007199254740992 # 1)%Q in H1, H2.
  change (inject_Z 9007199254740993) with (9007199254740993 # 1)%Q in H1.
  change (inject_Z 9007199254740991) with (9007199254740991 # 1)%Q in H2.
  set (k := inject_Z K) in *. set (a := inject_Z A) in *. set (b := inject_Z B) in *.
  assert (Hab : (a / b * b == a)%Q) by (field; lra).
  unfold near, ulp53.
  set (q := (a / b)%Q) in *.
  assert (Hlo : (q * (1 - (1 # 9007199254740992)) <= k)%Q).
  { apply Qmult_le_r with b; [done|]. lra. }
  assert (Hhi : (k <= q * (1 + (1 # 9007199254740992)))%Q).
  { apply Qmult_le_r with b; [done|]. lra. }
  assert (HP' : (0 <= P)%Q) by lra.
  split.
  - apply Qle_trans with (q * (1 - (1 # 9007199254740992)) * P)%Q; [lra|].
    by apply Qmult_le_compat_r.
  - apply Qle_trans with (q * (1 + (1 # 9007199254740992)) * P)%Q; [|lra].
    by apply Qmult_le_compat_r.
Qed.

Lemma near_proper (V V' X X' : Q) :
  (V == V')%Q → (X == X')%Q → near V X → near V' X'.
Proof. unfold near. intros -> ->. done. Qed.

Lemma near_zero : near 0 0.
Proof. unfold near, ulp53. lra. Qed.

Lemma near_exact (X : Q) : (0 <= X)%Q → near X X.
Proof. unfold near, ulp53. intros H. lra. Qed.

Lemma valueOf_normal L x : normalIn L x → (0 < valueOf x)%Q.
Proof.
  intros (m & e & -> & _ & _). cbn [valueOf cond_Zopp].
  apply Qmult_lt_0_compat; [|apply pow2_pos].
  change 0%Q with (inject_Z 0). rewrite <- Zlt_Qlt. lia.
Qed.

Lemma valueOf_okNum L x : okNum L x → (0 <= valueOf x)%Q.
Proof.
  intros [->|H]; [cbn; lra|]. apply Qlt_le_weak. by eapply valueOf_normal.
Qed.

Lemma okNum_weaken L L' x : L <= L' → okNum L x → okNum L' x.
Proof.
  intros HL [->|(m & e & -> & Hd & He)]; [by left|].
  right. exists m, e. split; [done|]. split; [done|lia].
Qed.

Lemma mul_near Lx Ly x y :
  Lx <= 400 → Ly <= 400 → okNum Lx x → okNum Ly y →
  okNum (Lx + Ly + 54) (SFmul prec emax x y)
  ∧ near (valueOf (SFmul prec emax x y)) (valueOf x * valueOf y).
Proof.
  intros HLx HLy [->|(mx & ex & -> & Hdx & Hex)] [->|(my & ey & -> & Hdy & Hey)].
  - split; [by left|]. cbn. apply (near_proper 0 _ 0); [reflexivity|ring|apply near_zero].
  - split; [by left|]. cbn [SFmul xorb valueOf].
    apply (near_proper 0 _ 0); [reflexivity|ring|apply near_zero].
  - split; [by left|]. cbn [SFmul xorb valueOf].
    apply (near_proper 0 _ 0); [reflexivity|ring|apply near_zero].
  - destruct (SFmul_correct mx ex my ey Hdx Hdy ltac:(lia) ltac:(lia))
      as (m & e & -> & Hdm & He & Hrel).
    split; [right; exists m, e; split; [done|]; split; [done|lia]|].
    cbn [valueOf cond_Zopp].
    pose proof (near_of_Z (Z.pos m * 2 ^ (e - (ex + ey))) (Z.pos mx * Z.pos my) 1
                  (2 ^ (ex + ey))%Q ltac:(lia) (pow2_pos _)) as Hn.
    rewrite Z.mul_1_r in Hn. specialize (Hn Hrel).
    eapply near_proper; [| |exact Hn].
    + symmetry. apply value_shift. lia.
    + rewrite inject_Z_mult, pow2_add. change (inject_Z 1) with 1%Q. field.
Qed.

Lemma pow2_sub (a b : Z) : (2 ^ (a - b) == 2 ^ a / 2 ^ b)%Q.
Proof.
  unfold Z.sub. rewrite pow2_add, Qpower_opp. reflexivity.
Qed.

Lemma div_near Lx Ly x y :
  Lx <= 400 → Ly <= 400 → okNum Lx x → normalIn Ly y →
  okNum (Lx + Ly + 53) (SFdiv prec emax x y)
  ∧ near (valueOf (SFdiv prec emax x y)) (valueOf x / valueOf y).
Proof.
  intros HLx HLy [->|(mx & ex & -> & Hdx & Hex)] (my & ey & -> & Hdy & Hey).
  - split; [by left|]. cbn [SFdiv xorb valueOf].
    apply (near_proper 0 _ 0); [reflexivity| |apply near_zero].
    unfold Qdiv. ring.
  - destruct (SFdiv_correct mx ex my ey Hdx Hdy ltac:(lia) ltac:(lia))
      as (m & e & -> & Hdm & He & Hrel).
    split; [right; exists m, e; split; [done|]; split; [done|lia]|].
    cbn [valueOf cond_Zopp].
    pose proof (near_of_Z (Z.pos m * 2 ^ (e - (ex - ey - 53))) (Z.pos mx * 2 ^ 53)
                  (Z.pos my) (2 ^ (ex - ey - 53))%Q ltac:(lia) (pow2_pos _) Hrel) as Hn.
    eapply near_proper; [| |exact Hn].
    + symmetry. apply value_shift. lia.
    + rewrite inject_Z_mult. rewrite !pow2_sub.
      change (inject_Z (2 ^ 53)) with (2 ^ 53)%Q.
      pose proof (pow2_pos ex). pose proof (pow2_pos ey).
      assert (0 < inject_Z (Z.pos my))%Q.
      { change 0%Q with (inject_Z 0). rewrite <- Zlt_Qlt. lia. }
      assert (Hc : (0 < 2 ^ 53)%Q) by reflexivity.
      field. repeat split; lra.
Qed.

Lemma add_near Lx Ly x y :
  Lx <= 400 → Ly <= 400 → okNum Lx x → okNum Ly y →
  okNum (Z.max Lx Ly + 2) (SFadd prec emax x y)
  ∧ near (valueOf (SFadd prec emax x y)) (valueOf x + valueOf y).
Proof.
  intros HLx HLy Hx Hy.
  pose proof (valueOf_okNum _ _ Hx) as Hvx.
  pose proof (valueOf_okNum _ _ Hy) as Hvy.
  destruct Hx as [->|(mx & ex & -> & Hdx & Hex)];
    destruct Hy as [->|(my & ey & -> & Hdy & Hey)].
  - split; [by left|]. cbn. apply (near_proper 0 _ 0); [reflexivity|ring|apply near_zero].
  - split; [right; exists my, ey; split; [done|]; split; [done|lia]|].
    cbn [SFadd]. eapply near_proper; [reflexivity| |apply near_exact, Hvy].
    cbn [valueOf]. ring.
  - split; [right; exists mx, ex; split; [done|]; split; [done|lia]|].
    cbn [SFadd]. eapply near_proper; [reflexivity| |apply near_exact, Hvx].
    cbn [valueOf]. ring.
  - pose proof (SFadd_correct mx ex my ey Hdx Hdy ltac:(lia) ltac:(lia)) as Hadd.
    cbv zeta in Hadd. destruct Hadd as (m & e & -> & Hdm & He & Hrel).
    split; [right; exists m, e; split; [done|]; split; [done|lia]|].
    cbn [valueOf cond_Zopp].
    set (ez := Z.min ex ey) in *.
    pose proof (near_of_Z (Z.pos m * 2 ^ (e - ez))
                  (Z.pos mx * 2 ^ (ex - ez) + Z.pos my * 2 ^ (ey - ez)) 1
                  (2 ^ ez)%Q ltac:(lia) (pow2_pos _)) as Hn.
    rewrite Z.mul_1_r in Hn. specialize (Hn Hrel).
    eapply near_proper; [| |exact Hn].
    + symmetry. apply value_shift. lia.
    + rewrite inject_Z_plus.
      rewrite (value_shift (Z.pos mx) ex ez) by lia.
      rewrite (value_shift (Z.pos my) ey ez) by lia.
      change (inject_Z 1) with 1%Q. field.
Qed.

Lemma numberOfZ_value (z : Z) :
  0 <= z < 2 ^ 53 →
  okNum 52 (binary_normalize prec emax z 0 false)
  ∧ (valueOf (binary_normalize prec emax z 0 false) == inject_Z z)%Q
  ∧ (0 < z → normalIn 52 (binary_normalize prec emax z 0 false)).
Proof.
  intros Hz. destruct (Z.eq_dec z 0) as [->|Hnz].
  - split; [by left|]. split; [reflexivity|lia].
  - destruct (numberOfZ_exact z ltac:(lia)) as (m & e & -> & Hd & He & Hval).
    assert (Hn : normalIn 52 (S754_finite false m e)).
    { exists m, e. split; [done|]. split; [done|lia]. }
    split; [by right|]. split; [|done].
    cbn [valueOf cond_Zopp]. rewrite Hval, inject_Z_mult, pow2_Z by lia.
    rewrite Qpower_opp. pose proof (pow2_pos e). field. lra.
Qed.

Lemma ratio_bounds (c t : nat) : (0 < t)%nat → (c ≤ t)%nat → (0 <= ratio c t <= 1)%Q.
Proof.
  intros Ht Hc. unfold ratio.
  assert (0 < inject_Z (Z.of_nat t))%Q.
  { change 0%Q with (inject_Z 0). rewrite <- Zlt_Qlt. lia. }
  split.
  - apply Qle_shift_div_l; [done|]. rewrite Qmult_0_l.
    change 0%Q with (inject_Z 0). rewrite <- Zle_Qle. lia.
  - apply Qle_shift_div_r; [done|]. rewrite Qmult_1_l. rewrite <- Zle_Qle. lia.
Qed.

Lemma okNum_numberOfNat (n : nat) :
  Z.of_nat n < 2 ^ 53 →
  okNum 52 (numberOfNat n)
  ∧ (valueOf (numberOfNat n) == inject_Z (Z.of_nat n))%Q
  ∧ ((0 < n)%nat → normalIn 52 (numberOfNat n)).
Proof.
  intros Hn. destruct (numberOfZ_value (Z.of_nat n) ltac:(lia)) as (H1 & H2 & H3).
  split; [done|]. split; [done|]. intros Hpos. apply H3. lia.
Qed.

Lemma okNum_hundred : okNum 52 (numberOfZ 100) ∧ (valueOf (numberOfZ 100) == 100)%Q.
Proof.
  destruct (numberOfZ_value 100 ltac:(lia)) as (H1 & H2 & _). done.
Qed.

(** [(c / t) * 100] in doubles is within [2 ^ -44] of the exact
    percentage. *)
Lemma completionRate_near (c t : nat) :
  (0 < t)%nat → (c ≤ t)%nat → Z.of_nat t < 2 ^ 53 →
  okNum 263 (completionRate c t)
  ∧ (100 * ratio c t - (1 # 17592186044416) <= valueOf (completionRate c t)
     <= 100 * ratio c t + (1 # 17592186044416))%Q.
Proof.
  intros Ht Hc Hbound.
  destruct (okNum_numberOfNat c ltac:(lia)) as (Hokc & Hvc & _).
  destruct (okNum_numberOfNat t Hbound) as (_ & Hvt & Hnt).
  specialize (Hnt Ht).
  destruct okNum_hundred as [Hok100 Hv100].
  destruct (div_near 52 52 _ _ ltac:(lia) ltac:(lia) Hokc Hnt) as [Hokd Hnd].
  destruct (mul_near (52 + 52 + 53) 52 _ _ ltac:(lia) ltac:(lia) Hokd Hok100)
    as [Hokm Hnm].
  split; [exact Hokm|].
  pose proof (ratio_bounds c t Ht Hc) as Hr.
  unfold completionRate, fmul, fdiv.
  set (R1 := valueOf (SFdiv prec emax (numberOfNat c) (numberOfNat t))) in *.
  set (R2 := valueOf (SFmul prec emax _ _)) in *.
  unfold near, ulp53 in Hnd, Hnm.
  rewrite Hvc, Hvt in Hnd. fold (ratio c t) in Hnd.
  rewrite Hv100 in Hnm.
  set (r := ratio c t) in *.
  destruct Hnd as [Hd1 Hd2]. destruct Hnm as [Hm1 Hm2].
  assert (HR1 : (0 <= R1)%Q) by lra.
  split.
  - apply Qle_trans with (R1 * 100 * (1 - (1 # 9007199254740992)))%Q; [|done]. lra.
  - apply Qle_trans with (R1 * 100 * (1 + (1 # 9007199254740992)))%Q; [done|]. lra.
Qed.

Lemma Qfloor_unique (x : Q) (k : Z) :
  (inject_Z k <= x)%Q → (x < inject_Z k + 1)%Q → Qfloor x = k.
Proof.
  intros Hlo Hhi.
  pose proof (Qfloor_le x) as H1. pose proof (Qlt_floor x) as H2.
  assert (Ha : (inject_Z (Qfloor x) < inject_Z (k + 1))%Q).
  { rewrite inject_Z_plus. change (inject_Z 1) with 1%Q. lra. }
  assert (Hb : (inject_Z k < inject_Z (Qfloor x + 1))%Q) by lra.
  rewrite <- Zlt_Qlt in Ha, Hb. lia.
Qed.

Lemma inject_Z_pred (k : Z) : (inject_Z (k - 1) == inject_Z k - 1)%Q.
Proof.
  replace k with (k - 1 + 1) at 2 by lia.
  rewrite (inject_Z_plus (k - 1) 1). change (inject_Z 1) with 1%Q. ring.
Qed.

Lemma okNum_seven :
  okNum 53 zeroPointSeven
  ∧ (valueOf zeroPointSeven == 6305039478318694 # 9007199254740992)%Q.
Proof.
  split; [|reflexivity]. right. exists 6305039478318694%positive, (-53).
  split; [done|]. split; [reflexivity|lia].
Qed.

Lemma okNum_three :
  okNum 54 zeroPointThree
  ∧ (valueOf zeroPointThree == 5404319552844595 # 18014398509481984)%Q.
Proof.
  split; [|reflexivity]. right. exists 5404319552844595%positive, (-54).
  split; [done|]. split; [reflexivity|lia].
Qed.

Lemma streakBonus_completionRate (s : nat) : streakBonus s = completionRate (Nat.min s 21) 21.
Proof. reflexivity. Qed.

(** The blend computed in doubles is within [2 ^ -40] of the exact one. *)
Lemma blend_near (c t s : nat) :
  (0 < t)%nat → (c ≤ t)%nat → Z.of_nat t < 2 ^ 53 →
  okNum 400 (blend c t s)
  ∧ (specBlend c t s - (1 # 1099511627776) <= valueOf (blend c t s)
     <= specBlend c t s + (1 # 1099511627776))%Q.
Proof.
  intros Ht Hc Hbound.
  destruct (completionRate_near c t Ht Hc Hbound) as [Hokp Hp].
  destruct (completionRate_near (Nat.min s 21) 21 ltac:(lia) ltac:(lia) ltac:(lia))
    as [Hokb Hb].
  rewrite <- streakBonus_completionRate in Hokb, Hb.
  destruct okNum_seven as [Hok7 Hv7]. destruct okNum_three as [Hok3 Hv3].
  destruct (mul_near 263 53 _ _ ltac:(lia) ltac:(lia) Hokp Hok7) as [Hoka Hna].
  destruct (mul_near 263 54 _ _ ltac:(lia) ltac:(lia) Hokb Hok3) as [Hokbb Hnb].
  destruct (add_near (263 + 53 + 54) (263 + 54 + 54) _ _ ltac:(lia) ltac:(lia)
              Hoka Hokbb) as [Hokv Hnv].
  split; [eapply okNum_weaken; [|exact Hokv]; lia|].
  pose proof (ratio_bounds c t Ht Hc) as Hr.
  pose proof (ratio_bounds (Nat.min s 21) 21 ltac:(lia) ltac:(lia)) as Hs.
  assert (Hspec : (specBlend c t s
                   == 100 * ratio c t * (7 # 10)
                      + 100 * ratio (Nat.min s 21) 21 * (3 # 10))%Q).
  { unfold specBlend, specCompletionRate, specStreakBonus, ratio.
    change (inject_Z (Z.of_nat 21)) with 21%Q.
    assert (0 < inject_Z (Z.of_nat t))%Q.
    { change 0%Q with (inject_Z 0). rewrite <- Zlt_Qlt. lia. }
    field. lra. }
  rewrite Hspec.
  unfold blend, fadd, fmul in *.
  set (P := valueOf (completionRate c t)) in *.
  set (B := valueOf (streakBonus s)) in *.
  set (A1 := valueOf (SFmul prec emax (completionRate c t) zeroPointSeven)) in *.
  set (B1 := valueOf (SFmul prec emax (streakBonus s) zeroPointThree)) in *.
  set (V := valueOf (SFadd prec emax _ _)) in *.
  unfold near, ulp53 in Hna, Hnb, Hnv.
  rewrite Hv7 in Hna. rewrite Hv3 in Hnb.
  set (r := ratio c t) in *. set (q := ratio (Nat.min s 21) 21) in *.
  destruct Hna as [Ha1 Ha2]. destruct Hnb as [Hb1 Hb2]. destruct Hnv as [Hv1 Hv2].
  assert (HP0 : (0 <= P)%Q) by (apply (valueOf_okNum _ _ Hokp)).
  assert (HB0 : (0 <= B)%Q) by (apply (valueOf_okNum _ _ Hokb)).
  assert (HA0 : (0 <= A1)%Q) by (apply (valueOf_okNum _ _ Hoka)).
  assert (HB10 : (0 <= B1)%Q) by (apply (valueOf_okNum _ _ Hokbb)).
  split; lra.
Qed.

Lemma round_of_near (V v : Q) (N M : Z) :
  0 < M < 2 ^ 36 →
  (v + (1 # 2) == inject_Z N / inject_Z M)%Q →
  (v - (1 # 1099511627776) <= V <= v + (1 # 1099511627776))%Q →
  (¬ halfway v → Qfloor (V + (1 # 2)) = Qfloor (v + (1 # 2)))
  ∧ (Qfloor (V + (1 # 2)) = Qfloor (v + (1 # 2))
     ∨ Qfloor (V + (1 # 2)) = Qfloor (v + (1 # 2)) - 1).
Proof.
  intros HM Hv HV.
  assert (Hm : (0 < inject_Z M)%Q).
  { change 0%Q with (inject_Z 0). rewrite <- Zlt_Qlt. lia. }
  assert (Hk : Qfloor (v + (1 # 2)) = N / M).
  { rewrite Zdiv_Qdiv. by apply Qfloor_comp. }
  pose proof (Z.div_mod N M ltac:(lia)) as Hdm.
  pose proof (Z.mod_pos_bound N M ltac:(lia)) as Hr.
  set (k := N / M) in *. set (R := N mod M) in *.
  set (q := (/ inject_Z M)%Q).
  assert (Hq : (inject_Z M * q == 1)%Q) by (unfold q; field; lra).
  assert (Hq36 : ((1 # 68719476736) < q)%Q).
  { assert (Hlt : (inject_Z M < 68719476736)%Q).
    { change 68719476736%Q with (inject_Z (2 ^ 36)). rewrite <- Zlt_Qlt. lia. }
    assert (Hqpos : (0 < q)%Q) by (unfold q; by apply Qinv_lt_0_compat).
    assert (H1 : (inject_Z M * q < 68719476736 * q)%Q).
    { apply Qmult_lt_compat_r; done. }
    lra. }
  assert (Hx : (v + (1 # 2) == inject_Z k + inject_Z R * q)%Q).
  { rewrite Hv, Hdm, inject_Z_plus, inject_Z_mult. unfold q. field. lra. }
  rewrite Hk.
  destruct (Z.eq_dec R 0) as [HR0|HR0].
  - (* halfway *)
    rewrite HR0 in Hx. change (inject_Z 0) with 0%Q in Hx.
    split.
    + intros Hnh. exfalso. apply Hnh. unfold halfway. rewrite Hk. lra.
    + destruct (Qlt_le_dec (V + (1 # 2)) (inject_Z k)) as [Hlt|Hge].
      * right. apply Qfloor_unique; rewrite inject_Z_pred; lra.
      * left. apply Qfloor_unique; lra.
  - assert (HRq : (q <= inject_Z R * q <= 1 - q)%Q).
    { assert (Hqpos : (0 < q)%Q) by lra.
      assert (H1 : (inject_Z 1 <= inject_Z R)%Q) by (rewrite <- Zle_Qle; lia).
      assert (H2 : (inject_Z R <= inject_Z (M - 1))%Q) by (rewrite <- Zle_Qle; lia).
      rewrite inject_Z_pred in H2. change (inject_Z 1) with 1%Q in *.
      split.
      - assert (1 * q <= inject_Z R * q)%Q by (apply Qmult_le_compat_r; lra). lra.
      - assert (inject_Z R * q <= (inject_Z M - 1) * q)%Q
          by (apply Qmult_le_compat_r; lra).
        lra. }
    assert (Heq : Qfloor (V + (1 # 2)) = k) by (apply Qfloor_unique; lra).
    split; [done|by left].
Qed.

Lemma inject_Z_pos (z : Z) : 0 < z → (0 < inject_Z z)%Q.
Proof. intros H. change 0%Q with (inject_Z 0). rewrite <- Zlt_Qlt. lia. Qed.

(** [c / t <= a / b] and [a / b <= c / t] from the integers. *)
Lemma ratio_le (c t : nat) (a b : Z) :
  (0 < t)%nat → 0 < b → Z.of_nat c * b <= a * Z.of_nat t →
  (ratio c t <= inject_Z a / inject_Z b)%Q.
Proof.
  intros Ht Hb H. unfold ratio.
  pose proof (inject_Z_pos (Z.of_nat t) ltac:(lia)) as Htq.
  pose proof (inject_Z_pos b Hb) as Hbq.
  rewrite Zle_Qle, !inject_Z_mult in H.
  set (C := inject_Z (Z.of_nat c)) in *. set (T := inject_Z (Z.of_nat t)) in *.
  set (A := inject_Z a) in *. set (B := inject_Z b) in *.
  apply Qmult_le_r with (T * B)%Q; [by apply Qmult_lt_0_compat|].
  setoid_replace (C / T * (T * B))%Q with (C * B)%Q using relation Qeq by (field; lra).
  setoid_replace (A / B * (T * B))%Q with (A * T)%Q using relation Qeq by (field; lra).
  done.
Qed.

Lemma ratio_ge (c t : nat) (a b : Z) :
  (0 < t)%nat → 0 < b → a * Z.of_nat t <= Z.of_nat c * b →
  (inject_Z a / inject_Z b <= ratio c t)%Q.
Proof.
  intros Ht Hb H. unfold ratio.
  pose proof (inject_Z_pos (Z.of_nat t) ltac:(lia)) as Htq.
  pose proof (inject_Z_pos b Hb) as Hbq.
  rewrite Zle_Qle, !inject_Z_mult in H.
  set (C := inject_Z (Z.of_nat c)) in *. set (T := inject_Z (Z.of_nat t)) in *.
  set (A := inject_Z a) in *. set (B := inject_Z b) in *.
  apply Qmult_le_r with (T * B)%Q; [by apply Qmult_lt_0_compat|].
  setoid_replace (C / T * (T * B))%Q with (C * B)%Q using relation Qeq by (field; lra).
  setoid_replace (A / B * (T * B))%Q with (A * T)%Q using relation Qeq by (field; lra).
  done.
Qed.

(** The rounded blend against the exactly computed one. *)
Lemma score_spec (c t s : nat) :
  (0 < t)%nat → (c ≤ t)%nat → Z.of_nat t < 2 ^ 32 →
  (¬ halfway (specBlend c t s) → mathRound (blend c t s) = specScore c t s)
  ∧ (mathRound (blend c t s) = specScore c t s
     ∨ mathRound (blend c t s) = specScore c t s - 1)
  ∧ 0 <= mathRound (blend c t s) <= 100.
Proof.
  intros Ht Hc Hbound.
  destruct (blend_near c t s Ht Hc ltac:(lia)) as [Hok Hnear].
  pose proof (inject_Z_pos (Z.of_nat t) ltac:(lia)) as Htq.
  set (s' := Nat.min s 21).
  assert (Hv : (specBlend c t s + (1 # 2)
                == inject_Z (980 * Z.of_nat c + 20 * Z.of_nat s' * Z.of_nat t
                             + 7 * Z.of_nat t)
                   / inject_Z (14 * Z.of_nat t))%Q).
  { unfold specBlend, specCompletionRate, specStreakBonus. fold s'.
    rewrite !inject_Z_plus, !inject_Z_mult.
    change (inject_Z 980) with 980%Q. change (inject_Z 20) with 20%Q.
    change (inject_Z 7) with 7%Q. change (inject_Z 14) with 14%Q.
    field. lra. }
  assert (HM : 0 < 14 * Z.of_nat t < 2 ^ 36) by lia.
  destruct (round_of_near (valueOf (blend c t s)) (specBlend c t s) _ _
              HM Hv Hnear) as [Hexact Hclose].
  unfold mathRound, specScore, roundHalfUp.
  split; [exact Hexact|]. split; [exact Hclose|].
  pose proof (valueOf_okNum _ _ Hok) as Hv0.
  assert (Hspec100 : Qfloor (specBlend c t s + (1 # 2)) <= 100).
  { pose proof (ratio_bounds c t Ht Hc) as Hr.
    pose proof (ratio_bounds s' 21 ltac:(lia) ltac:(unfold s'; lia)) as Hs.
    assert (Hb : (specBlend c t s <= 100)%Q).
    { assert (Heq : (specBlend c t s
                     == 100 * ratio c t * (7 # 10) + 100 * ratio s' 21 * (3 # 10))%Q).
      { unfold specBlend, specCompletionRate, specStreakBonus, ratio. fold s'.
        change (inject_Z (Z.of_nat 21)) with 21%Q. field. lra. }
      rewrite Heq. lra. }
    change 100 with (Qfloor (100 + (1 # 2))). apply Qfloor_resp_le. lra. }
  split.
  - change 0 with (Qfloor 0). apply Qfloor_resp_le. lra.
  - destruct Hclose as [-> | ->]; lia.
Qed.

Lemma progressOf_round (c t : nat) :
  (0 < t)%nat → progressOf c t = mathRound (completionRate c t).
Proof. intros Ht. unfold progressOf. by destruct t; [lia|]. Qed.

Lemma progressOf_range (c t : nat) :
  (c ≤ t)%nat → Z.of_nat t < 2 ^ 53 → 0 <= progressOf c t <= 100.
Proof.
  intros Hc Hbound. destruct t as [|t]; [done|].
  rewrite progressOf_round by lia.
  destruct (completionRate_near c (S t) ltac:(lia) Hc Hbound) as [Hok Hnear].
  pose proof (valueOf_okNum _ _ Hok) as Hv0.
  pose proof (ratio_bounds c (S t) ltac:(lia) Hc) as Hr.
  unfold mathRound. split.
  - change 0 with (Qfloor 0). apply Qfloor_resp_le. lra.
  - change 100 with (Qfloor (100 + (3 # 4))). apply Qfloor_resp_le. lra.
Qed.

Lemma progressOf_le_100 (c t : nat) :
  (c ≤ t)%nat → Z.of_nat t < 2 ^ 53 → progressOf c t <= 100.
Proof. intros Hc Hb. by apply progressOf_range. Qed.

Lemma progressOf_mono (c c' t : nat) :
  (c ≤ c')%nat → (c' ≤ t)%nat → Z.of_nat t < 2 ^ 32 →
  progressOf c t <= progressOf c' t.
Proof.
  intros Hcc Hct Hbound. destruct t as [|t]; [done|].
  rewrite !progressOf_round by lia.
  destruct (Nat.eq_dec c c') as [->|Hne]; [lia|].
  destruct (completionRate_near c (S t) ltac:(lia) ltac:(lia) ltac:(lia)) as [_ Hn].
  destruct (completionRate_near c' (S t) ltac:(lia) ltac:(lia) ltac:(lia)) as [_ Hn'].
  assert (Hstep : (ratio c (S t) + (1 # 4294967296) <= ratio c' (S t))%Q).
  { pose proof (inject_Z_pos (Z.of_nat (S t)) ltac:(lia)) as Htq.
    unfold ratio.
    set (T := inject_Z (Z.of_nat (S t))) in *.
    assert (HT : (T <= 4294967296)%Q).
    { unfold T. change 4294967296%Q with (inject_Z (2 ^ 32)). rewrite <- Zle_Qle. lia. }
    assert (HC : (inject_Z (Z.of_nat c) + 1 <= inject_Z (Z.of_nat c'))%Q).
    { change 1%Q with (inject_Z 1). rewrite <- inject_Z_plus, <- Zle_Qle. lia. }
    set (C := inject_Z (Z.of_nat c)) in *. set (C' := inject_Z (Z.of_nat c')) in *.
    apply Qmult_le_r with T; [done|].
    setoid_replace ((C / T + (1 # 4294967296)) * T)%Q
      with (C + (1 # 4294967296) * T)%Q using relation Qeq by (field; lra).
    setoid_replace (C' / T * T)%Q with C' using relation Qeq by (field; lra).
    lra. }
  unfold mathRound. apply Qfloor_resp_le. lra.
Qed.

Lemma progressOf_extremes (c t : nat) :
  (0 < t < 200)%nat → (c ≤ t)%nat →
  (progressOf c t = 100 ↔ c = t) ∧ (progressOf c t = 0 ↔ c = 0%nat).
Proof.
  intros Ht Hc. rewrite progressOf_round by lia.
  destruct (completionRate_near c t ltac:(lia) Hc ltac:(lia)) as [Hok Hn].
  pose proof (valueOf_okNum _ _ Hok) as Hv0.
  unfold mathRound. split; split.
  - intros H100. destruct (Nat.eq_dec c t) as [|Hne]; [done|]. exfalso.
    pose proof (ratio_le c t 198 199 ltac:(lia) ltac:(lia) ltac:(lia)) as Hr.
    change (inject_Z 198 / inject_Z 199)%Q with (198 # 199)%Q in Hr.
    assert (Hlt : Qfloor (valueOf (completionRate c t) + (1 # 2)) <= 99).
    { change 99 with (Qfloor (99 + (9999 # 10000))). apply Qfloor_resp_le. lra. }
    lia.
  - intros ->.
    pose proof (ratio_ge t t 1 1 ltac:(lia) ltac:(lia) ltac:(lia)) as Hr.
    pose proof (ratio_le t t 1 1 ltac:(lia) ltac:(lia) ltac:(lia)) as Hr'.
    change (inject_Z 1 / inject_Z 1)%Q with 1%Q in Hr, Hr'.
    apply Qfloor_unique.
    + change (inject_Z 100) with 100%Q. lra.
    + change (inject_Z 100) with 100%Q. lra.
  - intros H0. destruct (Nat.eq_dec c 0%nat) as [|Hne]; [done|]. exfalso.
    pose proof (ratio_ge c t 1 199 ltac:(lia) ltac:(lia) ltac:(lia)) as Hr.
    change (inject_Z 1 / inject_Z 199)%Q with (1 # 199)%Q in Hr.
    assert (Hge : 1 <= Qfloor (valueOf (completionRate c t) + (1 # 2))).
    { apply (Z.le_trans _ (Qfloor 1)); [done|]. apply Qfloor_resp_le. lra. }
    lia.
  - intros ->.
    pose proof (ratio_le 0 t 0 1 ltac:(lia) ltac:(lia) ltac:(lia)) as Hr.
    change (inject_Z 0 / inject_Z 1)%Q with 0%Q in Hr.
    apply Qfloor_unique.
    + change (inject_Z 0) with 0%Q. lra.
    + change (inject_Z 0) with 0%Q. lra.
Qed.

(** On a zero or a positive normal number [Math.round] yields the number
    of the integer [mathRound] gives. *)
Lemma mathRoundNumber_okNum (L : Z) (x : spec_float) :
  okNum L x → mathRoundNumber x = numberOfZ (mathRound x).
Proof.
  intros [->|(m & e & -> & _)]; [reflexivity|].
  cbn [mathRoundNumber]. by rewrite andb_false_r.
Qed.

Lemma calculateCompletion_progressOf (total completed : nat) :
  (completed ≤ total)%nat → Z.of_nat total < 2 ^ 53 →
  calculateCompletion (numberOfNat total) (numberOfNat completed)
  = numberOfZ (progressOf completed total).
Proof.
  intros Hc Hb. unfold calculateCompletion.
  destruct total as [|t]; [reflexivity|].
  destruct (okNum_numberOfNat (S t) Hb) as (_ & _ & Hn).
  destruct (Hn ltac:(lia)) as (m & e & Heq & _).
  assert (Hz : SFeqb (numberOfNat (S t)) (S754_zero false) = false)
    by (by rewrite Heq).
  rewrite Hz.
  destruct (completionRate_near completed (S t) ltac:(lia) Hc Hb) as [Hok _].
  rewrite progressOf_round by lia.
  apply (mathRoundNumber_okNum _ _ Hok).
Qed.

End DoubleFacts.

Section StrengthFacts.
Context {rt : DateRuntime}.

Lemma sortDesc_length l : length (sortDesc l) = length l.
Proof. by rewrite sortDesc_perm. Qed.

Lemma sortDesc_completed_count l :
  length (filter (λ i, HabitInstance.completed i) (sortDesc l))
  = length (filter (λ i, HabitInstance.completed i) l).
Proof. by rewrite filter_sortDesc, sortDesc_length. Qed.

(** An all-completed history is walked to its end. *)
Lemma streakLoop_all_completed todayStr l :
  Forall (λ i, HabitInstance.completed i = true) l →
  streakLoop todayStr l 0 = length l.
Proof.
  induction 1 as [|i r Hi _ IH]; simpl; [done|].
  rewrite Hi, streakLoop_acc, IH. done.
Qed.

Lemma getHabitStreak_all_completed todayStr l :
  Forall (λ i, HabitInstance.completed i = true) l →
  getHabitStreak todayStr l = length l.
Proof.
  intros H. unfold getHabitStreak. simpl.
  rewrite streakLoop_all_completed, sortDesc_length; [done|].
  by rewrite sortDesc_perm.
Qed.

(** The score is the rounded blend of the three counts, whatever the
    order of the instances. *)
Lemma calculateHabitStrength_blend todayStr habit instances :
  instances ≠ [] →
  calculateHabitStrength todayStr habit instances
  = mathRound (blend (length (filter (λ i, HabitInstance.completed i) instances))
                     (length instances) (getHabitStreak todayStr instances)).
Proof.
  intros Hne. unfold calculateHabitStrength. cbv zeta.
  rewrite sortDesc_length, sortDesc_completed_count.
  destruct instances; [done|]. done.
Qed.

(** From a streak of 21 on the bonus term is the double 100. *)
Lemma streakBonus_saturated s : (21 ≤ s)%nat → streakBonus s = numberOfZ 100.
Proof. intros H. unfold streakBonus. rewrite Nat.min_r by done. by vm_compute. Qed.

(** C3 (as amended).  [calculateHabitStrength] is 0 on the empty list and
    otherwise [Math.round] of the 70/30 blend of the completion rate
    [(completedCount / totalCount) * 100] and the streak bonus
    [(min(streak, 21) / 21) * 100] evaluated in doubles, [streak] being the
    value of the streak walk.  For a list shorter than [2 ^ 32], as every
    array is, the result lies in [0,100] and is the exactly computed blend
    rounded halves upward, except that where the exact blend lies halfway
    between two integers it may be one less.  From a streak of 21 on the
    bonus term is 100. *)
Theorem calculateHabitStrength_spec (todayStr : string) (habit : Habit.t)
    (instances : list HabitInstance.t) :
  let streak := getHabitStreak todayStr instances in
  let completedCount := length (filter (λ i, HabitInstance.completed i) instances) in
  let totalCount := length instances in
  let score := calculateHabitStrength todayStr habit instances in
  (instances = [] → score = 0)
  ∧ (instances ≠ [] →
     score = mathRound (fadd (fmul (completionRate completedCount totalCount)
                                   zeroPointSeven)
                             (fmul (streakBonus streak) zeroPointThree)))
  ∧ (Z.of_nat totalCount < 2 ^ 32 →
     0 <= score <= 100
     ∧ (instances ≠ [] →
        (¬ halfway (specBlend completedCount totalCount streak) →
         score = specScore completedCount totalCount streak)
        ∧ (score = specScore completedCount totalCount streak
           ∨ score = specScore completedCount totalCount streak - 1)))
  ∧ ((21 ≤ streak)%nat → streakBonus streak = numberOfZ 100).
Proof.
  intros streak completedCount totalCount score.
  split; [by intros ->|].
  split; [intros Hne; by apply calculateHabitStrength_blend|].
  split; [|apply streakBonus_saturated].
  intros Hbound.
  destruct (decide (instances = [])) as [->|Hne]; [done|].
  assert (Ht : (0 < totalCount)%nat).
  { subst totalCount. destruct instances; [done|simpl; lia]. }
  assert (Hc : (completedCount ≤ totalCount)%nat) by apply length_filter.
  destruct (score_spec completedCount totalCount streak Ht Hc Hbound)
    as (Hexact & Hclose & Hrange).
  subst score. rewrite (calculateHabitStrength_blend _ _ _ Hne).
  split; [exact Hrange|]. intros _. split; [exact Hexact|exact Hclose].
Qed.

End StrengthFacts.

(** ** Scheduling *)

Section ScheduleFacts.
Context {rt : DateRuntime}.

Lemma isWeekendDay_true dateStr :
  isWeekendDay dateStr = true ↔ getDay dateStr = 0 ∨ getDay dateStr = 6.
Proof. unfold isWeekendDay. simpl. rewrite orb_true_iff, !Z.eqb_eq. done. Qed.

Lemma isWeekendDay_false dateStr :
  isWeekendDay dateStr = false ↔ getDay dateStr ≠ 0 ∧ getDay dateStr ≠ 6.
Proof. unfold isWeekendDay. simpl. rewrite orb_false_iff, !Z.eqb_neq. done. Qed.

Lemma createInstancesForDay_dueOn dateStr habits :
  createInstancesForDay dateStr habits
  = newInstance dateStr <$> filter (λ h, dueOn dateStr h) habits.
Proof. done. Qed.

Lemma elem_of_createInstancesForDay dateStr habits i :
  i ∈ createInstancesForDay dateStr habits
  ↔ ∃ h, i = newInstance dateStr h ∧ h ∈ habits ∧ dueOn dateStr h = true.
Proof.
  rewrite createInstancesForDay_dueOn, list_elem_of_fmap.
  setoid_rewrite list_elem_of_filter. setoid_rewrite Is_true_true.
  split; intros (h & ? & ? & ?); exists h; done.
Qed.

(** The scheduling filter of [createInstancesForDay] in terms of the day
    of week the runtime reports for the date string: a DAILY habit is
    always kept, a WEEKDAYS habit iff [getDay] is neither 0 nor 6, a
    WEEKENDS habit iff it is 0 or 6, and a habit with any other schedule
    (CUSTOM) is always kept; exactly the kept habits get an instance. *)
Theorem createInstancesForDay_schedule (dateStr : string) (h : Habit.t)
    (habits : list Habit.t) :
  (Habit.schedule h = DAILY → dueOn dateStr h = true)
  ∧ (Habit.schedule h = WEEKDAYS →
     (dueOn dateStr h = true ↔ getDay dateStr ≠ 0 ∧ getDay dateStr ≠ 6))
  ∧ (Habit.schedule h = WEEKENDS →
     (dueOn dateStr h = true ↔ getDay dateStr = 0 ∨ getDay dateStr = 6))
  ∧ (Habit.schedule h ≠ DAILY → Habit.schedule h ≠ WEEKDAYS →
     Habit.schedule h ≠ WEEKENDS → dueOn dateStr h = true)
  ∧ (newInstance dateStr h ∈ createInstancesForDay dateStr habits
     ↔ ∃ h', Habit.id h' = Habit.id h ∧ h' ∈ habits ∧ dueOn dateStr h' = true)
  ∧ (∀ h1 h2, Habit.schedule h1 = DAILY → Habit.schedule h2 = WEEKDAYS →
     getDay dateStr = 6 →
     filter (λ x, dueOn dateStr x) [h1; h2] = [h1]
     ∧ createInstancesForDay dateStr [h1; h2] = [newInstance dateStr h1]).
Proof.
  unfold dueOn, scheduled.
  split; [by intros ->|].
  split.
  { intros ->. rewrite negb_true_iff. apply isWeekendDay_false. }
  split.
  { intros ->. apply isWeekendDay_true. }
  split.
  { by destruct (Habit.schedule h). }
  split.
  { rewrite elem_of_createInstancesForDay. unfold dueOn, scheduled, newInstance.
    split.
    - intros (h' & Heq & Hin & Hdue). exists h'. by simplify_eq.
    - intros (h' & Hid & Hin & Hdue). exists h'. by rewrite Hid. }
  intros h1 h2 H1 H2 Hsat.
  assert (Hw : isWeekendDay dateStr = true) by (apply isWeekendDay_true; auto).
  assert (Hf : filter (λ x, dueOn dateStr x) [h1; h2] = [h1]).
  { rewrite !filter_cons, filter_nil. unfold dueOn, scheduled.
    rewrite H1, H2, Hw. done. }
  split; [exact Hf|].
  by rewrite createInstancesForDay_dueOn, Hf.
Qed.

End ScheduleFacts.

(** *** The day of week the runtime reports, against the calendar

    [UTC.day] is the day of week of the calendar date a string names. *)

Lemma localDay_shift (offsetAt : Z → Z) (s : string) (k : Z) :
  k * 86400000 <= offsetAt (UTC.time s) * 60000 < (k + 1) * 86400000 →
  localDay offsetAt s = (UTC.day s + k) mod 7.
Proof.
  intros Hk. unfold localDay, UTC.day, UTC.time in *. cbv zeta.
  set (d := UTC.days s) in *. set (o := offsetAt (d * 86400000)) in *.
  assert (Hdiv : (d * 86400000 + o * 60000) / 86400000 = d + k).
  { symmetry. apply Z.div_unique with (o * 60000 - k * 86400000); lia. }
  rewrite Hdiv, Z.add_mod_idemp_l by lia. f_equal. lia.
Qed.

(** At UTC and east of it the runtime reports the calendar day. *)
Lemma localDay_east (offsetAt : Z → Z) (s : string) :
  0 <= offsetAt (UTC.time s) < 1440 → localDay offsetAt s = UTC.day s.
Proof.
  intros H. rewrite (localDay_shift offsetAt s 0) by lia.
  rewrite Z.add_0_r. unfold UTC.day. by rewrite Z.mod_mod by lia.
Qed.

(** West of UTC it reports the day before. *)
Lemma localDay_west (offsetAt : Z → Z) (s : string) :
  -1440 <= offsetAt (UTC.time s) < 0 → localDay offsetAt s = (UTC.day s - 1) mod 7.
Proof. intros H. by rewrite (localDay_shift offsetAt s (-1)) by lia. Qed.

(** In a zone at or east of UTC the filter follows the calendar: a
    WEEKDAYS habit is kept iff the date is neither a Sunday nor a Saturday,
    a WEEKENDS habit iff it is one of the two. *)
Lemma createInstancesForDay_schedule_east (offsetAt : Z → Z) (dateStr : string)
    (h : Habit.t) :
  0 <= offsetAt (UTC.time dateStr) < 1440 →
  (Habit.schedule h = WEEKDAYS →
   (@dueOn (localRuntime offsetAt) dateStr h = true
    ↔ UTC.day dateStr ≠ 0 ∧ UTC.day dateStr ≠ 6))
  ∧ (Habit.schedule h = WEEKENDS →
     (@dueOn (localRuntime offsetAt) dateStr h = true
      ↔ UTC.day dateStr = 0 ∨ UTC.day dateStr = 6)).
Proof.
  intros Heast.
  destruct (@createInstancesForDay_schedule (localRuntime offsetAt) dateStr h [])
    as (_ & Hwd & Hwe & _).
  cbn [getDay localRuntime] in Hwd, Hwe.
  rewrite (localDay_east offsetAt dateStr Heast) in Hwd, Hwe. done.
Qed.

(** ** Lazy creation in [getWeekInstances] *)

Section WeekFacts.
Context {rt : DateRuntime}.

Lemma length_zero_nil {A} (l : list A) : (length l =? 0)%nat = bool_decide (l = []).
Proof. by destruct l. Qed.

Lemma weekStep_all habits all week chg d :
  (weekStep habits (all, week, chg) d).1.1 = all ++ createdFor habits all d.
Proof.
  unfold weekStep, createdFor, dayInstances. rewrite length_zero_nil.
  case_bool_decide; simpl.
  - by rewrite decide_True.
  - rewrite decide_False by done. by rewrite app_nil_r.
Qed.

Lemma weekStep_changes habits all week chg d :
  (weekStep habits (all, week, chg) d).2
  = chg || bool_decide (dayInstances d all = []).
Proof.
  unfold weekStep, dayInstances. rewrite length_zero_nil.
  case_bool_decide; simpl; by rewrite ?orb_true_r, ?orb_false_r.
Qed.

Lemma foldl_weekStep_all habits dates all week chg :
  (foldl (weekStep habits) (all, week, chg) dates).1.1
  = all ++ ensure habits all dates.
Proof.
  revert all week chg.
  induction dates as [|d ds IH]; intros all week chg; cbn [foldl ensure].
  - simpl. by rewrite app_nil_r.
  - destruct (weekStep habits (all, week, chg) d) as [[all' week'] chg'] eqn:Hstep.
    rewrite IH.
    pose proof (weekStep_all habits all week chg d) as Hall.
    rewrite Hstep in Hall. simpl in Hall. subst all'.
    by rewrite app_assoc.
Qed.

Lemma foldl_weekStep_changes habits dates all week chg :
  (foldl (weekStep habits) (all, week, chg) dates).2
  = chg || anyEmptyDay habits all dates.
Proof.
  revert all week chg.
  induction dates as [|d ds IH]; intros all week chg; cbn [foldl anyEmptyDay].
  - simpl. by rewrite orb_false_r.
  - destruct (weekStep habits (all, week, chg) d) as [[all' week'] chg'] eqn:Hstep.
    rewrite IH.
    pose proof (weekStep_all habits all week chg d) as Hall.
    pose proof (weekStep_changes habits all week chg d) as Hchg.
    rewrite Hstep in Hall, Hchg. simpl in Hall, Hchg. subst all' chg'.
    by rewrite orb_assoc.
Qed.

(** Recomputing the streaks does not change what is created: creation reads
    only a habit's identifier and schedule. *)
Lemma dbCalculateHabitStrength_habit todayStr h insts :
  (dbCalculateHabitStrength todayStr h insts).1
  = Habit.with_streak h (getHabitStreak todayStr insts).
Proof.
  unfold dbCalculateHabitStrength, getHabitStreak. cbv zeta.
  by destruct (_ =? _)%nat.
Qed.

Lemma createInstancesForDay_fmap (f : Habit.t → Habit.t) d habits :
  (∀ h, Habit.id (f h) = Habit.id h ∧ Habit.schedule (f h) = Habit.schedule h) →
  createInstancesForDay d (f <$> habits) = createInstancesForDay d habits.
Proof.
  intros Hf. unfold createInstancesForDay. cbv zeta.
  induction habits as [|h hs IH]; [done|].
  rewrite fmap_cons, !filter_cons.
  destruct (Hf h) as [Hid Hsch].
  assert (Hs : scheduled (isWeekendDay d) (f h) = scheduled (isWeekendDay d) h).
  { unfold scheduled. by rewrite Hsch. }
  rewrite Hs.
  destruct (decide (scheduled (isWeekendDay d) h)); [|exact IH].
  rewrite !fmap_cons, IH. f_equal.
  unfold newInstance. by rewrite Hid.
Qed.

Lemma createInstancesForDay_getHabits todayStr st d :
  createInstancesForDay d (getHabits todayStr st)
  = createInstancesForDay d (parseOr (HABITS st)).
Proof.
  unfold getHabits. cbv zeta.
  apply createInstancesForDay_fmap. intros h.
  by rewrite dbCalculateHabitStrength_habit.
Qed.

Lemma createdFor_getHabits todayStr st all d :
  createdFor (getHabits todayStr st) all d = createdFor (parseOr (HABITS st)) all d.
Proof. unfold createdFor. by rewrite createInstancesForDay_getHabits. Qed.

Lemma ensure_getHabits todayStr st dates all :
  ensure (getHabits todayStr st) all dates = ensure (parseOr (HABITS st)) all dates.
Proof.
  revert all. induction dates as [|d ds IH]; intros all; simpl; [done|].
  by rewrite createdFor_getHabits, IH.
Qed.

Lemma anyEmptyDay_getHabits todayStr st dates all :
  anyEmptyDay (getHabits todayStr st) all dates
  = anyEmptyDay (parseOr (HABITS st)) all dates.
Proof.
  revert all. induction dates as [|d ds IH]; intros all; simpl; [done|].
  by rewrite createdFor_getHabits, IH.
Qed.

Lemma getHabits_length todayStr st :
  length (getHabits todayStr st) = length (parseOr (HABITS st)).
Proof. unfold getHabits. simpl. by rewrite length_fmap. Qed.

Lemma createInstancesForDay_date d habits i :
  i ∈ createInstancesForDay d habits → HabitInstance.date i = d.
Proof. intros (h & -> & _)%elem_of_createInstancesForDay. done. Qed.

Lemma dayInstances_app d l1 l2 :
  dayInstances d (l1 ++ l2) = dayInstances d l1 ++ dayInstances d l2.
Proof. apply filter_app. Qed.

Lemma dayInstances_nil_iff d l :
  dayInstances d l = [] ↔ ∀ i, i ∈ l → HabitInstance.date i ≠ d.
Proof.
  unfold dayInstances. split.
  - intros Hnil i Hi Hd.
    assert (Hin : i ∈ filter (λ i, HabitInstance.date i = d) l)
      by (by apply list_elem_of_filter).
    rewrite Hnil in Hin. by apply not_elem_of_nil in Hin.
  - intros Hall. induction l as [|x l IH]; [done|].
    rewrite filter_cons, decide_False by (apply Hall; left).
    apply IH. intros i Hi. apply Hall. by right.
Qed.

Lemma dayInstances_created_other d d' habits :
  d' ≠ d → dayInstances d' (createInstancesForDay d habits) = [].
Proof.
  intros Hne. apply dayInstances_nil_iff.
  intros i Hi%createInstancesForDay_date. congruence.
Qed.

Lemma dayInstances_created_same d habits :
  dayInstances d (createInstancesForDay d habits) = createInstancesForDay d habits.
Proof.
  unfold dayInstances.
  assert (H : Forall (λ i, HabitInstance.date i = d) (createInstancesForDay d habits)).
  { apply Forall_forall. intros i. apply createInstancesForDay_date. }
  induction H as [|x l Hx _ IH]; [done|].
  by rewrite filter_cons, decide_True, IH.
Qed.

Lemma createdFor_date habits all d i :
  i ∈ createdFor habits all d → HabitInstance.date i = d.
Proof.
  unfold createdFor. case_decide; [apply createInstancesForDay_date|].
  by intros ?%not_elem_of_nil.
Qed.

(** The store after [getWeekInstances]. *)
Lemma getWeekInstances_store todayStr dates st :
  let habits := parseOr (HABITS st) in
  let all := parseOr (INSTANCES st) in
  (getWeekInstances todayStr dates st).1
  = if (0 <? length habits)%nat && anyEmptyDay habits all dates
    then setInstances st (all ++ ensure habits all dates)
    else st.
Proof.
  intros habits all. unfold getWeekInstances. cbv zeta.
  rewrite getHabits_length. fold habits all.
  destruct (0 <? length habits)%nat; simpl; [|done].
  pose proof (foldl_weekStep_all (getHabits todayStr st) dates all [] false) as Hall.
  pose proof (foldl_weekStep_changes (getHabits todayStr st) dates all [] false) as Hchg.
  destruct (foldl _ _ dates) as [[all' week'] chg']. simpl in *.
  rewrite ensure_getHabits in Hall. rewrite anyEmptyDay_getHabits in Hchg.
  fold habits in Hall, Hchg. subst all' chg'. done.
Qed.

Lemma anyEmptyDay_false_ensure habits all dates :
  anyEmptyDay habits all dates = false → ensure habits all dates = [].
Proof.
  revert all. induction dates as [|d ds IH]; intros all; simpl; [done|].
  intros [Hd Hrest]%orb_false_iff.
  apply bool_decide_eq_false in Hd.
  unfold createdFor in *. rewrite decide_False in * by done.
  rewrite app_nil_r in Hrest. by rewrite app_nil_r, IH.
Qed.

Lemma ensure_no_habits all dates : ensure [] all dates = [].
Proof.
  revert all. induction dates as [|d ds IH]; intros all; simpl; [done|].
  unfold createdFor. case_decide; simpl; by rewrite ?app_nil_r, IH.
Qed.

(** Existing instances stay where they are; new ones follow them. *)
Lemma getWeekInstances_appends todayStr dates st :
  parseOr (INSTANCES (getWeekInstances todayStr dates st).1)
  = parseOr (INSTANCES st)
    ++ ensure (parseOr (HABITS st)) (parseOr (INSTANCES st)) dates.
Proof.
  rewrite getWeekInstances_store.
  destruct (0 <? length (parseOr (HABITS st)))%nat eqn:Hlen; simpl.
  - destruct (anyEmptyDay _ _ dates) eqn:Hany; [done|].
    by rewrite anyEmptyDay_false_ensure, app_nil_r.
  - destruct (parseOr (HABITS st)); [|done].
    by rewrite ensure_no_habits, app_nil_r.
Qed.

Lemma createdByWeek_ensure todayStr dates st :
  createdByWeek todayStr dates st
  = ensure (parseOr (HABITS st)) (parseOr (INSTANCES st)) dates.
Proof.
  unfold createdByWeek. rewrite getWeekInstances_appends.
  by rewrite drop_app_length.
Qed.

Lemma getWeekInstances_other_keys todayStr dates st :
  HABITS (getWeekInstances todayStr dates st).1 = HABITS st
  ∧ TASKS (getWeekInstances todayStr dates st).1 = TASKS st
  ∧ PROJECTS (getWeekInstances todayStr dates st).1 = PROJECTS st.
Proof. rewrite getWeekInstances_store. by destruct (_ && _). Qed.

(** Which instances the loop appends. *)
Lemma elem_of_ensure habits all dates i :
  i ∈ ensure habits all dates
  ↔ ∃ d, d ∈ dates ∧ dayInstances d all = [] ∧ i ∈ createInstancesForDay d habits.
Proof.
  revert all. induction dates as [|d ds IH]; intros all; simpl.
  - split; [by intros ?%not_elem_of_nil|].
    intros (d & Hd%not_elem_of_nil & _). done.
  - rewrite elem_of_app, IH. split.
    + intros [Hi|(d' & Hd' & Hnil & Hi)].
      * unfold createdFor in Hi. case_decide; [|by apply not_elem_of_nil in Hi].
        exists d. split; [left|done].
      * exists d'. split; [by right|]. split; [|done].
        rewrite dayInstances_app in Hnil. by apply app_eq_nil in Hnil as [? _].
    + intros (d' & Hd' & Hnil & Hi).
      destruct (decide (d' = d)) as [->|Hne].
      * left. unfold createdFor. by rewrite decide_True.
      * right. exists d'. apply elem_of_cons in Hd' as [?|Hd']; [done|].
        split; [done|]. split; [|done].
        rewrite dayInstances_app, Hnil. simpl.
        unfold createdFor. case_decide; [|done].
        by apply dayInstances_created_other.
Qed.

(** For pairwise-distinct dates the appended list is the days' creations
    in request order. *)
Lemma ensure_distinct_dates habits all dates :
  NoDup dates →
  ensure habits all dates = dates ≫= createdFor habits all.
Proof.
  intros Hnd. revert all. induction Hnd as [|d ds Hd _ IH]; intros all; [done|].
  cbn [ensure]. rewrite bind_cons. f_equal.
  rewrite IH. clear IH.
  induction ds as [|d' ds' IH']; [done|].
  rewrite !bind_cons. apply not_elem_of_cons in Hd as [Hne Hd].
  f_equal; [|by apply IH'].
  unfold createdFor at 1 3. rewrite dayInstances_app.
  assert (Hc : dayInstances d' (createdFor habits all d) = []).
  { apply dayInstances_nil_iff. intros i Hi%createdFor_date. congruence. }
  by rewrite Hc, app_nil_r.
Qed.

End WeekFacts.

Section WeekTheorems.
Context {rt : DateRuntime}.

(** What [getWeekInstances] creates.  It works by whole days: for each
    requested date of which the store holds no instance at all it creates
    one instance per due habit, with [completed = false], no completion
    timestamp and the identifier [date_habitId]; for a date that already has
    an instance it creates nothing; existing instances and the other keys of
    the store are left as they were. *)
Theorem getWeekInstances_creates_whole_days (todayStr : string)
    (dates : list string) (st : Store) :
  let habits := parseOr (HABITS st) in
  let stored := parseOr (INSTANCES st) in
  let st' := (getWeekInstances todayStr dates st).1 in
  let created := createdByWeek todayStr dates st in
  parseOr (INSTANCES st') = stored ++ created
  ∧ (HABITS st' = HABITS st ∧ TASKS st' = TASKS st ∧ PROJECTS st' = PROJECTS st)
  ∧ (∀ i, i ∈ created ↔
       ∃ d h, d ∈ dates ∧ dayInstances d stored = [] ∧ h ∈ habits
              ∧ dueOn d h = true ∧ i = newInstance d h)
  ∧ (∀ i, i ∈ created →
       HabitInstance.completed i = false
       ∧ HabitInstance.completedAt i = None
       ∧ HabitInstance.id i
         = HabitInstance.date i +:+ "_" +:+ HabitInstance.habitId i)
  ∧ (NoDup dates →
     created = dates ≫= (λ d, if decide (dayInstances d stored = [])
                              then createInstancesForDay d habits else [])).
Proof.
  intros habits stored st' created.
  assert (Hcreated : created = ensure habits stored dates)
    by apply createdByWeek_ensure.
  assert (Hmem : ∀ i, i ∈ created ↔
       ∃ d h, d ∈ dates ∧ dayInstances d stored = [] ∧ h ∈ habits
              ∧ dueOn d h = true ∧ i = newInstance d h).
  { intros i. rewrite Hcreated, elem_of_ensure.
    setoid_rewrite elem_of_createInstancesForDay. split.
    - intros (d & Hd & Hnil & h & -> & Hh & Hdue). by exists d, h.
    - intros (d & h & Hd & Hnil & Hh & Hdue & ->). exists d.
      split; [done|]. split; [done|]. by exists h. }
  split. { subst st' created. rewrite Hcreated. apply getWeekInstances_appends. }
  split. { apply getWeekInstances_other_keys. }
  split; [exact Hmem|].
  split.
  { intros i (d & h & _ & _ & _ & _ & ->)%Hmem. done. }
  intros Hnd. rewrite Hcreated. by apply ensure_distinct_dates.
Qed.

(** After the loop every requested date either has an instance or is a
    date on which no habit is due. *)
Lemma ensure_covered habits all dates d :
  d ∈ dates →
  dayInstances d (all ++ ensure habits all dates) ≠ []
  ∨ createInstancesForDay d habits = [].
Proof.
  revert all. induction dates as [|d0 ds IH]; intros all Hd.
  { by apply not_elem_of_nil in Hd. }
  cbn [ensure]. rewrite app_assoc.
  apply elem_of_cons in Hd as [->|Hd]; [|by apply IH].
  destruct (decide (createInstancesForDay d0 habits = [])) as [|Hne]; [by right|].
  left. rewrite !dayInstances_app. unfold createdFor.
  destruct (decide (dayInstances d0 all = [])) as [Hnil|Hsome].
  - rewrite dayInstances_created_same.
    intros [[_ ?]%app_eq_nil _]%app_eq_nil. done.
  - intros [[? _]%app_eq_nil _]%app_eq_nil. done.
Qed.

Lemma ensure_nil_of_covered habits all dates :
  (∀ d, d ∈ dates →
     dayInstances d all ≠ [] ∨ createInstancesForDay d habits = []) →
  ensure habits all dates = [].
Proof.
  intros Hcov. induction dates as [|d ds IH]; [done|].
  cbn [ensure].
  assert (Hc : createdFor habits all d = []).
  { unfold createdFor. case_decide; [|done].
    destruct (Hcov d) as [?|?]; [left|done|done]. }
  rewrite Hc, app_nil_r. simpl. apply IH.
  intros d' Hd'. apply Hcov. by right.
Qed.

(** C6.  A second [getWeekInstances] over the same dates, run on the store
    the first call left (the original instances followed by the ones the
    first call created), creates nothing and leaves the store as it is. *)
Theorem getWeekInstances_idempotent (todayStr1 todayStr2 : string)
    (dates : list string) (st : Store) :
  let st1 := (getWeekInstances todayStr1 dates st).1 in
  parseOr (INSTANCES st1)
    = parseOr (INSTANCES st) ++ createdByWeek todayStr1 dates st
  ∧ createdByWeek todayStr2 dates st1 = []
  ∧ (getWeekInstances todayStr2 dates st1).1 = st1.
Proof.
  intros st1.
  set (habits := parseOr (HABITS st)).
  set (all := parseOr (INSTANCES st)).
  set (all1 := all ++ ensure habits all dates).
  assert (Hall1 : parseOr (INSTANCES st1) = all1)
    by apply getWeekInstances_appends.
  assert (Hhabits : HABITS st1 = HABITS st)
    by apply getWeekInstances_other_keys.
  assert (Hnone : ensure habits all1 dates = []).
  { apply ensure_nil_of_covered. intros d Hd. by apply ensure_covered. }
  split. { rewrite Hall1. unfold all1. by rewrite createdByWeek_ensure. }
  split. { rewrite createdByWeek_ensure, Hhabits, Hall1. exact Hnone. }
  rewrite (getWeekInstances_store todayStr2 dates st1). cbv zeta.
  rewrite Hhabits, Hall1. fold habits. rewrite Hnone, app_nil_r.
  destruct ((0 <? length habits)%nat && anyEmptyDay habits all1 dates) eqn:Hc2;
    [|done].
  unfold st1 in *. rewrite getWeekInstances_store in *. cbv zeta in *.
  fold habits all in Hall1 |- *.
  destruct ((0 <? length habits)%nat && anyEmptyDay habits all dates) eqn:Hc1.
  - done.
  - exfalso.
    assert (Hens : ensure habits all dates = []).
    { apply andb_false_iff in Hc1 as [Hlen|Hany].
      - destruct habits; [apply ensure_no_habits|done].
      - by apply anyEmptyDay_false_ensure. }
    unfold all1 in Hc2. rewrite Hens, app_nil_r in Hc2. congruence.
Qed.

End WeekTheorems.

(** ** One instance per habit and date *)

Section InvariantFacts.
Context {rt : DateRuntime}.

Lemma NoDup_fmap_filter {A B} (f : A → B) (P : A → Prop) `{∀ x, Decision (P x)}
    (l : list A) :
  NoDup (f <$> l) → NoDup (f <$> filter P l).
Proof.
  induction l as [|x l IH]; [done|].
  rewrite fmap_cons, filter_cons. intros [Hx Hl]%NoDup_cons.
  destruct (decide (P x)); [|by apply IH].
  rewrite fmap_cons. apply NoDup_cons. split; [|by apply IH].
  intros (y & Hy & [_ Hin]%list_elem_of_filter)%list_elem_of_fmap.
  apply Hx. apply list_elem_of_fmap. by exists y.
Qed.

Lemma createInstancesForDay_inv d habits :
  NoDup (Habit.id <$> habits) → instancesInv (createInstancesForDay d habits).
Proof.
  intros Hnd. unfold createInstancesForDay. cbv zeta. split.
  - rewrite <- list_fmap_compose.
    change (instanceKey ∘ newInstance d) with ((λ x, (x, d)) ∘ Habit.id).
    rewrite list_fmap_compose.
    apply NoDup_fmap_2; [by intros ?? [= ?]|].
    by apply NoDup_fmap_filter.
  - apply Forall_fmap, Forall_forall. by intros h _.
Qed.

(** Appending instances of a date the list does not have yet. *)
Lemma instancesInv_app_day d all c :
  instancesInv all → dayInstances d all = [] →
  instancesInv c → (∀ i, i ∈ c → HabitInstance.date i = d) →
  instancesInv (all ++ c).
Proof.
  intros [Hnd Hid] Hnil [Hndc Hidc] Hdate. split.
  - rewrite fmap_app. apply NoDup_app. split; [done|]. split; [|done].
    intros key (i & -> & Hi)%list_elem_of_fmap (j & Hkey & Hj)%list_elem_of_fmap.
    rewrite dayInstances_nil_iff in Hnil.
    apply (Hnil i Hi). injection Hkey as _ ->. by apply Hdate.
  - by apply Forall_app.
Qed.

Lemma createdFor_inv habits all d :
  NoDup (Habit.id <$> habits) → instancesInv all →
  instancesInv (all ++ createdFor habits all d).
Proof.
  intros Hnd Hinv. unfold createdFor. case_decide as Hnil.
  - eapply instancesInv_app_day; [done|exact Hnil| |].
    + by apply createInstancesForDay_inv.
    + intros i. apply createInstancesForDay_date.
  - by rewrite app_nil_r.
Qed.

Lemma ensure_inv habits all dates :
  NoDup (Habit.id <$> habits) → instancesInv all →
  instancesInv (all ++ ensure habits all dates).
Proof.
  intros Hnd. revert all. induction dates as [|d ds IH]; intros all Hinv.
  - by rewrite app_nil_r.
  - cbn [ensure]. rewrite app_assoc. apply IH. by apply createdFor_inv.
Qed.

Lemma simulatePast_cons e k i r :
  (simulatePast e k (i :: r)).1
  = (if draw e k then
       HabitInstance.mk (HabitInstance.id i) (HabitInstance.habitId i)
         (HabitInstance.date i) true (Some (clock e k)) (HabitInstance.value i)
     else i) :: (simulatePast e (S k) r).1.
Proof. cbn [simulatePast]. by destruct (simulatePast e (S k) r). Qed.

(** The simulated past activity touches neither habit, date nor identifier. *)
Lemma simulatePast_keys e k l :
  instanceKey <$> (simulatePast e k l).1 = instanceKey <$> l
  ∧ (Forall compositeId l → Forall compositeId (simulatePast e k l).1)
  ∧ HabitInstance.date <$> (simulatePast e k l).1 = HabitInstance.date <$> l.
Proof.
  revert k. induction l as [|i r IH]; intros k; [done|].
  rewrite simulatePast_cons. destruct (IH (S k)) as (Hk & Hc & Hd).
  rewrite !fmap_cons, Hk, Hd.
  split; [by destruct (draw e k)|].
  split; [|by destruct (draw e k)].
  intros [Hi Hr']%Forall_cons. constructor; [|by apply Hc].
  by destruct (draw e k).
Qed.

Lemma simulatePast_inv e k l :
  instancesInv l → instancesInv (simulatePast e k l).1.
Proof.
  intros [Hnd Hid]. destruct (simulatePast_keys e k l) as (Hk & Hc & _).
  split; [by rewrite Hk|by apply Hc].
Qed.

Lemma simulatePast_date e k l d i :
  (∀ j, j ∈ l → HabitInstance.date j = d) →
  i ∈ (simulatePast e k l).1 → HabitInstance.date i = d.
Proof.
  intros Hl Hi. destruct (simulatePast_keys e k l) as (_ & _ & Hd).
  assert (Hin : HabitInstance.date i ∈ HabitInstance.date <$> (simulatePast e k l).1)
    by (apply list_elem_of_fmap; by exists i).
  rewrite Hd in Hin. apply list_elem_of_fmap in Hin as (j & -> & Hj). by apply Hl.
Qed.

Lemma seedStep_inv dayString e habits acc i :
  NoDup (Habit.id <$> habits) → instancesInv acc.1 →
  instancesInv (seedStep dayString e habits acc i).1.
Proof.
  intros Hnd Hinv. destruct acc as [all k]. unfold seedStep. simpl in *.
  rewrite length_zero_nil. case_bool_decide as Hnil; [|done].
  destruct (i <? 0).
  - pose proof (simulatePast_inv e k (createInstancesForDay (dayString i) habits)
                  (createInstancesForDay_inv _ _ Hnd)) as Hsim.
    pose proof (simulatePast_date e k (createInstancesForDay (dayString i) habits)
                  (dayString i)) as Hdate.
    destruct (simulatePast e k _) as [c k']. simpl in *.
    eapply instancesInv_app_day; [done|exact Hnil|done|].
    intros j. apply Hdate. intros j'. apply createInstancesForDay_date.
  - simpl. eapply instancesInv_app_day; [done|exact Hnil| |].
    + by apply createInstancesForDay_inv.
    + intros j. apply createInstancesForDay_date.
Qed.

Lemma foldl_seedStep_inv dayString e habits offsets acc :
  NoDup (Habit.id <$> habits) → instancesInv acc.1 →
  instancesInv (foldl (seedStep dayString e habits) acc offsets).1.
Proof.
  intros Hnd. revert acc. induction offsets as [|i rest IH]; intros acc Hinv; [done|].
  cbn [foldl]. apply IH. by apply seedStep_inv.
Qed.

(** C7 (amended).  Lazy creation in [getWeekInstances] and the onboarding
    seed [seedInstancesForWeek] keep the invariant "at most one instance per
    (habitId, date), each with identifier [date_habitId]", provided the
    habits they create instances for have pairwise-distinct identifiers. *)
Theorem instance_creation_preserves_invariant (st : Store) :
  storeInv st →
  (∀ todayStr dates,
     NoDup (Habit.id <$> parseOr (HABITS st)) →
     storeInv (getWeekInstances todayStr dates st).1)
  ∧ (∀ dayString e habits,
     NoDup (Habit.id <$> habits) →
     storeInv (seedInstancesForWeek dayString e habits st)).
Proof.
  intros Hinv. split.
  - intros todayStr dates Hnd. unfold storeInv.
    rewrite getWeekInstances_appends. by apply ensure_inv.
  - intros dayString e habits Hnd. unfold storeInv, seedInstancesForWeek. cbv zeta.
    pose proof (foldl_seedStep_inv dayString e habits (seqZ (-14) 18)
                  (parseOr (INSTANCES st), 0%nat) Hnd Hinv) as Hfold.
    destruct (foldl _ _ _) as [all k]. done.
Qed.

End InvariantFacts.

(** ** Completion toggle *)

Section UpdateFacts.

(** A missing identifier (or a missing key) leaves the store as it is. *)
Lemma updateInstanceStatus_missing now instanceId completed value st :
  (∀ i, i ∈ parseOr (INSTANCES st) → HabitInstance.id i ≠ instanceId) →
  updateInstanceStatus now instanceId completed value st = st.
Proof.
  intros Hmiss. unfold updateInstanceStatus.
  destruct (INSTANCES st) as [instances|] eqn:Hst; [|done].
  simpl in Hmiss.
  destruct (list_find _ instances) as [[idx inst]|] eqn:Hfind; [|done].
  apply list_find_Some in Hfind as (Hlook & Hid & _).
  exfalso. apply (Hmiss inst); [|done].
  by eapply list_elem_of_lookup_2.
Qed.

(** The first instance with the identifier is rewritten in place; every
    other position and every other key of the store is left alone. *)
Lemma updateInstanceStatus_found now instanceId completed value st instances idx inst :
  INSTANCES st = Some instances →
  instances !! idx = Some inst →
  HabitInstance.id inst = instanceId →
  (∀ j y, instances !! j = Some y → (j < idx)%nat → HabitInstance.id y ≠ instanceId) →
  updateInstanceStatus now instanceId completed value st
  = setInstances st (<[idx := toggled now completed value inst]> instances).
Proof.
  intros Hst Hlook Hid Hfirst. unfold updateInstanceStatus. rewrite Hst.
  assert (Hfind : list_find (λ i, HabitInstance.id i = instanceId) instances
                  = Some (idx, inst)) by (by apply list_find_Some).
  by rewrite Hfind.
Qed.

(** C8 (defect).  [updateInstanceStatus(id, false)] on a completed instance
    clears the flag and leaves the completion timestamp in place. *)
Theorem updateInstanceStatus_uncheck_keeps_timestamp :
  INSTANCES (updateInstanceStatus "2024-01-09T10:00:00.000Z" "2024-01-08_h1"
               false None checkedStore)
  = Some [HabitInstance.mk "2024-01-08_h1" "h1" "2024-01-08" false
            (Some "2024-01-08T07:30:00.000Z") None].
Proof. reflexivity. Qed.

End UpdateFacts.

(** ** Project progress *)

Section ProjectFacts.

(** [updateProjectProgress] brings the first project with the identifier
    up to date and touches nothing else (for a task list shorter than
    [2 ^ 32], as every array is). *)
Lemma updateProjectProgress_found projectId st idx p :
  getProjects st !! idx = Some p →
  Project.id p = projectId →
  (∀ j y, getProjects st !! j = Some y → (j < idx)%nat → Project.id y ≠ projectId) →
  ∃ p', updateProjectProgress projectId st
        = setProjects st (<[idx := p']> (getProjects st))
      ∧ Project.id p' = projectId ∧ Project.name p' = Project.name p
      ∧ (Z.of_nat (length (memberTasks projectId st)) < 2 ^ 32 →
         upToDate (updateProjectProgress projectId st) p').
Proof.
  intros Hlook <- Hfirst. unfold updateProjectProgress. cbv zeta.
  assert (Hfind : list_find (λ q, Project.id q = Project.id p) (getProjects st)
                  = Some (idx, p)) by (by apply list_find_Some).
  rewrite Hfind. eexists. split; [done|]. split; [done|]. split; [done|].
  intros Hsize.
  unfold upToDate, expectedProgress, memberTasks. simpl.
  split; [done|].
  set (prog := progressOf _ _).
  assert (Hle : prog <= 100).
  { apply progressOf_le_100; [apply length_filter|].
    unfold memberTasks in Hsize. lia. }
  destruct (Z.eqb_spec prog 100) as [->|Hne]; [done|].
  split; [|done].
  case_bool_decide as Hs; simpl.
  - destruct (Z.ltb_spec prog 100); [done|lia].
  - done.
Qed.

Lemma truthy_nonempty pid : pid ≠ "" → truthy (Some pid) = Some pid.
Proof. intros Hne. simpl. by destruct (String.eqb_spec pid ""). Qed.

(** The project a task names, when stored, is up to date after the
    recomputation the three task operations end with. *)
Lemma recomputeIfLinked_upToDate pid st idx p :
  Z.of_nat (length (getTasks st)) < 2 ^ 32 →
  pid ≠ "" →
  getProjects st !! idx = Some p →
  Project.id p = pid →
  (∀ j y, getProjects st !! j = Some y → (j < idx)%nat → Project.id y ≠ pid) →
  ∃ p', getProjects (recomputeIfLinked (Some pid) st) !! idx = Some p'
        ∧ Project.id p' = pid
        ∧ upToDate (recomputeIfLinked (Some pid) st) p'.
Proof.
  intros Hsize Hne Hlook Hid Hfirst. unfold recomputeIfLinked.
  rewrite truthy_nonempty by done.
  destruct (updateProjectProgress_found pid st idx p Hlook Hid Hfirst)
    as (p' & Hst & Hid' & _ & Hup).
  assert (Hmem : Z.of_nat (length (memberTasks pid st)) < 2 ^ 32).
  { pose proof (length_filter (λ t, Task.projectId t = Some pid) (getTasks st)).
    unfold memberTasks. lia. }
  specialize (Hup Hmem).
  exists p'. split; [|done].
  rewrite Hst. unfold getProjects at 1. simpl.
  apply list_lookup_insert_eq. by eapply lookup_lt_Some.
Qed.

Lemma addTask_recomputes task pid st idx p :
  Z.of_nat (length (getTasks st)) + 1 < 2 ^ 32 →
  Task.projectId task = Some pid → pid ≠ "" →
  getProjects st !! idx = Some p →
  Project.id p = pid →
  (∀ j y, getProjects st !! j = Some y → (j < idx)%nat → Project.id y ≠ pid) →
  ∃ p', getProjects (addTask task st) !! idx = Some p'
        ∧ Project.id p' = pid ∧ upToDate (addTask task st) p'.
Proof.
  intros Hsize Hpid Hne Hlook Hid Hfirst. unfold addTask. cbv zeta. rewrite Hpid.
  apply (recomputeIfLinked_upToDate pid _ idx p); try done.
  replace (getTasks (setTasks st (getTasks st ++ [task])))
    with (getTasks st ++ [task]) by done.
  rewrite length_app. simpl. lia.
Qed.

Lemma updateTask_recomputes taskId updates st k t pid idx p :
  Z.of_nat (length (getTasks st)) < 2 ^ 32 →
  list_find (λ t, Task.id t = taskId) (getTasks st) = Some (k, t) →
  Task.projectId (applyUpdates t updates) = Some pid → pid ≠ "" →
  getProjects st !! idx = Some p →
  Project.id p = pid →
  (∀ j y, getProjects st !! j = Some y → (j < idx)%nat → Project.id y ≠ pid) →
  ∃ p', getProjects (updateTask taskId updates st) !! idx = Some p'
        ∧ Project.id p' = pid ∧ upToDate (updateTask taskId updates st) p'.
Proof.
  intros Hsize Hfind Hpid Hne Hlook Hid Hfirst. unfold updateTask. cbv zeta.
  rewrite Hfind, Hpid.
  apply (recomputeIfLinked_upToDate pid _ idx p); try done.
  match goal with
  | |- context [getTasks (setTasks st ?l)] =>
      replace (getTasks (setTasks st l)) with l by done
  end.
  by rewrite length_insert.
Qed.

Lemma deleteTask_recomputes taskId st k t pid idx p :
  Z.of_nat (length (getTasks st)) < 2 ^ 32 →
  list_find (λ t, Task.id t = taskId) (getTasks st) = Some (k, t) →
  Task.projectId t = Some pid → pid ≠ "" →
  getProjects st !! idx = Some p →
  Project.id p = pid →
  (∀ j y, getProjects st !! j = Some y → (j < idx)%nat → Project.id y ≠ pid) →
  ∃ p', getProjects (deleteTask taskId st) !! idx = Some p'
        ∧ Project.id p' = pid ∧ upToDate (deleteTask taskId st) p'.
Proof.
  intros Hsize Hfind Hpid Hne Hlook Hid Hfirst. unfold deleteTask. cbv zeta.
  rewrite Hfind. simpl. rewrite Hpid.
  apply (recomputeIfLinked_upToDate pid _ idx p); try done.
  match goal with
  | |- context [getTasks (setTasks st ?l)] =>
      replace (getTasks (setTasks st l)) with l by done
  end.
  pose proof (length_filter (λ t, Task.id t ≠ taskId) (getTasks st)). lia.
Qed.

(** C10 (defect).  Moving the only task of project [pA] to project [pB]
    recomputes [pB] and leaves [pA] at progress 100, status completed,
    although [pA] has no member task left. *)
Theorem updateTask_move_leaves_old_project_stale :
  let st := updateTask "t1" moveToBeta movedStore in
  memberTasks "pA" st = []
  ∧ expectedProgress "pA" st = 0
  ∧ PROJECTS st
    = Some [Project.mk "pA" "Alpha" 100 ProjectStatus.completed;
            Project.mk "pB" "Beta" 100 ProjectStatus.completed].
Proof. vm_compute. done. Qed.

Example project_three_of_four :
  PROJECTS fourTasks = Some [Project.mk "p1" "Launch" 75 ProjectStatus.active].
Proof. vm_compute. done. Qed.

Example project_four_of_four :
  PROJECTS (updateTask "t4" (TaskUpdates.mk None None None (Some true)) fourTasks)
  = Some [Project.mk "p1" "Launch" 100 ProjectStatus.completed].
Proof. vm_compute. done. Qed.

End ProjectFacts.

(** ** Suggestions *)

Section SuggestFacts.

Lemma findById_None hid l :
  findById hid l = None ↔ hid ∉ Habit.id <$> l.
Proof.
  unfold findById. rewrite fmap_None, list_find_None, Forall_forall.
  rewrite list_elem_of_fmap. split.
  - intros Hall (h & -> & Hh). by apply (Hall h).
  - intros Hno h Hh Hid. apply Hno. by exists h.
Qed.

Lemma NoDup_fmap_inj {A B} (f : A → B) (l : list A) x y :
  NoDup (f <$> l) → x ∈ l → y ∈ l → f x = f y → x = y.
Proof.
  induction l as [|a l IH]; [by intros _ ?%not_elem_of_nil|].
  rewrite fmap_cons. intros [Ha Hl]%NoDup_cons Hx Hy Hf.
  apply elem_of_cons in Hx as [->|Hx]; apply elem_of_cons in Hy as [->|Hy].
  - done.
  - exfalso. apply Ha. rewrite Hf. apply list_elem_of_fmap. by exists y.
  - exfalso. apply Ha. rewrite <- Hf. apply list_elem_of_fmap. by exists x.
  - by apply IH.
Qed.

(** Walking the candidates one by one adds the first unmatched ones. *)
Lemma backfill_take n matched selected candidates :
  NoDup (Habit.id <$> candidates) →
  (∀ c, c ∈ candidates → c ∈ selected ↔ Habit.id c ∈ Habit.id <$> matched) →
  backfill n selected candidates
  = selected ++ take (n - length selected) (filter (unmatched matched) candidates).
Proof.
  revert selected. induction candidates as [|c cs IH]; intros selected Hnd Hsel.
  { cbn [backfill]. by rewrite filter_nil, take_nil, app_nil_r. }
  rewrite fmap_cons in Hnd. apply NoDup_cons in Hnd as [Hc Hnd].
  cbn [backfill]. destruct (decide (n ≤ length selected)%nat) as [Hfull|Hroom].
  { replace (n - length selected)%nat with 0%nat by lia.
    by rewrite take_0, app_nil_r. }
  rewrite filter_cons.
  destruct (decide (c ∈ selected)) as [Hin|Hout].
  - rewrite decide_False.
    2:{ unfold unmatched. rewrite findById_None.
        intros Hno. apply Hno. apply Hsel; [left|done]. }
    apply IH; [done|]. intros c' Hc'. apply Hsel. by right.
  - rewrite decide_True.
    2:{ unfold unmatched. apply findById_None.
        intros Hyes. apply Hout. apply Hsel; [left|done]. }
    rewrite IH; [|done|].
    + rewrite length_app. simpl.
      replace (n - length selected)%nat with (S (n - (length selected + 1)))%nat by lia.
      by rewrite <- app_assoc.
    + intros c' Hc'. rewrite elem_of_app, list_elem_of_singleton.
      rewrite <- (Hsel c') by (by right). split; [|by left].
      intros [?| ->]; [done|].
      exfalso. apply Hc. apply list_elem_of_fmap. by exists c.
Qed.

(** The code's two filters and slice compute the spec's walk. *)
Lemma suggestFrom_spec catalog interests :
  NoDup (Habit.id <$> catalog) →
  suggestFrom catalog interests = specSuggest 5 catalog interests.
Proof.
  intros Hnd. unfold suggestFrom, specSuggest. cbv zeta.
  set (matched := filter (λ h, Habit.interest h ∈ interests) catalog).
  rewrite (backfill_take 5 matched matched catalog Hnd).
  2:{ intros c Hc. split.
      - intros Hin. apply list_elem_of_fmap. by exists c.
      - intros (m & Hid & Hm)%list_elem_of_fmap.
        assert (c = m) as ->; [|done].
        apply (NoDup_fmap_inj Habit.id catalog); [done|done| |done].
        by apply list_elem_of_filter in Hm as [_ ?]. }
  destruct (Nat.ltb_spec (length matched) 5) as [Hlt|Hge]; [done|].
  replace (5 - length matched)%nat with 0%nat by lia.
  by rewrite take_0, app_nil_r.
Qed.

(** No identifier is suggested twice. *)
Lemma suggestFrom_NoDup catalog interests :
  NoDup (Habit.id <$> catalog) →
  NoDup (Habit.id <$> suggestFrom catalog interests).
Proof.
  intros Hnd. unfold suggestFrom. cbv zeta.
  set (matched := filter (λ h, Habit.interest h ∈ interests) catalog).
  rewrite fmap_take. eapply sublist_NoDup; [|apply sublist_take].
  assert (Hm : NoDup (Habit.id <$> matched)) by (by apply NoDup_fmap_filter).
  destruct (length matched <? 5)%nat; [|done].
  rewrite fmap_app. apply NoDup_app. split; [done|]. split.
  - intros hid Hin (h & -> & Hh)%list_elem_of_fmap.
    pose proof (elem_of_sublist _ _ _ Hh (sublist_take _ _)) as Hf.
    clear Hh. rename Hf into Hh.
    apply list_elem_of_filter in Hh as [Hun _].
    by apply findById_None in Hun.
  - rewrite fmap_take. eapply sublist_NoDup; [|apply sublist_take].
    by apply NoDup_fmap_filter.
Qed.

Lemma filter_ext_elem_of {A} (P Q : A → Prop) `{∀ x, Decision (P x)}
    `{∀ x, Decision (Q x)} (l : list A) :
  (∀ x, x ∈ l → P x ↔ Q x) → filter P l = filter Q l.
Proof.
  induction l as [|a l IH]; intros Hext; [done|].
  rewrite !filter_cons.
  assert (Hl : filter P l = filter Q l).
  { apply IH. intros x Hx. apply Hext. by right. }
  destruct (decide (P a)) as [Hp|Hp], (decide (Q a)) as [Hq|Hq].
  - by rewrite Hl.
  - exfalso. apply Hq, (Hext a); [left|done].
  - exfalso. apply Hp, (Hext a); [left|done].
  - done.
Qed.

(** The backfill candidates are the catalog entries that did not match. *)
Lemma unmatched_complement catalog (interests : list InterestType) :
  NoDup (Habit.id <$> catalog) →
  filter (λ h, findById (Habit.id h)
                 (filter (λ h, Habit.interest h ∈ interests) catalog) = None)
         catalog
  = filter (λ h, ¬ Habit.interest h ∈ interests) catalog.
Proof.
  intros Hnd. apply filter_ext_elem_of. intros h Hh.
  rewrite findById_None, list_elem_of_fmap. split.
  - intros Hno Hint. apply Hno. exists h. split; [done|].
    by apply list_elem_of_filter.
  - intros Hint (m & Hid & [Hm Hin]%list_elem_of_filter).
    apply Hint.
    by rewrite (NoDup_fmap_inj Habit.id catalog h m Hnd Hh Hin Hid).
Qed.

(** Five suggestions, or the whole catalog when it is shorter. *)
Lemma suggestFrom_length catalog (interests : list InterestType) :
  NoDup (Habit.id <$> catalog) →
  length (suggestFrom catalog interests) = (5 `min` length catalog)%nat.
Proof.
  intros Hnd. unfold suggestFrom. cbv zeta.
  pose proof (filter_app_complement (λ h, Habit.interest h ∈ interests) catalog)
    as Hperm.
  apply Permutation_length in Hperm. rewrite length_app in Hperm.
  set (matched := filter (λ h, Habit.interest h ∈ interests) catalog) in *.
  set (others := filter (λ h, ¬ Habit.interest h ∈ interests) catalog) in *.
  match goal with
  | |- context [take (5 - length matched) ?U] => set (candidates := U)
  end.
  assert (Hcand : candidates = others)
    by (by apply unmatched_complement).
  rewrite Hcand. clear Hcand candidates.
  destruct (Nat.ltb_spec (length matched) 5) as [Hlt|Hge].
  - rewrite length_take, length_app, length_take. lia.
  - rewrite length_take. lia.
Qed.

(** C9.  [getSuggestions] returns the catalog habits with a requested
    interest in catalog order, backfilled in catalog order with habits not
    yet selected until five are reached, and cut to five; it is a function
    of the interests alone and never suggests an identifier twice.  For
    [HEALTH] alone it returns the one HEALTH habit followed by the four
    others, five in all. *)
Theorem getSuggestions_spec (interests : list InterestType) :
  getSuggestions interests = specSuggest 5 SUGGESTED_HABITS interests
  ∧ NoDup (Habit.id <$> getSuggestions interests)
  ∧ length (getSuggestions interests) = 5%nat
  ∧ (∃ backfilled,
       getSuggestions interests
       = filter (λ h, Habit.interest h ∈ interests) SUGGESTED_HABITS ++ backfilled
       ∧ backfilled `sublist_of` SUGGESTED_HABITS)
  ∧ filter (λ h, Habit.interest h ∈ [HEALTH]) SUGGESTED_HABITS
    = take 1 SUGGESTED_HABITS
  ∧ getSuggestions [HEALTH] = SUGGESTED_HABITS
  ∧ length (getSuggestions [HEALTH]) = 5%nat.
Proof.
  assert (Hnd : NoDup (Habit.id <$> SUGGESTED_HABITS)).
  { apply (bool_decide_unpack _). by vm_compute. }
  split; [by apply suggestFrom_spec|].
  split; [by apply suggestFrom_NoDup|].
  split.
  { unfold getSuggestions. by rewrite suggestFrom_length. }
  split.
  { unfold getSuggestions, suggestFrom. cbv zeta.
    set (matched := filter (λ h, Habit.interest h ∈ interests) SUGGESTED_HABITS).
    assert (Hlen : (length matched ≤ 5)%nat).
    { etransitivity; [apply length_filter|done]. }
    destruct (Nat.ltb_spec (length matched) 5) as [Hlt|Hge].
    - rewrite take_app_ge by lia. eexists. split; [done|].
      etransitivity; [apply sublist_take|].
      etransitivity; [apply sublist_take|]. apply sublist_filter.
    - exists []. rewrite app_nil_r. split; [|apply sublist_nil_l].
      apply take_ge. lia. }
  split; [done|]. split; done.
Qed.

End SuggestFacts.

(** * Concrete runs (UTC runtime) *)

Section Runs.

Lemma gappedSorted_descending : descending gappedSorted.
Proof.
  unfold descending, gappedSorted.
  repeat constructor; vm_compute; intros H; discriminate H.
Defined.

Lemma getHabitStreak_leading_run_witness :
  getHabitStreak "2024-01-20" gappedHistory = 2%nat
  ∧ (∀ newest rest, gappedSorted = newest :: rest →
       HabitInstance.completed newest = false →
       getHabitStreak "2024-01-20" gappedHistory = 0%nat).
Proof.
  apply (getHabitStreak_leading_run "2024-01-20" gappedHistory gappedSorted).
  - apply (bool_decide_unpack _). by vm_compute.
  - apply (bool_decide_unpack _). by vm_compute.
  - apply (bool_decide_unpack _). by vm_compute.
  - exact gappedSorted_descending.
Defined.

Lemma getHabitStreak_append_open_today_witness :
  getHabitStreak "2024-01-20" (gappedHistory ++ [run "2024-01-20" false])
  = getHabitStreak "2024-01-20" gappedHistory.
Proof.
  apply (getHabitStreak_append_open_today "2024-01-20" gappedHistory
           (run "2024-01-20" false)).
  - apply (bool_decide_unpack _). by vm_compute.
  - reflexivity.
  - reflexivity.
Defined.

(** C3 (as stated, refuted).  Twenty instances, nine of them completed,
    the newest open and not dated today: the exact blend is 31.5, which
    rounds to 32, and the code returns 31, because [45 * 0.7] is
    [31.499999999999996] in doubles. *)
Lemma calculateHabitStrength_tie_counterexample :
  length tieHistory = 20%nat
  ∧ length (filter (λ i, HabitInstance.completed i) tieHistory) = 9%nat
  ∧ getHabitStreak "2024-01-22" tieHistory = 0%nat
  ∧ specScore 9 20 0 = 32
  ∧ calculateHabitStrength "2024-01-22" morningRun tieHistory = 31
  ∧ calculateHabitStrength "2024-01-22" morningRun tieHistory
    ≠ specScore (length (filter (λ i, HabitInstance.completed i) tieHistory))
                (length tieHistory) (getHabitStreak "2024-01-22" tieHistory).
Proof.
  repeat split; by vm_compute.
Qed.

Lemma calculateHabitStrength_spec_witness :
  0 <= calculateHabitStrength "2024-01-22" morningRun fullHistory <= 100
  ∧ calculateHabitStrength "2024-01-22" morningRun fullHistory
    = specScore 21 21 21
  ∧ streakBonus (getHabitStreak "2024-01-22" fullHistory) = numberOfZ 100.
Proof.
  destruct (calculateHabitStrength_spec "2024-01-22" morningRun
              fullHistory) as (_ & _ & Hscore & Hbonus).
  destruct Hscore as [Hrange Hspec]; [by vm_compute|].
  destruct Hspec as [Hexact _]; [discriminate|].
  split; [exact Hrange|]. split.
  - apply Hexact. unfold halfway. intros H. vm_compute in H. discriminate H.
  - apply Hbonus. apply (bool_decide_unpack _). by vm_compute.
Defined.

(** The literals are the correctly rounded quotients, and [45 * 0.7] falls
    below 31.5. *)
Example double_literals :
  zeroPointSeven = fdiv (numberOfZ 7) (numberOfZ 10)
  ∧ zeroPointThree = fdiv (numberOfZ 3) (numberOfZ 10)
  ∧ (valueOf (fmul (numberOfZ 45) zeroPointSeven) < 63 # 2)%Q
  ∧ (valueOf (fmul (numberOfZ 45) zeroPointSeven) > (63 # 2) - (1 # 100000000000000))%Q.
Proof. repeat split; by vm_compute. Qed.

(** At the tie the amended statement allows the value the code returns. *)
Example tieHistory_halfway : halfway (specBlend 9 20 0).
Proof. by vm_compute. Qed.

Example fullHistory_score :
  calculateHabitStrength "2024-01-22" morningRun fullHistory = 100.
Proof. by vm_compute. Qed.

Example gappedHistory_score :
  calculateHabitStrength "2024-01-20" morningRun gappedHistory = 50.
Proof. by vm_compute. Qed.

(** Five days done in a row, the sixth and oldest open: a streak of 5. *)
Example five_day_streak :
  getHabitStreak "2024-01-20"
    [run "2024-01-14" false; run "2024-01-15" true; run "2024-01-16" true;
     run "2024-01-17" true; run "2024-01-18" true; run "2024-01-19" true]
  = 5%nat.
Proof. by vm_compute. Qed.

(** 2024-01-06 is a Saturday: of a DAILY and a WEEKDAYS habit only the
    first is due. *)
Lemma createInstancesForDay_schedule_witness :
  filter (λ x, dueOn "2024-01-06" x) [morningRun; marketAnalysis] = [morningRun]
  ∧ createInstancesForDay "2024-01-06" [morningRun; marketAnalysis]
    = [newInstance "2024-01-06" morningRun].
Proof.
  destruct (createInstancesForDay_schedule "2024-01-06" morningRun
              [morningRun; marketAnalysis]) as (_ & _ & _ & _ & _ & Hsat).
  apply (Hsat morningRun marketAnalysis); reflexivity.
Defined.

(** C4 (defect).  2024-01-06 is a Saturday.  Five hours west of UTC the
    runtime reports Friday for the string, so the WEEKDAYS habit gets an
    instance on that Saturday; and it reports Sunday for Monday 2024-01-08,
    so the WEEKDAYS habit gets none on that Monday. *)
Theorem createInstancesForDay_west_of_utc :
  UTC.day "2024-01-06" = 6
  ∧ @getDay newYork "2024-01-06" = 5
  ∧ @createInstancesForDay newYork "2024-01-06" [morningRun; marketAnalysis]
    = [newInstance "2024-01-06" morningRun; newInstance "2024-01-06" marketAnalysis]
  ∧ UTC.day "2024-01-08" = 1
  ∧ @getDay newYork "2024-01-08" = 0
  ∧ @createInstancesForDay newYork "2024-01-08" [morningRun; marketAnalysis]
    = [newInstance "2024-01-08" morningRun].
Proof. repeat split; by vm_compute. Qed.

(** C5 (defect).  On [partialStore] the habit [h4] is due on 2024-01-08
    and has no instance there, yet [getWeekInstances] creates nothing for
    that date: creation is guarded by date, not by date and habit. *)
Lemma getWeekInstances_partial_day_counterexample :
  ¬ createsExactlyMissing "2024-01-10" ["2024-01-08"] partialStore.
Proof.
  intros Hclaim.
  destruct (Hclaim (newInstance "2024-01-08" readChapter)) as [_ Hback].
  assert (Hin : newInstance "2024-01-08" readChapter
                ∈ createdByWeek "2024-01-10" ["2024-01-08"] partialStore).
  { apply Hback. exists "2024-01-08", readChapter.
    split; [left|]. split; [right; left|]. split; [reflexivity|].
    split; [|reflexivity].
    intros j Hj [_ Hh]. apply list_elem_of_singleton in Hj. subst j.
    discriminate Hh. }
  assert (Hnone : createdByWeek "2024-01-10" ["2024-01-08"] partialStore = [])
    by (by vm_compute).
  rewrite Hnone in Hin. by apply not_elem_of_nil in Hin.
Qed.

Lemma getWeekInstances_creates_whole_days_witness :
  createdByWeek "2024-01-10" ["2024-01-08"; "2024-01-09"] partialStore
  = [newInstance "2024-01-09" morningRun; newInstance "2024-01-09" readChapter].
Proof.
  destruct (getWeekInstances_creates_whole_days "2024-01-10"
              ["2024-01-08"; "2024-01-09"] partialStore)
    as (_ & _ & _ & _ & Hlist).
  rewrite Hlist.
  - by vm_compute.
  - apply (bool_decide_unpack _). by vm_compute.
Defined.

Example getWeekInstances_twice :
  let st1 := (getWeekInstances "2024-01-10" ["2024-01-08"; "2024-01-09"] partialStore).1 in
  INSTANCES st1
  = Some [run "2024-01-08" false;
          newInstance "2024-01-09" morningRun; newInstance "2024-01-09" readChapter]
  ∧ (getWeekInstances "2024-01-11" ["2024-01-08"; "2024-01-09"] st1).1 = st1.
Proof. by vm_compute. Qed.

(** C7 (as stated, refuted).  From the empty instance set, which satisfies
    the invariant, [getWeekInstances] over [duplicateHabits] stores two
    instances for ([h1], 2024-01-08). *)
Lemma getWeekInstances_duplicate_habits_counterexample :
  ¬ preservesInvariant (λ st, (getWeekInstances "2024-01-10" ["2024-01-08"] st).1).
Proof.
  intros Hpres. specialize (Hpres duplicateHabits).
  assert (Hinv : storeInv duplicateHabits).
  { apply (bool_decide_unpack _). by vm_compute. }
  apply Hpres in Hinv. revert Hinv.
  apply (bool_decide_unpack _). by vm_compute.
Qed.

Lemma instance_creation_preserves_invariant_witness :
  storeInv (getWeekInstances "2024-01-10" ["2024-01-08"; "2024-01-09"] seededStore).1
  ∧ storeInv (seedInstancesForWeek dayString15 evenDraws
                [morningRun; marketAnalysis] seededStore).
Proof.
  assert (Hinv : storeInv seededStore).
  { apply (bool_decide_unpack _). by vm_compute. }
  destruct (instance_creation_preserves_invariant seededStore Hinv) as [Hweek Hseed].
  split.
  - apply Hweek. apply (bool_decide_unpack _). by vm_compute.
  - apply Hseed. apply (bool_decide_unpack _). by vm_compute.
Defined.

Example seed_first_days :
  take 3 (parseOr (INSTANCES (seedInstancesForWeek dayString15 evenDraws
                                [morningRun; marketAnalysis] seededStore)))
  = [run "2024-01-08" true;
     HabitInstance.mk "2024-01-01_h1" "h1" "2024-01-01" true
       (Some "2024-01-15T08:00:00.000Z") None;
     HabitInstance.mk "2024-01-01_h2" "h2" "2024-01-01" false None None].
Proof. by vm_compute. Qed.

End Runs.

(** * Further properties *)

(** ** Streak and strength *)

Section MoreStreakFacts.
Context {rt : DateRuntime}.

Lemma streakLoop_le_completed todayStr l :
  (streakLoop todayStr l 0
   ≤ length (filter (λ i, HabitInstance.completed i) l))%nat.
Proof.
  induction l as [|i r IH]; simpl; [done|].
  rewrite filter_cons.
  destruct (HabitInstance.completed i) eqn:Hc; simpl.
  - rewrite streakLoop_acc. simpl. lia.
  - destruct (String.eqb _ _); [done|lia].
Qed.

(** The content of the next theorem, in the form the later proofs use. *)
Lemma streak_le_completed_count (todayStr : string)
    (instances : list HabitInstance.t) :
  (getHabitStreak todayStr instances
   ≤ length (filter (λ i, HabitInstance.completed i) instances))%nat
  ∧ (getHabitStreak todayStr instances ≤ length instances)%nat.
Proof.
  assert (H : (getHabitStreak todayStr instances
     ≤ length (filter (λ i, HabitInstance.completed i) instances))%nat).
  { unfold getHabitStreak. cbv zeta.
    rewrite <- sortDesc_completed_count. apply streakLoop_le_completed. }
  split; [done|].
  etransitivity; [exact H|apply length_filter].
Qed.

(** X1.  The streak never exceeds the number of completed instances, nor
    the number of instances. *)
Theorem getHabitStreak_le_completed (todayStr : string)
    (instances : list HabitInstance.t) :
  (getHabitStreak todayStr instances
   ≤ length (filter (λ i, HabitInstance.completed i) instances))%nat
  ∧ (getHabitStreak todayStr instances ≤ length instances)%nat.
Proof. apply streak_le_completed_count. Qed.

(** X2.  With pairwise-distinct timestamps the streak and the strength
    score do not depend on the order in which the instances are stored. *)
Theorem streak_and_strength_order_independent (todayStr : string)
    (habit : Habit.t) (l l' : list HabitInstance.t) :
  l ≡ₚ l' → NoDup (timeOf <$> l) →
  getHabitStreak todayStr l = getHabitStreak todayStr l'
  ∧ calculateHabitStrength todayStr habit l
    = calculateHabitStrength todayStr habit l'.
Proof.
  intros Hperm Hnd.
  unfold getHabitStreak, calculateHabitStrength. cbv zeta.
  by rewrite (sortDesc_permutation l l' Hperm Hnd).
Qed.

Lemma streakLoop_zero_of_barrier todayStr s x :
  descending s → x ∈ s →
  HabitInstance.completed x = false → HabitInstance.date x ≠ todayStr →
  (∀ c, c ∈ s → HabitInstance.completed c = true → timeOf c < timeOf x) →
  streakLoop todayStr s 0 = 0%nat.
Proof.
  unfold descending. intros Hs. revert x.
  induction Hs as [|a r Hr IH Ha]; intros x Hx Hopen Hdate Hlate.
  { by apply not_elem_of_nil in Hx. }
  simpl. destruct (HabitInstance.completed a) eqn:Hc.
  - exfalso. apply elem_of_cons in Hx as [->|Hx]; [congruence|].
    rewrite Forall_forall in Ha. specialize (Ha x Hx). simpl in Ha.
    assert (timeOf a < timeOf x) by (apply Hlate; [left|done]). lia.
  - destruct (String.eqb_spec (HabitInstance.date a) todayStr) as [Hd|Hd]; [|done].
    apply elem_of_cons in Hx as [->|Hx]; [done|].
    apply (IH x); try done. intros c Hcin. apply Hlate. by right.
Qed.

(** The content of the next theorem, in the form the later proofs use. *)
Lemma later_open_resets_streak (todayStr : string)
    (instances : list HabitInstance.t) (x : HabitInstance.t) :
  x ∈ instances →
  HabitInstance.completed x = false → HabitInstance.date x ≠ todayStr →
  (∀ c, c ∈ instances → HabitInstance.completed c = true → timeOf c < timeOf x) →
  getHabitStreak todayStr instances = 0%nat.
Proof.
  intros Hx Hopen Hdate Hlate. unfold getHabitStreak. cbv zeta.
  apply (streakLoop_zero_of_barrier todayStr _ x); try done.
  - apply sortDesc_descending.
  - by rewrite sortDesc_perm.
  - intros c Hc. apply Hlate. by rewrite sortDesc_perm in Hc.
Qed.

(** X3.  An open instance that is not dated today and is later than every
    completed instance (a scheduled future day, say) makes the streak 0. *)
Theorem getHabitStreak_zero_of_later_open (todayStr : string)
    (instances : list HabitInstance.t) (x : HabitInstance.t) :
  x ∈ instances →
  HabitInstance.completed x = false → HabitInstance.date x ≠ todayStr →
  (∀ c, c ∈ instances → HabitInstance.completed c = true → timeOf c < timeOf x) →
  getHabitStreak todayStr instances = 0%nat.
Proof. apply later_open_resets_streak. Qed.

Lemma sortDesc_newest l1 l2 x :
  (∀ y, y ∈ l1 ++ l2 → timeOf y < timeOf x) →
  sortDesc (l1 ++ x :: l2) = x :: sortDesc (l1 ++ l2).
Proof.
  induction l1 as [|a l1 IH]; intros Hlt; simpl.
  - apply insertSorted_front. apply Forall_forall. intros b Hb.
    rewrite sortDesc_perm in Hb. specialize (Hlt b Hb). lia.
  - rewrite IH by (intros y Hy; apply Hlt; by right).
    simpl. unfold compareDesc. fold (timeOf a) (timeOf x).
    assert (timeOf a < timeOf x) by (apply Hlt; left).
    by destruct (Z.ltb_spec 0 (timeOf x - timeOf a)); [|lia].
Qed.

(** X4.  Completing today's open instance, when it is later than every
    other instance, raises the streak by exactly one. *)
Theorem getHabitStreak_complete_today (todayStr now : string) (value : option Q)
    (instances : list HabitInstance.t) (idx : nat) (x : HabitInstance.t) :
  instances !! idx = Some x →
  HabitInstance.completed x = false → HabitInstance.date x = todayStr →
  (∀ j y, instances !! j = Some y → j ≠ idx → timeOf y < timeOf x) →
  getHabitStreak todayStr (<[idx := toggled now true value x]> instances)
  = S (getHabitStreak todayStr instances).
Proof.
  intros Hlook Hopen Hdate Hlate.
  pose proof (take_drop_middle instances idx x Hlook) as Hsplit.
  assert (Hidx : length (take idx instances) = idx).
  { apply length_take_le. apply lookup_lt_Some in Hlook. lia. }
  assert (Hothers : ∀ y, y ∈ take idx instances ++ drop (S idx) instances →
                         timeOf y < timeOf x).
  { intros y [Hy|Hy]%elem_of_app.
    - apply list_elem_of_lookup in Hy as [j Hj].
      pose proof (lookup_lt_Some _ _ _ Hj) as Hlt. rewrite Hidx in Hlt.
      rewrite lookup_take_lt in Hj by done. apply (Hlate j); [done|lia].
    - apply list_elem_of_lookup in Hy as [j Hj].
      rewrite lookup_drop in Hj. apply (Hlate _ _ Hj). lia. }
  set (l1 := take idx instances) in *. set (l2 := drop (S idx) instances) in *.
  assert (Hins : <[idx := toggled now true value x]> instances
                 = l1 ++ toggled now true value x :: l2).
  { rewrite <- Hsplit at 1.
    replace idx with (length l1 + 0)%nat at 1 by lia.
    by rewrite insert_app_r. }
  rewrite Hins, <- Hsplit.
  unfold getHabitStreak. cbv zeta.
  rewrite (sortDesc_newest l1 l2 x Hothers).
  rewrite (sortDesc_newest l1 l2 (toggled now true value x) Hothers).
  simpl. rewrite Hopen, Hdate, String.eqb_refl.
  by rewrite (streakLoop_acc _ _ 1).
Qed.

End MoreStreakFacts.

Section MoreStrengthFacts.
Context {rt : DateRuntime}.

Lemma filter_completed_nil (l : list HabitInstance.t) :
  Forall (λ i, HabitInstance.completed i = false) l →
  filter (λ i, HabitInstance.completed i) l = [].
Proof.
  induction 1 as [|i r Hi _ IH]; [done|].
  rewrite filter_cons, Hi. simpl. exact IH.
Qed.

Lemma filter_completed_all (l : list HabitInstance.t) :
  Forall (λ i, HabitInstance.completed i = true) l →
  filter (λ i, HabitInstance.completed i) l = l.
Proof.
  induction 1 as [|i r Hi _ IH]; [done|].
  rewrite filter_cons, Hi. simpl. by rewrite IH.
Qed.

Lemma specScore_exact (c t s : nat) (k : Z) :
  (specBlend c t s == inject_Z k)%Q →
  specScore c t s = k ∧ ¬ halfway (specBlend c t s).
Proof.
  intros Hk. unfold specScore, roundHalfUp, halfway.
  assert (Hfloor : Qfloor (specBlend c t s + (1 # 2)) = k).
  { apply Qfloor_unique; lra. }
  rewrite Hfloor. split; [done|]. lra.
Qed.

(** X5.  For a history shorter than [2 ^ 32], as every array is: without
    a single completed instance it scores 0, and all completed with at
    least 21 instances it scores 100. *)
Theorem calculateHabitStrength_extremes (todayStr : string) (habit : Habit.t)
    (instances : list HabitInstance.t) :
  Z.of_nat (length instances) < 2 ^ 32 →
  (Forall (λ i, HabitInstance.completed i = false) instances →
   calculateHabitStrength todayStr habit instances = 0)
  ∧ (Forall (λ i, HabitInstance.completed i = true) instances →
     (21 ≤ length instances)%nat →
     calculateHabitStrength todayStr habit instances = 100).
Proof.
  intros Hbound. split.
  - intros Hnone. destruct (decide (instances = [])) as [->|Hne]; [done|].
    rewrite (calculateHabitStrength_blend _ _ _ Hne).
    pose proof (streak_le_completed_count todayStr instances) as [Hle _].
    rewrite filter_completed_nil in * by done. simpl in Hle.
    replace (getHabitStreak todayStr instances) with 0%nat by lia.
    change (length (@nil HabitInstance.t)) with 0%nat.
    assert (Ht : (0 < length instances)%nat) by (destruct instances; [done|simpl; lia]).
    destruct (score_spec 0 (length instances) 0 Ht ltac:(lia) Hbound)
      as (Hexact & _ & _).
    destruct (specScore_exact 0 (length instances) 0 0) as [Hspec Hnh].
    { unfold specBlend, specCompletionRate, specStreakBonus. simpl.
      pose proof (inject_Z_pos (Z.of_nat (length instances)) ltac:(lia)).
      change (inject_Z 0) with 0%Q. field. lra. }
    rewrite (Hexact Hnh). exact Hspec.
  - intros Hall Hlen.
    assert (Hne : instances ≠ []) by (intros ->; simpl in Hlen; lia).
    rewrite (calculateHabitStrength_blend _ _ _ Hne), filter_completed_all by done.
    rewrite getHabitStreak_all_completed by done.
    set (t := length instances) in *.
    destruct (score_spec t t t ltac:(lia) ltac:(lia) Hbound) as (Hexact & _ & _).
    destruct (specScore_exact t t t 100) as [Hspec Hnh].
    { unfold specBlend, specCompletionRate, specStreakBonus.
      rewrite Nat.min_r by done.
      pose proof (inject_Z_pos (Z.of_nat t) ltac:(lia)).
      change (inject_Z (Z.of_nat 21)) with 21%Q. change (inject_Z 100) with 100%Q.
      field. lra. }
    rewrite (Hexact Hnh). exact Hspec.
Qed.

End MoreStrengthFacts.

(** ** Completion percentage *)

Section CompletionFacts.

(** X6.  [calculateCompletion] on a count of items (fewer than [2 ^ 32])
    and a count of completed ones is an integer percentage: 0 for no
    items, between 0 and 100, growing with the completed count, the same
    number as a project's progress; with fewer than 200 items it is 100
    exactly when all are completed and 0 exactly when none is. *)
Theorem calculateCompletion_counts (total completed : nat) :
  (completed ≤ total)%nat → Z.of_nat total < 2 ^ 32 →
  ∃ percent : Z,
    calculateCompletion (numberOfNat total) (numberOfNat completed)
    = numberOfZ percent
    ∧ percent = progressOf completed total
    ∧ 0 <= percent <= 100
    ∧ (total = 0%nat → percent = 0)
    ∧ (∀ fewer, (fewer ≤ completed)%nat →
         ∃ less, calculateCompletion (numberOfNat total) (numberOfNat fewer)
                 = numberOfZ less
                 ∧ less <= percent)
    ∧ ((0 < total < 200)%nat →
       (percent = 100 ↔ completed = total) ∧ (percent = 0 ↔ completed = 0%nat)).
Proof.
  intros Hc Hbound. exists (progressOf completed total).
  split; [apply calculateCompletion_progressOf; lia|].
  split; [done|]. split; [apply progressOf_range; lia|].
  split; [by intros ->|]. split.
  { intros fewer Hf. exists (progressOf fewer total).
    split; [apply calculateCompletion_progressOf; lia|].
    by apply progressOf_mono. }
  intros Ht. by apply progressOf_extremes.
Qed.

End CompletionFacts.

(** ** Reading a week and a day *)

Section MoreWeekFacts.
Context {rt : DateRuntime}.

(** What one turn adds to the returned list: the day's instances as the
    store holds them after the turn. *)
Lemma weekStep_week habits all week chg d :
  (weekStep habits (all, week, chg) d).1.2
  = week ++ dayInstances d (all ++ createdFor habits all d).
Proof.
  unfold weekStep, createdFor. fold (dayInstances d all).
  rewrite length_zero_nil, dayInstances_app.
  case_bool_decide as Hnil; simpl.
  - rewrite decide_True by done. by rewrite Hnil, dayInstances_created_same.
  - rewrite decide_False by done. by rewrite app_nil_r.
Qed.

(** Once a date is settled, later turns add nothing for it. *)
Lemma ensure_day_nil habits all dates d :
  dayInstances d all ≠ [] ∨ createInstancesForDay d habits = [] →
  dayInstances d (ensure habits all dates) = [].
Proof.
  revert all. induction dates as [|d0 ds IH]; intros all Hcov; [done|].
  cbn [ensure]. rewrite dayInstances_app.
  assert (Hc : dayInstances d (createdFor habits all d0) = []).
  { unfold createdFor. case_decide as Hnil; [|done].
    destruct (decide (d = d0)) as [->|Hne].
    - destruct Hcov as [?|Hcr]; [done|]. by rewrite Hcr.
    - by apply dayInstances_created_other. }
  rewrite Hc. simpl. apply IH.
  destruct Hcov as [Hsome|?]; [left|by right].
  rewrite dayInstances_app. intros [? _]%app_eq_nil. done.
Qed.

Lemma createdFor_settles habits all d :
  dayInstances d (all ++ createdFor habits all d) ≠ []
  ∨ createInstancesForDay d habits = [].
Proof.
  destruct (decide (createInstancesForDay d habits = [])) as [|Hne]; [by right|].
  left. rewrite dayInstances_app. unfold createdFor.
  case_decide as Hnil.
  - rewrite dayInstances_created_same. intros [_ ?]%app_eq_nil. done.
  - intros [? _]%app_eq_nil. done.
Qed.

Lemma foldl_weekStep_week habits dates all week chg :
  (foldl (weekStep habits) (all, week, chg) dates).1.2
  = week ++ (dates ≫= λ d, dayInstances d (all ++ ensure habits all dates)).
Proof.
  revert all week chg.
  induction dates as [|d ds IH]; intros all week chg; cbn [foldl ensure].
  - simpl. by rewrite app_nil_r.
  - pose proof (weekStep_all habits all week chg d) as Hall.
    pose proof (weekStep_week habits all week chg d) as Hweek.
    destruct (weekStep habits (all, week, chg) d) as [[all' week'] chg'].
    simpl in Hall, Hweek. subst all' week'.
    rewrite IH, bind_cons, <- !app_assoc. f_equal.
    rewrite (app_assoc all).
    set (all' := all ++ createdFor habits all d).
    f_equal.
    rewrite (dayInstances_app d all').
    rewrite (ensure_day_nil habits all' ds d) by apply createdFor_settles.
    by rewrite app_nil_r.
Qed.

(** X7.  With at least one stored habit, [getWeekInstances] returns exactly
    the instances the store holds for the requested dates after the call,
    date by date in request order; with no stored habit it returns the
    empty list and leaves the store as it is, whatever instances the store
    holds for those dates. *)
Theorem getWeekInstances_returns_stored (todayStr : string) (dates : list string)
    (st : Store) :
  (parseOr (HABITS st) ≠ [] →
   (getWeekInstances todayStr dates st).2
   = dates ≫= λ d,
       dayInstances d (parseOr (INSTANCES (getWeekInstances todayStr dates st).1)))
  ∧ (parseOr (HABITS st) = [] → getWeekInstances todayStr dates st = (st, [])).
Proof.
  split.
  - intros Hne. rewrite getWeekInstances_appends.
    unfold getWeekInstances. cbv zeta. rewrite getHabits_length.
    destruct (parseOr (HABITS st)) as [|h hs] eqn:Hh; [done|].
    change (0 <? length (h :: hs))%nat with true. cbv iota.
    pose proof (foldl_weekStep_week (getHabits todayStr st) dates
                  (parseOr (INSTANCES st)) [] false) as Hweek.
    destruct (foldl _ _ dates) as [[all' week'] chg']. simpl in *.
    rewrite Hweek, ensure_getHabits, Hh. done.
  - intros Hh. unfold getWeekInstances. cbv zeta.
    rewrite getHabits_length, Hh. done.
Qed.

(** X8.  [getInstancesForDate] leaves the store exactly as
    [getWeekInstances] on that single date does, and returns the instances
    the store then holds for the date. *)
Theorem getInstancesForDate_spec (todayStr dateStr : string) (st : Store) :
  (getInstancesForDate todayStr dateStr st).1
  = (getWeekInstances todayStr [dateStr] st).1
  ∧ (getInstancesForDate todayStr dateStr st).2
    = dayInstances dateStr
        (parseOr (INSTANCES (getInstancesForDate todayStr dateStr st).1)).
Proof.
  assert (Hstore : (getInstancesForDate todayStr dateStr st).1
                   = (getWeekInstances todayStr [dateStr] st).1).
  { rewrite getWeekInstances_store. cbv zeta.
    unfold getInstancesForDate. cbv zeta.
    fold (dayInstances dateStr (parseOr (INSTANCES st))).
    rewrite getHabits_length, length_zero_nil. cbn [anyEmptyDay ensure].
    rewrite orb_false_r, app_nil_r. unfold createdFor.
    case_bool_decide as Hnil.
    - rewrite decide_True by done.
      destruct (0 <? length (parseOr (HABITS st)))%nat; simpl; [|done].
      by rewrite createInstancesForDay_getHabits.
    - by rewrite andb_false_r. }
  split; [exact Hstore|].
  rewrite Hstore, getWeekInstances_appends. cbn [ensure]. rewrite app_nil_r.
  unfold getInstancesForDate. cbv zeta.
  fold (dayInstances dateStr (parseOr (INSTANCES st))).
  rewrite getHabits_length, length_zero_nil, dayInstances_app. unfold createdFor.
  case_bool_decide as Hnil.
  - rewrite decide_True by done. rewrite Hnil. simpl.
    rewrite dayInstances_created_same.
    destruct (parseOr (HABITS st)) as [|h hs] eqn:Hh; simpl.
    + done.
    + by rewrite createInstancesForDay_getHabits, Hh.
  - rewrite decide_False by done. simpl. by rewrite app_nil_r.
Qed.

End MoreWeekFacts.

(** ** Completion toggle, continued *)

Section MoreUpdateFacts.

Lemma list_find_insert_same {A} (P : A → Prop) `{∀ x, Decision (P x)}
    (l : list A) i x y :
  list_find P l = Some (i, x) → P y →
  list_find P (<[i := y]> l) = Some (i, y).
Proof.
  intros (Hlook & Hx & Hfirst)%list_find_Some Hy. apply list_find_Some.
  split; [|split; [done|]].
  - apply list_lookup_insert_eq. by eapply lookup_lt_Some.
  - intros j z Hj Hlt. rewrite list_lookup_insert_ne in Hj by lia.
    by apply (Hfirst j).
Qed.

Lemma toggled_shape now completed value inst :
  instanceShape (toggled now completed value inst) = instanceShape inst.
Proof. done. Qed.

Lemma toggled_absorbs now1 now2 completed value inst :
  toggled now2 completed value (toggled now1 completed value inst)
  = toggled now2 completed value inst.
Proof. unfold toggled. simpl. by destruct completed, value. Qed.

(** What [updateInstanceStatus] does to the stored list, in both cases. *)
Lemma updateInstanceStatus_cases now instanceId completed value st :
  updateInstanceStatus now instanceId completed value st = st
  ∧ (∀ i, i ∈ parseOr (INSTANCES st) → HabitInstance.id i ≠ instanceId)
  ∨ ∃ instances idx inst,
      INSTANCES st = Some instances
      ∧ list_find (λ i, HabitInstance.id i = instanceId) instances = Some (idx, inst)
      ∧ updateInstanceStatus now instanceId completed value st
        = setInstances st (<[idx := toggled now completed value inst]> instances).
Proof.
  unfold updateInstanceStatus.
  destruct (INSTANCES st) as [instances|] eqn:Hst.
  - destruct (list_find _ instances) as [[idx inst]|] eqn:Hfind.
    + right. by exists instances, idx, inst.
    + left. split; [done|]. simpl. apply list_find_None in Hfind.
      rewrite Forall_forall in Hfind. exact Hfind.
  - left. split; [done|]. simpl. by intros i ?%not_elem_of_nil.
Qed.

(** X9.  [updateInstanceStatus] never adds, removes, reorders or re-keys an
    instance: identifiers, habits and dates stay as stored, position by
    position; so the one-instance-per-habit-and-date invariant is kept, and
    habits, tasks and projects are untouched.  When no stored instance has
    the identifier, the whole store is unchanged. *)
Theorem updateInstanceStatus_keeps_shape (now instanceId : string)
    (completed : bool) (value : option Q) (st : Store) :
  let st' := updateInstanceStatus now instanceId completed value st in
  instanceShape <$> parseOr (INSTANCES st') = instanceShape <$> parseOr (INSTANCES st)
  ∧ (storeInv st → storeInv st')
  ∧ HABITS st' = HABITS st ∧ TASKS st' = TASKS st ∧ PROJECTS st' = PROJECTS st
  ∧ ((∀ i, i ∈ parseOr (INSTANCES st) → HabitInstance.id i ≠ instanceId) →
     st' = st).
Proof.
  intros st'.
  assert (Hshape : instanceShape <$> parseOr (INSTANCES st')
                   = instanceShape <$> parseOr (INSTANCES st)).
  { subst st'.
    destruct (updateInstanceStatus_cases now instanceId completed value st)
      as [[-> _]|(instances & idx & inst & Hst & Hfind & ->)]; [done|].
    rewrite Hst. simpl. rewrite list_fmap_insert, toggled_shape.
    apply list_insert_id. rewrite list_lookup_fmap.
    apply list_find_Some in Hfind as (-> & _). done. }
  split; [exact Hshape|]. split.
  - unfold storeInv, instancesInv. intros [Hnd Hid].
    assert (Hkey : instanceKey <$> parseOr (INSTANCES st')
                   = instanceKey <$> parseOr (INSTANCES st)).
    { change instanceKey with ((λ s : string * string * string, (s.1.2, s.2))
                               ∘ instanceShape).
      by rewrite !list_fmap_compose, Hshape. }
    split; [by rewrite Hkey|].
    assert (Hcomp : Forall (λ s : string * string * string,
                              s.1.1 = s.2 +:+ "_" +:+ s.1.2)
                      (instanceShape <$> parseOr (INSTANCES st'))).
    { rewrite Hshape. apply Forall_fmap. exact Hid. }
    apply Forall_fmap in Hcomp. exact Hcomp.
  - subst st'. split; [|split; [|split]].
    1-3: destruct (updateInstanceStatus_cases now instanceId completed value st)
           as [[-> _]|(instances & idx & inst & Hst & Hfind & ->)]; done.
    apply updateInstanceStatus_missing.
Qed.

(** X10.  When an instance with the identifier is stored, the first such
    instance ends up with the given flag, with the timestamp [now] if the
    flag is set and with the given value if one is given; looking the
    identifier up again finds it; every instance with another identifier
    is left exactly as it was. *)
Theorem updateInstanceStatus_read_back (now instanceId : string)
    (completed : bool) (value : option Q) (st : Store)
    (idx : nat) (inst : HabitInstance.t) :
  list_find (λ i, HabitInstance.id i = instanceId) (parseOr (INSTANCES st))
    = Some (idx, inst) →
  let st' := updateInstanceStatus now instanceId completed value st in
  ∃ inst',
    list_find (λ i, HabitInstance.id i = instanceId) (parseOr (INSTANCES st'))
      = Some (idx, inst')
    ∧ HabitInstance.completed inst' = completed
    ∧ (completed = true → HabitInstance.completedAt inst' = Some now)
    ∧ (∀ v, value = Some v → HabitInstance.value inst' = Some v)
    ∧ (value = None → HabitInstance.value inst' = HabitInstance.value inst)
    ∧ (∀ k y, parseOr (INSTANCES st) !! k = Some y →
         HabitInstance.id y ≠ instanceId →
         parseOr (INSTANCES st') !! k = Some y).
Proof.
  intros Hfind st'. subst st'.
  destruct (updateInstanceStatus_cases now instanceId completed value st)
    as [[_ Hmiss]|(instances & idx' & inst0 & Hst & Hfind' & ->)].
  { exfalso. apply list_find_Some in Hfind as (Hlook & Hid & _).
    apply (Hmiss inst); [by eapply list_elem_of_lookup_2|done]. }
  rewrite Hst in Hfind. simpl in Hfind. rewrite Hfind in Hfind'.
  injection Hfind' as <- <-. rewrite Hst. simpl.
  exists (toggled now completed value inst).
  pose proof Hfind as (Hlook & Hid & _)%list_find_Some.
  split; [by apply (list_find_insert_same _ _ _ inst)|].
  split; [done|]. split; [by intros ->|].
  split; [by intros v ->|]. split; [by intros ->|].
  intros k y Hk Hne. rewrite list_lookup_insert_ne; [done|].
  intros <-. congruence.
Qed.

(** X11.  A repeated [updateInstanceStatus] call with the same identifier,
    flag and value is absorbed: the store is as if only the later call had
    been made (for [completed = false], as after the first call). *)
Theorem updateInstanceStatus_absorbs (now1 now2 instanceId : string)
    (completed : bool) (value : option Q) (st : Store) :
  updateInstanceStatus now2 instanceId completed value
    (updateInstanceStatus now1 instanceId completed value st)
  = updateInstanceStatus now2 instanceId completed value st
  ∧ (completed = false →
     updateInstanceStatus now2 instanceId completed value st
     = updateInstanceStatus now1 instanceId completed value st).
Proof.
  split.
  - destruct (updateInstanceStatus_cases now1 instanceId completed value st)
      as [[Heq Hmiss]|(instances & idx & inst & Hst & Hfind & Heq)].
    { by rewrite Heq. }
    rewrite Heq.
    pose proof Hfind as (Hlook & Hid & Hfirst)%list_find_Some.
    pose proof (list_find_insert_same _ instances idx inst
                  (toggled now1 completed value inst) Hfind Hid)
      as (Hlook' & Hid' & Hfirst')%list_find_Some.
    rewrite (updateInstanceStatus_found now2 instanceId completed value
               (setInstances st (<[idx := toggled now1 completed value inst]> instances))
               (<[idx := toggled now1 completed value inst]> instances)
               idx (toggled now1 completed value inst)); try done.
    rewrite (updateInstanceStatus_found now2 instanceId completed value st
               instances idx inst); try done.
    unfold setInstances. simpl.
    by rewrite toggled_absorbs, list_insert_insert_eq.
  - intros ->. unfold updateInstanceStatus.
    destruct (INSTANCES st); [|done].
    by destruct (list_find _ _) as [[? ?]|].
Qed.

End MoreUpdateFacts.

(** ** Tasks and projects, continued *)

Section MoreProjectFacts.

Lemma updateProjectProgress_cases pid st :
  updateProjectProgress pid st = st
  ∧ (∀ p, p ∈ getProjects st → Project.id p ≠ pid)
  ∨ ∃ idx p p',
      list_find (λ q, Project.id q = pid) (getProjects st) = Some (idx, p)
      ∧ updateProjectProgress pid st
        = setProjects st (<[idx := p']> (getProjects st))
      ∧ projectShape p' = projectShape p
      ∧ (Z.of_nat (length (memberTasks pid st)) < 2 ^ 32 →
         upToDate (updateProjectProgress pid st) p').
Proof.
  destruct (list_find (λ q, Project.id q = pid) (getProjects st))
    as [[idx p]|] eqn:Hfind.
  - right. pose proof Hfind as (Hlook & Hid & Hfirst)%list_find_Some.
    destruct (updateProjectProgress_found pid st idx p Hlook Hid Hfirst)
      as (p' & Heq & Hid' & Hname & Hup).
    exists idx, p, p'. split; [done|]. split; [done|]. split; [|done].
    unfold projectShape. by rewrite Hid', Hid, Hname.
  - left. split.
    + unfold updateProjectProgress. cbv zeta. by rewrite Hfind.
    + apply list_find_None in Hfind. rewrite Forall_forall in Hfind. exact Hfind.
Qed.

Lemma updateProjectProgress_keeps pid st :
  getTasks (updateProjectProgress pid st) = getTasks st
  ∧ HABITS (updateProjectProgress pid st) = HABITS st
  ∧ INSTANCES (updateProjectProgress pid st) = INSTANCES st
  ∧ projectShape <$> getProjects (updateProjectProgress pid st)
    = projectShape <$> getProjects st.
Proof.
  destruct (updateProjectProgress_cases pid st)
    as [[-> _]|(idx & p & p' & Hfind & -> & Hshape & _)]; [done|].
  split; [done|]. split; [done|]. split; [done|].
  unfold getProjects at 1. simpl.
  rewrite list_fmap_insert, Hshape. apply list_insert_id.
  rewrite list_lookup_fmap. apply list_find_Some in Hfind as (-> & _). done.
Qed.

Lemma recomputeIfLinked_keeps projectId st :
  getTasks (recomputeIfLinked projectId st) = getTasks st
  ∧ HABITS (recomputeIfLinked projectId st) = HABITS st
  ∧ INSTANCES (recomputeIfLinked projectId st) = INSTANCES st
  ∧ projectShape <$> getProjects (recomputeIfLinked projectId st)
    = projectShape <$> getProjects st.
Proof.
  unfold recomputeIfLinked. destruct (truthy projectId); [|done].
  apply updateProjectProgress_keeps.
Qed.

Lemma getTasks_addTask task st : getTasks (addTask task st) = getTasks st ++ [task].
Proof.
  unfold addTask. cbv zeta.
  by destruct (recomputeIfLinked_keeps (Task.projectId task)
                 (setTasks st (getTasks st ++ [task]))) as (-> & _).
Qed.

Lemma getTasks_deleteTask taskId st :
  getTasks (deleteTask taskId st) = filter (λ t, Task.id t ≠ taskId) (getTasks st).
Proof.
  unfold deleteTask. cbv zeta.
  by destruct (recomputeIfLinked_keeps
                 ((snd <$> list_find (λ t, Task.id t = taskId) (getTasks st))
                  ≫= Task.projectId)
                 (setTasks st (filter (λ t, Task.id t ≠ taskId) (getTasks st))))
    as (-> & _).
Qed.

Lemma filter_all {A} (P : A → Prop) `{∀ x, Decision (P x)} (l : list A) :
  Forall P l → filter P l = l.
Proof.
  induction 1 as [|x l Hx _ IH]; [done|].
  by rewrite filter_cons, decide_True, IH.
Qed.

(** X12.  Updating or deleting a task that is not stored changes no task
    and no project: [updateTask] leaves the whole store as it is, and
    [deleteTask] at most writes back the task list it read. *)
Theorem task_operations_on_missing_task (taskId : string) (updates : TaskUpdates.t)
    (st : Store) :
  (∀ t, t ∈ getTasks st → Task.id t ≠ taskId) →
  updateTask taskId updates st = st
  ∧ deleteTask taskId st = setTasks st (getTasks st)
  ∧ getTasks (deleteTask taskId st) = getTasks st
  ∧ PROJECTS (deleteTask taskId st) = PROJECTS st.
Proof.
  intros Hmiss.
  assert (Hfind : list_find (λ t, Task.id t = taskId) (getTasks st) = None).
  { apply list_find_None, Forall_forall. exact Hmiss. }
  assert (Hfilter : filter (λ t, Task.id t ≠ taskId) (getTasks st) = getTasks st).
  { apply filter_all, Forall_forall. exact Hmiss. }
  assert (Hdel : deleteTask taskId st = setTasks st (getTasks st)).
  { unfold deleteTask. cbv zeta. by rewrite Hfind, Hfilter. }
  split.
  { unfold updateTask. cbv zeta. by rewrite Hfind. }
  split; [exact Hdel|]. by rewrite Hdel.
Qed.

(** X13.  Adding a task under a fresh identifier and deleting it again
    restores the task list. *)
Theorem addTask_deleteTask (task : Task.t) (st : Store) :
  (∀ t, t ∈ getTasks st → Task.id t ≠ Task.id task) →
  getTasks (deleteTask (Task.id task) (addTask task st)) = getTasks st.
Proof.
  intros Hfresh. rewrite getTasks_deleteTask, getTasks_addTask.
  rewrite filter_app, filter_cons, filter_nil.
  rewrite decide_False by (intros Hn; by apply Hn).
  rewrite app_nil_r. apply filter_all, Forall_forall. exact Hfresh.
Qed.

(** X14.  No task operation adds, removes, reorders or renames a project,
    or touches the habits and instances: only progress and status of
    stored projects can change. *)
Theorem task_operations_keep_projects (task : Task.t) (taskId : string)
    (updates : TaskUpdates.t) (st : Store) :
  let kept st' :=
    projectShape <$> getProjects st' = projectShape <$> getProjects st
    ∧ HABITS st' = HABITS st ∧ INSTANCES st' = INSTANCES st in
  kept (addTask task st) ∧ kept (updateTask taskId updates st)
  ∧ kept (deleteTask taskId st).
Proof.
  cbv zeta. split; [|split].
  - unfold addTask. cbv zeta.
    destruct (recomputeIfLinked_keeps (Task.projectId task)
                (setTasks st (getTasks st ++ [task]))) as (_ & -> & -> & ->).
    done.
  - unfold updateTask. cbv zeta.
    destruct (list_find _ (getTasks st)) as [[idx t]|]; [|done].
    destruct (recomputeIfLinked_keeps (Task.projectId (applyUpdates t updates))
                (setTasks st (<[idx := applyUpdates t updates]> (getTasks st))))
      as (_ & -> & -> & ->).
    done.
  - unfold deleteTask. cbv zeta.
    destruct (recomputeIfLinked_keeps
                ((snd <$> list_find (λ t, Task.id t = taskId) (getTasks st))
                 ≫= Task.projectId)
                (setTasks st (filter (λ t, Task.id t ≠ taskId) (getTasks st))))
      as (_ & -> & -> & ->).
    done.
Qed.

End MoreProjectFacts.

Section ProjectInvariant.

Lemma upToDate_same_tasks st st' p :
  getTasks st' = getTasks st → upToDate st p → upToDate st' p.
Proof.
  unfold upToDate, expectedProgress, memberTasks. by intros ->.
Qed.

Lemma NoDup_fmap_lookup_inj {A B} (f : A → B) (l : list A) i j x y :
  NoDup (f <$> l) → l !! i = Some x → l !! j = Some y → f x = f y → i = j.
Proof.
  intros Hnd Hi Hj Hf. eapply (NoDup_lookup (f <$> l)); [done| |].
  - rewrite list_lookup_fmap, Hi. done.
  - rewrite list_lookup_fmap, Hj. simpl. by rewrite Hf.
Qed.

(** Recomputing one project, when every other project is up to date,
    leaves all of them up to date. *)
Lemma updateProjectProgress_all pid st :
  Z.of_nat (length (getTasks st)) < 2 ^ 32 →
  NoDup (Project.id <$> getProjects st) →
  (∀ p, p ∈ getProjects st → Project.id p ≠ pid → upToDate st p) →
  allUpToDate (updateProjectProgress pid st).
Proof.
  intros Hsize Hnd Hothers. unfold allUpToDate.
  destruct (updateProjectProgress_cases pid st)
    as [[Heq Hmiss]|(idx & p & p' & Hfind & Heq & Hshape & Hup)].
  - rewrite Heq. apply Forall_forall. intros p Hp.
    apply Hothers; [done|]. by apply Hmiss.
  - assert (Hmem : Z.of_nat (length (memberTasks pid st)) < 2 ^ 32).
    { pose proof (length_filter (λ t, Task.projectId t = Some pid) (getTasks st)).
      unfold memberTasks. lia. }
    specialize (Hup Hmem).
    apply list_find_Some in Hfind as (Hlook & Hid & _).
    apply Forall_lookup. intros j y Hj.
    destruct (decide (j = idx)) as [->|Hne].
    + rewrite Heq in Hj. unfold getProjects in Hj at 1. simpl in Hj.
      rewrite list_lookup_insert_eq in Hj by (by eapply lookup_lt_Some).
      by injection Hj as <-.
    + rewrite Heq in Hj. unfold getProjects in Hj at 1. simpl in Hj.
      rewrite list_lookup_insert_ne in Hj by done.
      apply (upToDate_same_tasks st).
      { by destruct (updateProjectProgress_keeps pid st) as (-> & _). }
      apply Hothers; [by eapply list_elem_of_lookup_2|].
      intros Hy. apply Hne.
      apply (NoDup_fmap_lookup_inj Project.id (getProjects st) j idx y p);
        try done. congruence.
Qed.

(** A change of the task list that touches only the members of one
    project, followed by the recomputation of that project. *)
Lemma recompute_after_change projectId st st1 :
  Z.of_nat (length (getTasks st1)) < 2 ^ 32 →
  NoDup (Project.id <$> getProjects st) →
  (∀ p, p ∈ getProjects st → Project.id p ≠ "") →
  allUpToDate st →
  getProjects st1 = getProjects st →
  (∀ q, Some q ≠ projectId → memberTasks q st1 = memberTasks q st) →
  allUpToDate (recomputeIfLinked projectId st1).
Proof.
  intros Hsize Hnd Hnonempty Hall Hproj Hmem.
  assert (Hkeep : ∀ p, p ∈ getProjects st1 → Some (Project.id p) ≠ projectId →
                       upToDate st1 p).
  { intros p Hp Hne. rewrite Hproj in Hp.
    unfold allUpToDate in Hall. rewrite Forall_forall in Hall.
    destruct (Hall p Hp) as [Hprog Hstat]. split; [|done].
    rewrite Hprog. unfold expectedProgress. by rewrite Hmem. }
  unfold recomputeIfLinked.
  destruct projectId as [pid|]; simpl.
  - destruct (String.eqb_spec pid "") as [->|Hne].
    + unfold allUpToDate. apply Forall_forall. intros p Hp.
      apply Hkeep; [done|]. intros [= Hid]. apply (Hnonempty p); [|done].
      by rewrite <- Hproj.
    + apply updateProjectProgress_all; [done|by rewrite Hproj|].
      intros p Hp Hid. apply Hkeep; [done|]. by intros [= ?].
  - unfold allUpToDate. apply Forall_forall. intros p Hp. by apply Hkeep.
Qed.

Lemma filter_insert_outside {A} (P : A → Prop) `{∀ x, Decision (P x)}
    (l : list A) i x y :
  l !! i = Some x → ¬ P x → ¬ P y → filter P (<[i := y]> l) = filter P l.
Proof.
  revert i. induction l as [|a l IH]; intros i Hi Hx Hy; [done|].
  destruct i as [|i]; simpl in *.
  - injection Hi as ->. by rewrite !filter_cons, !decide_False.
  - rewrite !filter_cons, (IH i) by done. done.
Qed.

(** X15.  For a task list that stays shorter than [2 ^ 32], as every
    array does: when project identifiers are pairwise distinct and none is
    the empty string, "every stored project shows the progress and status
    of its member tasks" is kept by [addTask], by [updateTask] calls that
    do not change the task's project, and, when task identifiers are
    pairwise distinct, by [deleteTask]. *)
Theorem task_operations_keep_projects_up_to_date (st : Store) :
  Z.of_nat (length (getTasks st)) + 1 < 2 ^ 32 →
  NoDup (Project.id <$> getProjects st) →
  (∀ p, p ∈ getProjects st → Project.id p ≠ "") →
  allUpToDate st →
  (∀ task, allUpToDate (addTask task st))
  ∧ (∀ taskId updates, TaskUpdates.projectId updates = None →
       allUpToDate (updateTask taskId updates st))
  ∧ (∀ taskId, NoDup (Task.id <$> getTasks st) →
       allUpToDate (deleteTask taskId st)).
Proof.
  intros Hsize Hnd Hnonempty Hall. split; [|split].
  - intros task. unfold addTask. cbv zeta.
    apply (recompute_after_change _ st); try done.
    { replace (getTasks (setTasks st (getTasks st ++ [task])))
        with (getTasks st ++ [task]) by done.
      rewrite length_app. simpl. lia. }
    intros q Hq. unfold memberTasks, getTasks at 1. simpl. fold (getTasks st).
    rewrite filter_app, filter_cons, filter_nil.
    rewrite decide_False by (intros Heq; by rewrite Heq in Hq).
    by rewrite app_nil_r.
  - intros taskId updates Hkeep. unfold updateTask. cbv zeta.
    destruct (list_find _ (getTasks st)) as [[idx t]|] eqn:Hfind; [|done].
    apply list_find_Some in Hfind as (Hlook & _ & _).
    assert (Hpid : Task.projectId (applyUpdates t updates) = Task.projectId t).
    { unfold applyUpdates. simpl. by rewrite Hkeep. }
    rewrite Hpid.
    apply (recompute_after_change _ st); try done.
    { match goal with
      | |- context [getTasks (setTasks st ?l)] =>
          replace (getTasks (setTasks st l)) with l by done
      end.
      rewrite length_insert. lia. }
    intros q Hq. unfold memberTasks, getTasks at 1. simpl. fold (getTasks st).
    apply (filter_insert_outside _ _ _ t); [done| |].
    + intros Heq. by rewrite Heq in Hq.
    + rewrite Hpid. intros Heq. by rewrite Heq in Hq.
  - intros taskId Htasks. unfold deleteTask. cbv zeta.
    apply (recompute_after_change _ st); try done.
    { match goal with
      | |- context [getTasks (setTasks st ?l)] =>
          replace (getTasks (setTasks st l)) with l by done
      end.
      pose proof (length_filter (λ t, Task.id t ≠ taskId) (getTasks st)). lia. }
    intros q Hq. unfold memberTasks, getTasks at 1. simpl. fold (getTasks st).
    rewrite list_filter_filter.
    apply filter_ext_elem_of. intros t Ht. split; [by intros [? _]|].
    intros Hmem. split; [done|]. intros Hid. apply Hq.
    destruct (list_find (λ t, Task.id t = taskId) (getTasks st))
      as [[k t0]|] eqn:Hfind; simpl.
    + apply list_find_Some in Hfind as (Hlook0 & Hid0 & _).
      assert (t = t0) as ->; [|by rewrite <- Hmem].
      apply (NoDup_fmap_inj Task.id (getTasks st)); try done.
      * by eapply list_elem_of_lookup_2.
      * congruence.
    + apply list_find_None in Hfind. rewrite Forall_forall in Hfind.
      by destruct (Hfind t Ht).
Qed.

End ProjectInvariant.

Section ProjectStatusFacts.

Lemma length_filter_all {A} (P : A → Prop) `{∀ x, Decision (P x)} (l : list A) :
  length (filter P l) = length l ↔ Forall P l.
Proof.
  induction l as [|x l IH]; [by split|].
  rewrite filter_cons. pose proof (length_filter P l) as Hle.
  destruct (decide (P x)) as [Hx|Hx]; simpl.
  - rewrite Forall_cons. split.
    + intros [= Hlen]. split; [done|]. by apply IH.
    + intros [_ Hl]. f_equal. by apply IH.
  - split; [lia|]. by intros [? _]%Forall_cons.
Qed.

(** X16.  After [updateProjectProgress], a stored project with fewer than
    200 member tasks has status [completed] exactly when it has at least
    one member task and all of them are completed; without member tasks
    its progress is 0. *)
Theorem updateProjectProgress_completed_iff (projectId : string) (st : Store)
    (idx : nat) (p : Project.t) :
  list_find (λ q, Project.id q = projectId) (getProjects st) = Some (idx, p) →
  (length (memberTasks projectId st) < 200)%nat →
  ∃ p', getProjects (updateProjectProgress projectId st) !! idx = Some p'
        ∧ (Project.status p' = ProjectStatus.completed
           ↔ memberTasks projectId st ≠ []
             ∧ Forall (λ t, Task.completed t = true) (memberTasks projectId st))
        ∧ (memberTasks projectId st = [] → Project.progress p' = 0).
Proof.
  intros (Hlook & Hid & Hfirst)%list_find_Some Hfew.
  destruct (updateProjectProgress_found projectId st idx p Hlook Hid Hfirst)
    as (p' & Heq & Hid' & _ & Hup).
  destruct (Hup ltac:(lia)) as [Hprog Hstat].
  exists p'. split.
  { rewrite Heq. unfold getProjects at 1. simpl.
    apply list_lookup_insert_eq. by eapply lookup_lt_Some. }
  assert (Hmem : memberTasks (Project.id p') (updateProjectProgress projectId st)
                 = memberTasks projectId st).
  { unfold memberTasks. rewrite Hid'.
    by destruct (updateProjectProgress_keeps projectId st) as (-> & _). }
  unfold expectedProgress in Hprog. rewrite Hmem in Hprog.
  clear Hmem. remember (memberTasks projectId st) as members eqn:Emem. clear Emem.
  assert (Hle : (length (filter (λ t, Task.completed t) members)
                 ≤ length members)%nat) by apply length_filter.
  assert (Hdone : length (filter (λ t, Task.completed t) members) = length members
                  ↔ Forall (λ t, Task.completed t = true) members).
  { rewrite length_filter_all.
    apply Forall_proper; [|done]. intros t. apply Is_true_true. }
  split.
  - rewrite Hstat, Hprog.
    destruct (decide (members = [])) as [->|Hne].
    { simpl. split; [done|]. by intros [? _]. }
    assert (Hlen : (0 < length members < 200)%nat).
    { destruct members; [done|simpl in *; lia]. }
    destruct (progressOf_extremes _ _ Hlen Hle) as [H100 _].
    rewrite H100, Hdone. split; [by intros ?|by intros [_ ?]].
  - intros ->. by rewrite Hprog.
Qed.

Lemma statusAfter_idem progress status :
  statusAfter progress (statusAfter progress status) = statusAfter progress status.
Proof.
  unfold statusAfter. destruct (progress =? 100); [done|].
  destruct (bool_decide (status = ProjectStatus.completed)) eqn:Hs;
    destruct (progress <? 100); simpl; try done; by rewrite Hs.
Qed.

Lemma updateProjectProgress_Some projectId st idx p :
  list_find (λ q, Project.id q = projectId) (getProjects st) = Some (idx, p) →
  updateProjectProgress projectId st
  = setProjects st
      (<[idx := Project.mk (Project.id p) (Project.name p)
                  (expectedProgress projectId st)
                  (statusAfter (expectedProgress projectId st) (Project.status p))]>
         (getProjects st)).
Proof.
  intros Hfind. unfold updateProjectProgress. cbv zeta. rewrite Hfind.
  reflexivity.
Qed.

(** X17.  [updateProjectProgress] is idempotent, and for an identifier no
    stored project carries it leaves the store as it is. *)
Theorem updateProjectProgress_idempotent (projectId : string) (st : Store) :
  updateProjectProgress projectId (updateProjectProgress projectId st)
  = updateProjectProgress projectId st
  ∧ ((∀ p, p ∈ getProjects st → Project.id p ≠ projectId) →
     updateProjectProgress projectId st = st).
Proof.
  split.
  - destruct (list_find (λ q, Project.id q = projectId) (getProjects st))
      as [[idx p]|] eqn:Hfind.
    2:{ assert (Hno : updateProjectProgress projectId st = st).
        { unfold updateProjectProgress. cbv zeta. by rewrite Hfind. }
        by rewrite !Hno. }
    rewrite (updateProjectProgress_Some projectId st idx p Hfind).
    set (p' := Project.mk _ _ _ _).
    pose proof Hfind as (_ & Hid & _)%list_find_Some.
    rewrite (updateProjectProgress_Some projectId _ idx p').
    2:{ by apply (list_find_insert_same _ _ _ p). }
    unfold setProjects, getProjects. simpl. rewrite list_insert_insert_eq.
    do 2 f_equal. unfold p'. simpl.
    change (expectedProgress projectId
              (mkStore (HABITS st) (INSTANCES st) (TASKS st) _))
      with (expectedProgress projectId st).
    by rewrite statusAfter_idem.
  - intros Hmiss. unfold updateProjectProgress. cbv zeta.
    assert (Hfind : list_find (λ q, Project.id q = projectId) (getProjects st) = None).
    { apply list_find_None, Forall_forall. exact Hmiss. }
    by rewrite Hfind.
Qed.

End ProjectStatusFacts.

(** ** Onboarding seed, continued *)

Section MoreSeedFacts.
Context {rt : DateRuntime}.

Lemma dayInstances_nil_dates d l :
  dayInstances d l = [] ↔ d ∉ HabitInstance.date <$> l.
Proof.
  rewrite dayInstances_nil_iff, list_elem_of_fmap. split.
  - intros Hall (i & -> & Hi). by apply (Hall i).
  - intros Hno i Hi Hd. apply Hno. by exists i.
Qed.

Lemma instanceShape_date (l1 l2 : list HabitInstance.t) :
  instanceShape <$> l1 = instanceShape <$> l2 →
  HabitInstance.date <$> l1 = HabitInstance.date <$> l2.
Proof.
  intros H. change HabitInstance.date with (snd ∘ instanceShape).
  by rewrite !list_fmap_compose, H.
Qed.

(** What the loop creates depends on the stored instances only through
    their dates. *)
Lemma createdFor_dates_ext habits all1 all2 d :
  HabitInstance.date <$> all1 = HabitInstance.date <$> all2 →
  createdFor habits all1 d = createdFor habits all2 d.
Proof.
  intros Hd. unfold createdFor.
  destruct (decide (dayInstances d all1 = [])) as [H1|H1];
    destruct (decide (dayInstances d all2 = [])) as [H2|H2]; try done.
  - rewrite dayInstances_nil_dates in H1, H2. by rewrite Hd in H1.
  - rewrite dayInstances_nil_dates in H1, H2. by rewrite Hd in H1.
Qed.

Lemma ensure_dates_ext habits all1 all2 dates :
  HabitInstance.date <$> all1 = HabitInstance.date <$> all2 →
  ensure habits all1 dates = ensure habits all2 dates.
Proof.
  revert all1 all2. induction dates as [|d ds IH]; intros all1 all2 Hd; [done|].
  cbn [ensure]. rewrite (createdFor_dates_ext habits all1 all2 d Hd).
  f_equal. apply IH. by rewrite !fmap_app, Hd.
Qed.

Lemma simulatePast_shape e k l :
  instanceShape <$> (simulatePast e k l).1 = instanceShape <$> l.
Proof.
  revert k. induction l as [|i r IH]; intros k; [done|].
  rewrite simulatePast_cons, !fmap_cons, IH. by destruct (draw e k).
Qed.

Lemma simulatePast_nil e k : simulatePast e k [] = ([], k).
Proof. done. Qed.

(** One turn of the seed loop appends the day [createdFor] describes, with
    some past instances marked completed. *)
Lemma seedStep_appends dayString e habits all k i :
  ∃ added,
    (seedStep dayString e habits (all, k) i).1 = all ++ added
    ∧ instanceShape <$> added
      = instanceShape <$> createdFor habits all (dayString i)
    ∧ (∀ x, x ∈ added → HabitInstance.completed x = true →
         i < 0 ∧ HabitInstance.date x = dayString i).
Proof.
  unfold seedStep, createdFor. fold (dayInstances (dayString i) all).
  rewrite length_zero_nil. case_bool_decide as Hnil.
  - rewrite decide_True by done.
    destruct (Z.ltb_spec i 0) as [Hpast|Hfuture].
    + pose proof (simulatePast_shape e k
                    (createInstancesForDay (dayString i) habits)) as Hshape.
      pose proof (simulatePast_date e k
                    (createInstancesForDay (dayString i) habits) (dayString i))
        as Hdate.
      destruct (simulatePast e k _) as [c k']. simpl in *.
      exists c. split; [done|]. split; [done|].
      intros x Hx _. split; [done|]. apply Hdate; [|done].
      intros j. apply createInstancesForDay_date.
    + simpl. eexists. split; [done|]. split; [done|].
      intros x (h & -> & _)%elem_of_createInstancesForDay. done.
  - rewrite decide_False by done. exists []. rewrite app_nil_r.
    split; [done|]. split; [done|]. by intros x ?%not_elem_of_nil.
Qed.

Lemma foldl_seedStep_appends dayString e habits offsets all k :
  ∃ added,
    (foldl (seedStep dayString e habits) (all, k) offsets).1 = all ++ added
    ∧ instanceShape <$> added
      = instanceShape <$> ensure habits all (dayString <$> offsets)
    ∧ (∀ x, x ∈ added → HabitInstance.completed x = true →
         ∃ i, i ∈ offsets ∧ i < 0 ∧ HabitInstance.date x = dayString i).
Proof.
  revert all k. induction offsets as [|i rest IH]; intros all k.
  { exists []. rewrite app_nil_r. split; [done|]. split; [done|].
    by intros x ?%not_elem_of_nil. }
  cbn [foldl]. rewrite fmap_cons. cbn [ensure].
  destruct (seedStep_appends dayString e habits all k i)
    as (a & Ha & Hshape & Hdone).
  destruct (seedStep dayString e habits (all, k) i) as [all' k'].
  simpl in Ha. subst all'.
  destruct (IH (all ++ a) k') as (b & Hb & Hshapeb & Hdoneb).
  exists (a ++ b). split; [by rewrite Hb, app_assoc|]. split.
  - rewrite !fmap_app, Hshape, Hshapeb. f_equal. f_equal.
    apply ensure_dates_ext. rewrite !fmap_app. f_equal.
    by apply instanceShape_date.
  - intros x [Hx|Hx]%elem_of_app Hc.
    + destruct (Hdone x Hx Hc) as [? ?]. exists i. split; [left|done].
    + destruct (Hdoneb x Hx Hc) as (o & Ho & ? & ?). exists o.
      split; [by right|done].
Qed.

(** The content of the next theorem, in the form the later proofs use. *)
Lemma seeding_appends (dayString : Z → string) (e : Entropy)
    (habits : list Habit.t) (st : Store) :
  let st' := seedInstancesForWeek dayString e habits st in
  ∃ added,
    INSTANCES st' = Some (parseOr (INSTANCES st) ++ added)
    ∧ instanceShape <$> added
      = instanceShape
        <$> ensure habits (parseOr (INSTANCES st)) (dayString <$> seqZ (-14) 18)
    ∧ (∀ x, x ∈ added → HabitInstance.completed x = true →
         ∃ i, -14 <= i < 0 ∧ HabitInstance.date x = dayString i)
    ∧ HABITS st' = HABITS st ∧ TASKS st' = TASKS st ∧ PROJECTS st' = PROJECTS st.
Proof.
  intros st'. subst st'. unfold seedInstancesForWeek. cbv zeta.
  destruct (foldl_seedStep_appends dayString e habits (seqZ (-14) 18)
              (parseOr (INSTANCES st)) 0%nat) as (added & Hall & Hshape & Hdone).
  destruct (foldl _ _ _) as [all k]. simpl in Hall. subst all.
  exists added. split; [done|]. split; [done|]. split; [|done].
  intros x Hx Hc. destruct (Hdone x Hx Hc) as (i & Hi & Hneg & Hd).
  exists i. split; [|done]. apply elem_of_seqZ in Hi. lia.
Qed.

(** X18.  [seedInstancesForWeek] keeps every stored instance where it is
    and appends, by identifier, habit and date, exactly the instances
    [getWeekInstances] would create for the eighteen dates from 14 days
    back to 3 days ahead; an appended instance is completed only if its
    date is one of the 14 past days.  Habits, tasks and projects are
    untouched. *)
Theorem seedInstancesForWeek_appends (dayString : Z → string) (e : Entropy)
    (habits : list Habit.t) (st : Store) :
  let st' := seedInstancesForWeek dayString e habits st in
  ∃ added,
    INSTANCES st' = Some (parseOr (INSTANCES st) ++ added)
    ∧ instanceShape <$> added
      = instanceShape
        <$> ensure habits (parseOr (INSTANCES st)) (dayString <$> seqZ (-14) 18)
    ∧ (∀ x, x ∈ added → HabitInstance.completed x = true →
         ∃ i, -14 <= i < 0 ∧ HabitInstance.date x = dayString i)
    ∧ HABITS st' = HABITS st ∧ TASKS st' = TASKS st ∧ PROJECTS st' = PROJECTS st.
Proof. apply seeding_appends. Qed.

Lemma foldl_seedStep_settled dayString e habits offsets all k :
  (∀ i, i ∈ offsets →
     dayInstances (dayString i) all ≠ []
     ∨ createInstancesForDay (dayString i) habits = []) →
  foldl (seedStep dayString e habits) (all, k) offsets = (all, k).
Proof.
  induction offsets as [|i rest IH]; intros Hcov; [done|].
  cbn [foldl].
  assert (Hstep : seedStep dayString e habits (all, k) i = (all, k)).
  { unfold seedStep. fold (dayInstances (dayString i) all).
    rewrite length_zero_nil. case_bool_decide as Hnil; [|done].
    destruct (Hcov i) as [?|Hnone]; [left|done|].
    rewrite Hnone. destruct (i <? 0); simpl; by rewrite app_nil_r. }
  rewrite Hstep. apply IH. intros o Ho. apply Hcov. by right.
Qed.

(** The content of the next theorem, in the form the later proofs use. *)
Lemma seeding_settles (dayString : Z → string)
    (e1 e2 : Entropy) (habits : list Habit.t) (st : Store) :
  seedInstancesForWeek dayString e2 habits
    (seedInstancesForWeek dayString e1 habits st)
  = seedInstancesForWeek dayString e1 habits st.
Proof.
  destruct (seeding_appends dayString e1 habits st)
    as (added & Hinst & Hshape & _ & Hh & Ht & Hp).
  set (st1 := seedInstancesForWeek dayString e1 habits st) in *.
  set (all := parseOr (INSTANCES st)) in *.
  assert (Hsettled : ∀ i, i ∈ seqZ (-14) 18 →
            dayInstances (dayString i) (all ++ added) ≠ []
            ∨ createInstancesForDay (dayString i) habits = []).
  { intros i Hi.
    destruct (ensure_covered habits all (dayString <$> seqZ (-14) 18) (dayString i))
      as [Hsome|Hnone]; [|left|by right].
    { apply list_elem_of_fmap. by exists i. }
    rewrite dayInstances_nil_dates in Hsome |- *.
    rewrite fmap_app in Hsome |- *.
    by rewrite (instanceShape_date _ _ Hshape). }
  unfold seedInstancesForWeek at 1. cbv zeta.
  rewrite Hinst.
  replace (parseOr (Some (all ++ added))) with (all ++ added) by done.
  rewrite (foldl_seedStep_settled dayString e2 habits _ _ _ Hsettled).
  unfold setInstances. rewrite <- Hinst.
  by destruct st1.
Qed.

(** X19.  Seeding again over the same days and habits, whatever the random
    draws, changes nothing: the store is the one the first seeding left. *)
Theorem seedInstancesForWeek_idempotent (dayString : Z → string)
    (e1 e2 : Entropy) (habits : list Habit.t) (st : Store) :
  seedInstancesForWeek dayString e2 habits
    (seedInstancesForWeek dayString e1 habits st)
  = seedInstancesForWeek dayString e1 habits st.
Proof. apply seeding_settles. Qed.

End MoreSeedFacts.

(** ** User session and onboarding *)

Section SessionFacts.
Context {rt : DateRuntime}.

(** The seed keeps the invariant when the habits have distinct
    identifiers. *)
Lemma seedInstancesForWeek_storeInv (dayString : Z → string) (e : Entropy)
    (habits : list Habit.t) (st : Store) :
  NoDup (Habit.id <$> habits) → storeInv st →
  storeInv (seedInstancesForWeek dayString e habits st).
Proof.
  intros Hnd Hinv. unfold storeInv, seedInstancesForWeek. cbv zeta.
  pose proof (foldl_seedStep_inv dayString e habits (seqZ (-14) 18)
                (parseOr (INSTANCES st), 0%nat) Hnd Hinv) as Hfold.
  destruct (foldl _ _ _) as [all k]. done.
Qed.

Lemma getUser_keeps s :
  storage (getUser s).1 = storage s ∧ USER (getUser s).1 = USER s
  ∧ getUser (getUser s).1 = getUser s.
Proof.
  unfold getUser.
  destruct (currentUserCache s) as [c|] eqn:Hc; simpl.
  - by rewrite Hc.
  - destruct (USER s) as [u|] eqn:Hu; simpl; [done|]. by rewrite Hc, Hu.
Qed.

(** X20.  [initUser] returns the stored profile and keeps all stored data
    when the stored profile has the given e-mail address; otherwise it
    creates a fresh profile, not onboarded and with every setting off, and
    removes the stored habits, instances, tasks and projects.  Either way
    [getUser] then returns the user [initUser] returned. *)
Theorem initUser_spec (suffix email name : string) (s : Session) :
  let s' := (initUser suffix email name s).1 in
  let u := (initUser suffix email name s).2 in
  (getUser s').2 = Some u ∧ USER s' = Some u ∧ User.email u = email
  ∧ (∀ stored, USER s = Some stored → User.email stored = email →
       u = stored ∧ storage s' = storage s)
  ∧ ((∀ stored, USER s = Some stored → User.email stored ≠ email) →
       u = User.mk ("u_" +:+ suffix) email name false [] (Settings.mk false false false)
       ∧ storage s' = mkStore None None None None).
Proof.
  unfold initUser.
  destruct (USER s) as [stored|] eqn:Hs.
  - destruct (String.eqb_spec (User.email stored) email) as [He|He]; simpl.
    + split; [done|]. split; [done|]. split; [done|]. split.
      * by intros ? [= <-] _.
      * intros Hne. by destruct (Hne stored).
    + split; [done|]. split; [done|]. split; [done|]. split.
      * by intros ? [= <-] ?.
      * done.
  - simpl. split; [done|]. split; [done|]. split; [done|]. split; done.
Qed.

(** X21.  Calling [initUser] again with the same e-mail address returns
    the same user and leaves the session as the first call left it,
    whatever name and random suffix the second call brings. *)
Theorem initUser_idempotent (suffix1 suffix2 email name1 name2 : string)
    (s : Session) :
  initUser suffix2 email name2 (initUser suffix1 email name1 s).1
  = initUser suffix1 email name1 s.
Proof.
  unfold initUser.
  destruct (USER s) as [stored|] eqn:Hs.
  - destruct (String.eqb_spec (User.email stored) email) as [He|He]; simpl.
    + by destruct (String.eqb_spec (User.email stored) email).
    + by rewrite String.eqb_refl.
  - simpl. by rewrite String.eqb_refl.
Qed.

(** X22.  [completeOnboarding] for an identifier that is not the current
    user's, or without any user, changes neither the stored data nor the
    stored profile. *)
Theorem completeOnboarding_other_user (dayString : Z → string) (e : Entropy)
    (userId : string) (interests : list InterestType) (habits : list Habit.t)
    (permissions : Permissions.t) (s : Session) :
  (∀ u, (getUser s).2 = Some u → User.id u ≠ userId) →
  let s' := completeOnboarding dayString e userId interests habits permissions s in
  storage s' = storage s ∧ USER s' = USER s.
Proof.
  intros Hother. unfold completeOnboarding.
  destruct (getUser_keeps s) as (Hst & Hu & _).
  destruct (getUser s) as [s1 [u|]]; simpl in *; [|done].
  destruct (String.eqb_spec (User.id u) userId) as [Hid|Hid]; [|done].
  by destruct (Hother u).
Qed.

(** The session [completeOnboarding] leaves for the current user. *)
Lemma completeOnboarding_current dayString e userId interests habits permissions
    s s1 u :
  getUser s = (s1, Some u) → User.id u = userId →
  completeOnboarding dayString e userId interests habits permissions s
  = let u' := User.mk (User.id u) (User.email u) (User.name u) true interests
                (Settings.mk (Permissions.loc permissions)
                   (Permissions.notif permissions)
                   (Permissions.screen permissions)) in
    mkSession
      (seedInstancesForWeek dayString e habits
         (mkStore (Some habits) (INSTANCES (storage s)) (TASKS (storage s))
            (PROJECTS (storage s))))
      (Some u') (Some u').
Proof.
  intros Hg Hid. unfold completeOnboarding.
  destruct (getUser_keeps s) as (Hst & _ & _).
  rewrite Hg in Hst |- *. cbn [fst] in Hst.
  rewrite Hid, String.eqb_refl, Hst. reflexivity.
Qed.

(** X23.  [completeOnboarding] for the current user marks the profile
    onboarded with the given interests and the settings the permissions
    give, replaces the stored habits by the given ones, leaves tasks and
    projects alone, and keeps the one-instance-per-habit-and-date invariant
    when the habits have pairwise-distinct identifiers. *)
Theorem completeOnboarding_current_user (dayString : Z → string) (e : Entropy)
    (userId : string) (interests : list InterestType) (habits : list Habit.t)
    (permissions : Permissions.t) (s : Session) (u : User.t) :
  (getUser s).2 = Some u → User.id u = userId →
  let s' := completeOnboarding dayString e userId interests habits permissions s in
  let u' := User.mk (User.id u) (User.email u) (User.name u) true interests
              (Settings.mk (Permissions.loc permissions)
                 (Permissions.notif permissions) (Permissions.screen permissions)) in
  USER s' = Some u' ∧ (getUser s').2 = Some u'
  ∧ HABITS (storage s') = Some habits
  ∧ TASKS (storage s') = TASKS (storage s)
  ∧ PROJECTS (storage s') = PROJECTS (storage s)
  ∧ (NoDup (Habit.id <$> habits) → storeInv (storage s) → storeInv (storage s')).
Proof.
  intros Hget Hid s' u'. subst s'.
  destruct (getUser s) as [s1 ou] eqn:Hg. cbn [snd] in Hget. subst ou.
  rewrite (completeOnboarding_current _ _ _ _ _ _ s s1 u Hg Hid). cbv zeta.
  fold u'.
  remember (mkStore (Some habits) (INSTANCES (storage s)) (TASKS (storage s))
              (PROJECTS (storage s))) as st0 eqn:Est0.
  destruct (seeding_appends dayString e habits st0)
    as (added & _ & _ & _ & Hh & Ht & Hp).
  cbn [storage USER currentUserCache getUser snd].
  rewrite Hh, Ht, Hp. subst st0. cbn [HABITS TASKS PROJECTS].
  split; [done|]. split; [done|]. split; [done|]. split; [done|]. split; [done|].
  intros Hnd Hinv.
  by apply seedInstancesForWeek_storeInv.
Qed.

(** The seed reads [dayString] at the eighteen offsets -14 .. 3 only. *)
Lemma seedInstancesForWeek_days (dayString1 dayString2 : Z → string) (e : Entropy)
    (habits : list Habit.t) (st : Store) :
  (∀ i, -14 <= i < 4 → dayString2 i = dayString1 i) →
  seedInstancesForWeek dayString2 e habits st
  = seedInstancesForWeek dayString1 e habits st.
Proof.
  intros Hsame. unfold seedInstancesForWeek. cbv zeta.
  assert (Hfold : ∀ l acc, (∀ i, i ∈ l → -14 <= i < 4) →
            foldl (seedStep dayString2 e habits) acc l
            = foldl (seedStep dayString1 e habits) acc l).
  { induction l as [|i l IH]; intros acc Hl; [done|]. cbn [foldl].
    assert (Hstep : seedStep dayString2 e habits acc i
                    = seedStep dayString1 e habits acc i).
    { unfold seedStep. rewrite (Hsame i) by (apply Hl; left). done. }
    rewrite Hstep. apply IH. intros j Hj. apply Hl. by right. }
  rewrite Hfold; [done|]. intros i Hi. apply elem_of_seqZ in Hi. lia.
Qed.

Lemma completeOnboarding_days (dayString1 dayString2 : Z → string) (e : Entropy)
    (userId : string) (interests : list InterestType) (habits : list Habit.t)
    (permissions : Permissions.t) (s : Session) :
  (∀ i, -14 <= i < 4 → dayString2 i = dayString1 i) →
  completeOnboarding dayString2 e userId interests habits permissions s
  = completeOnboarding dayString1 e userId interests habits permissions s.
Proof.
  intros Hsame. unfold completeOnboarding.
  destruct (getUser s) as [s1 [u|]]; [|done].
  destruct (String.eqb (User.id u) userId); [|done]. cbv zeta.
  by rewrite (seedInstancesForWeek_days dayString1 dayString2).
Qed.

(** X24.  Completing the onboarding a second time on the same day (the
    eighteen seeded dates are the same in both runs) and with the same
    arguments changes nothing, whatever the random draws: habits are
    replaced, not appended, and the seed finds every day settled. *)
Theorem completeOnboarding_idempotent (dayString dayString2 : Z → string)
    (e1 e2 : Entropy)
    (userId : string) (interests : list InterestType) (habits : list Habit.t)
    (permissions : Permissions.t) (s : Session) :
  (∀ i, -14 <= i < 4 → dayString2 i = dayString i) →
  completeOnboarding dayString2 e2 userId interests habits permissions
    (completeOnboarding dayString e1 userId interests habits permissions s)
  = completeOnboarding dayString e1 userId interests habits permissions s.
Proof.
  intros Hdays.
  rewrite (completeOnboarding_days dayString dayString2) by done.
  destruct (getUser_keeps s) as (_ & _ & Hagain).
  destruct (getUser s) as [s1 [u|]] eqn:Hg; cbn [fst] in Hagain.
  - destruct (String.eqb_spec (User.id u) userId) as [Hid|Hid].
    + rewrite (completeOnboarding_current _ e1 _ _ _ _ s s1 u Hg Hid). cbv zeta.
      remember (mkStore (Some habits) (INSTANCES (storage s)) (TASKS (storage s))
                  (PROJECTS (storage s))) as st0 eqn:Est0.
      destruct (seeding_appends dayString e1 habits st0)
        as (added & _ & _ & _ & Hh & _ & _).
      pose proof (seeding_settles dayString e1 e2 habits st0) as Hidem.
      remember (seedInstancesForWeek dayString e1 habits st0) as st1 eqn:Est1.
      remember (User.mk (User.id u) (User.email u) (User.name u) true interests
                  (Settings.mk (Permissions.loc permissions)
                     (Permissions.notif permissions)
                     (Permissions.screen permissions))) as u' eqn:Eu'.
      assert (Hid' : User.id u' = userId) by (by subst u').
      rewrite (completeOnboarding_current _ e2 _ _ _ _
                 (mkSession st1 (Some u') (Some u'))
                 (mkSession st1 (Some u') (Some u')) u' eq_refl Hid').
      cbv zeta. cbn [storage].
      assert (Hst1 : mkStore (Some habits) (INSTANCES st1) (TASKS st1) (PROJECTS st1)
                     = st1).
      { rewrite Est0 in Hh. cbn [HABITS] in Hh. rewrite <- Hh. by destruct st1. }
      rewrite Hst1, Hidem. by subst u'.
    + assert (Hsame : completeOnboarding dayString e1 userId interests habits
                        permissions s = s1).
      { unfold completeOnboarding. rewrite Hg.
        by destruct (String.eqb_spec (User.id u) userId). }
      rewrite Hsame. unfold completeOnboarding. rewrite Hagain.
      by destruct (String.eqb_spec (User.id u) userId).
  - assert (Hsame : completeOnboarding dayString e1 userId interests habits
                      permissions s = s1).
    { unfold completeOnboarding. by rewrite Hg. }
    rewrite Hsame. unfold completeOnboarding. by rewrite Hagain.
Qed.

End SessionFacts.

(** ** Streaks as the store reports them *)

Section HabitsFacts.
Context {rt : DateRuntime}.

(** The content of the next theorem, in the form the later proofs use. *)
Lemma getHabits_streaks (todayStr : string) (st : Store) :
  getHabits todayStr st
  = (λ h, Habit.with_streak h
            (getHabitStreak todayStr
               (filter (λ i, HabitInstance.habitId i = Habit.id h)
                  (parseOr (INSTANCES st)))))
    <$> parseOr (HABITS st)
  ∧ (∀ st2, INSTANCES st2 = INSTANCES st →
       unstreaked <$> parseOr (HABITS st2) = unstreaked <$> parseOr (HABITS st) →
       getHabits todayStr st2 = getHabits todayStr st).
Proof.
  set (recompute := λ (l : list HabitInstance.t) (h : Habit.t),
         Habit.with_streak h
           (getHabitStreak todayStr
              (filter (λ i, HabitInstance.habitId i = Habit.id h) l))).
  assert (Hget : ∀ s, getHabits todayStr s
                      = recompute (parseOr (INSTANCES s)) <$> parseOr (HABITS s)).
  { intros s. unfold getHabits. cbv zeta. apply list_fmap_ext.
    intros _ h _. by rewrite dbCalculateHabitStrength_habit. }
  split; [apply Hget|].
  intros st2 Hi Hh. rewrite !Hget, Hi.
  assert (Hun : ∀ l : list Habit.t, recompute (parseOr (INSTANCES st)) <$> l
                     = recompute (parseOr (INSTANCES st)) <$> (unstreaked <$> l)).
  { intros l. rewrite <- list_fmap_compose. by apply list_fmap_ext. }
  by rewrite (Hun (parseOr (HABITS st2))), Hh, <- Hun.
Qed.

(** X25.  [getHabits] returns the stored habits in stored order, each with
    its streak replaced by [getHabitStreak] of the instances of that habit;
    the streak values found in the store play no part. *)
Theorem getHabits_recomputes_streaks (todayStr : string) (st : Store) :
  getHabits todayStr st
  = (λ h, Habit.with_streak h
            (getHabitStreak todayStr
               (filter (λ i, HabitInstance.habitId i = Habit.id h)
                  (parseOr (INSTANCES st)))))
    <$> parseOr (HABITS st)
  ∧ (∀ st2, INSTANCES st2 = INSTANCES st →
       unstreaked <$> parseOr (HABITS st2) = unstreaked <$> parseOr (HABITS st) →
       getHabits todayStr st2 = getHabits todayStr st).
Proof. apply getHabits_streaks. Qed.

(** The seeded open instance of three days ahead breaks the walk at once. *)
Lemma seeded_daily_walk_is_zero (dayString : Z → string) (e : Entropy)
    (habits : list Habit.t) (st : Store) (todayStr : string) (h : Habit.t) :
  parseOr (INSTANCES st) = [] →
  h ∈ habits → Habit.schedule h = DAILY →
  (∀ i, -14 <= i < 0 → getTime (dayString i) < getTime (dayString 3)) →
  dayString 3 ≠ todayStr →
  getHabitStreak todayStr
    (filter (λ i, HabitInstance.habitId i = Habit.id h)
       (parseOr (INSTANCES (seedInstancesForWeek dayString e habits st))))
  = 0%nat.
Proof.
  intros Hempty Hh Hdaily Hlater Htoday.
  destruct (seeding_appends dayString e habits st)
    as (added & Hinst & Hshape & Hdone & _).
  rewrite Hinst, Hempty in *. simpl.
  assert (Hx : ∃ x, x ∈ added
                    ∧ instanceShape x = instanceShape (newInstance (dayString 3) h)).
  { assert (Hin : instanceShape (newInstance (dayString 3) h)
                  ∈ instanceShape <$> added).
    { rewrite Hshape. apply list_elem_of_fmap. eexists. split; [done|].
      apply elem_of_ensure. exists (dayString 3).
      split. { apply list_elem_of_fmap. exists 3. split; [done|].
               apply elem_of_seqZ. lia. }
      split; [done|].
      apply elem_of_createInstancesForDay. exists h.
      split; [done|]. split; [done|]. unfold dueOn, scheduled. by rewrite Hdaily. }
    apply list_elem_of_fmap in Hin as (x & Hs & Hx). by exists x. }
  destruct Hx as (x & Hx & Hs).
  injection Hs as _ Hhabit Hdate.
  assert (Hopen : HabitInstance.completed x = false).
  { destruct (HabitInstance.completed x) eqn:Hc; [|done].
    destruct (Hdone x Hx Hc) as (i & Hi & Hd).
    specialize (Hlater i Hi). rewrite <- Hd, Hdate in Hlater. lia. }
  apply (later_open_resets_streak todayStr _ x).
  - apply list_elem_of_filter. done.
  - exact Hopen.
  - by rewrite Hdate.
  - intros c [_ Hc]%list_elem_of_filter Hcdone.
    destruct (Hdone c Hc Hcdone) as (i & Hi & Hd).
    unfold timeOf. rewrite Hd, Hdate. by apply Hlater.
Qed.

(** X26.  After seeding an empty instance store, [getHabits] reports
    streak 0 for every DAILY habit, however many past days were marked
    completed: the open instance of three days ahead is the newest one and
    is not dated today. *)
Theorem seeded_daily_streak_is_zero (dayString : Z → string) (e : Entropy)
    (habits : list Habit.t) (st : Store) (todayStr : string) :
  parseOr (INSTANCES st) = [] → HABITS st = Some habits →
  (∀ i, -14 <= i < 0 → getTime (dayString i) < getTime (dayString 3)) →
  dayString 3 ≠ todayStr →
  ∀ h, h ∈ getHabits todayStr (seedInstancesForWeek dayString e habits st) →
       Habit.schedule h = DAILY → Habit.streak h = 0%nat.
Proof.
  intros Hempty Hhabits Hlater Htoday h Hh Hdaily.
  destruct (getHabits_streaks todayStr
              (seedInstancesForWeek dayString e habits st)) as [Hget _].
  rewrite Hget in Hh.
  destruct (seeding_appends dayString e habits st)
    as (_ & _ & _ & _ & Hkeep & _).
  rewrite Hkeep, Hhabits in Hh. cbn [parseOr default] in Hh.
  apply list_elem_of_fmap in Hh as (h0 & -> & Hh0).
  cbn [Habit.streak Habit.with_streak].
  by apply seeded_daily_walk_is_zero.
Qed.

(** X27.  The service's private copy of the scoring code agrees with
    [utils.ts]: it returns the score of [calculateHabitStrength] and writes
    the streak of [getHabitStreak] into the habit, changing no other
    field. *)
Theorem dbCalculateHabitStrength_agrees (todayStr : string) (habit : Habit.t)
    (instances : list HabitInstance.t) :
  (dbCalculateHabitStrength todayStr habit instances).2
  = calculateHabitStrength todayStr habit instances
  ∧ (dbCalculateHabitStrength todayStr habit instances).1
    = Habit.with_streak habit (getHabitStreak todayStr instances).
Proof.
  split; [|apply dbCalculateHabitStrength_habit].
  unfold dbCalculateHabitStrength, calculateHabitStrength. cbv zeta.
  by destruct (_ =? _)%nat.
Qed.

End HabitsFacts.

(** ** Runs of the further properties *)

Section FurtherRuns.

Lemma streak_and_strength_order_independent_witness :
  getHabitStreak "2024-01-20" gappedHistory
  = getHabitStreak "2024-01-20" gappedSorted
  ∧ calculateHabitStrength "2024-01-20" morningRun gappedHistory
    = calculateHabitStrength "2024-01-20" morningRun gappedSorted.
Proof.
  apply (streak_and_strength_order_independent "2024-01-20" morningRun
           gappedHistory gappedSorted).
  - unfold gappedHistory, gappedSorted.
    apply (Permutation_cons_app [_; _] []). reflexivity.
  - apply (bool_decide_unpack _). by vm_compute.
Defined.

Lemma getHabitStreak_zero_of_later_open_witness :
  getHabitStreak "2024-01-20" aheadHistory = 0%nat.
Proof.
  apply (getHabitStreak_zero_of_later_open "2024-01-20" aheadHistory
           (run "2024-01-21" false)).
  - apply (bool_decide_unpack _). by vm_compute.
  - reflexivity.
  - discriminate.
  - apply (Forall_forall
             (λ c, HabitInstance.completed c = true
                   → timeOf c < timeOf (run "2024-01-21" false))).
    unfold aheadHistory.
    repeat constructor; vm_compute; intros H; try discriminate H; reflexivity.
Defined.

Lemma getHabitStreak_complete_today_witness :
  getHabitStreak "2024-01-20"
    (<[1%nat := toggled "2024-01-20T18:30:00.000Z" true None
                  (run "2024-01-20" false)]> openTodayHistory)
  = S (getHabitStreak "2024-01-20" openTodayHistory).
Proof.
  apply (getHabitStreak_complete_today "2024-01-20" "2024-01-20T18:30:00.000Z"
           None openTodayHistory 1 (run "2024-01-20" false)).
  - reflexivity.
  - reflexivity.
  - reflexivity.
  - intros [|[|[|j]]] y Hy Hj; try done;
      injection Hy as <-; by vm_compute.
Defined.

Lemma calculateHabitStrength_extremes_witness :
  calculateHabitStrength "2024-01-22" morningRun fullHistory = 100.
Proof.
  destruct (calculateHabitStrength_extremes "2024-01-22" morningRun fullHistory)
    as [_ Hall].
  - by vm_compute.
  - apply Hall.
    + apply (bool_decide_unpack _). by vm_compute.
    + apply (bool_decide_unpack _). by vm_compute.
Defined.

Lemma calculateCompletion_counts_witness :
  ∃ percent : Z,
    calculateCompletion (numberOfNat 4) (numberOfNat 3) = numberOfZ percent
    ∧ percent = progressOf 3 4 ∧ 0 <= percent <= 100.
Proof.
  destruct (calculateCompletion_counts 4 3) as (percent & Hnum & Hsame & Hrange & _).
  - lia.
  - by vm_compute.
  - exists percent. split; [exact Hnum|]. split; [exact Hsame|exact Hrange].
Defined.

(** 23 of 40 is 57.49999999999999 in doubles, hence 57; exactly it is
    57.5. *)
Example calculateCompletion_23_of_40 :
  calculateCompletion (numberOfNat 40) (numberOfNat 23) = numberOfZ 57
  ∧ progressOf 23 40 = 57
  ∧ roundHalfUp (100 * ratio 23 40) = 58.
Proof. by vm_compute. Qed.

(** Without items the result is 0; a NaN total is not [=== 0] and comes
    back as NaN. *)
Example calculateCompletion_edges :
  calculateCompletion (numberOfNat 0) (numberOfNat 5) = numberOfZ 0
  ∧ calculateCompletion S754_nan (numberOfNat 5) = S754_nan.
Proof. by vm_compute. Qed.

Lemma updateInstanceStatus_read_back_witness :
  ∃ inst',
    list_find (λ i, HabitInstance.id i = "2024-01-08_h1")
      (parseOr (INSTANCES (updateInstanceStatus "2024-01-09T09:00:00.000Z"
                             "2024-01-08_h1" true (Some 5%Q) checkedStore)))
    = Some (0%nat, inst')
    ∧ HabitInstance.completed inst' = true
    ∧ HabitInstance.completedAt inst' = Some "2024-01-09T09:00:00.000Z"
    ∧ HabitInstance.value inst' = Some 5%Q.
Proof.
  destruct (updateInstanceStatus_read_back "2024-01-09T09:00:00.000Z"
              "2024-01-08_h1" true (Some 5%Q) checkedStore 0
              (HabitInstance.mk "2024-01-08_h1" "h1" "2024-01-08" true
                 (Some "2024-01-08T07:30:00.000Z") None))
    as (inst' & Hfind & Hdone & Hat & Hval & _).
  - reflexivity.
  - exists inst'. split; [exact Hfind|]. split; [exact Hdone|].
    split; [by apply Hat|by apply Hval].
Defined.

Lemma task_operations_on_missing_task_witness :
  updateTask "t7" moveToBeta movedStore = movedStore
  ∧ deleteTask "t7" movedStore = setTasks movedStore (getTasks movedStore)
  ∧ getTasks (deleteTask "t7" movedStore) = getTasks movedStore
  ∧ PROJECTS (deleteTask "t7" movedStore) = PROJECTS movedStore.
Proof.
  apply (task_operations_on_missing_task "t7" moveToBeta movedStore).
  intros t Ht. apply list_elem_of_singleton in Ht as ->. discriminate.
Defined.

Lemma addTask_deleteTask_witness :
  getTasks (deleteTask "t9" (addTask reviewTask movedStore))
  = getTasks movedStore.
Proof.
  apply (addTask_deleteTask reviewTask movedStore).
  intros t Ht. apply list_elem_of_singleton in Ht as ->. discriminate.
Defined.

Lemma fourTasks_upToDate : allUpToDate fourTasks.
Proof.
  unfold allUpToDate.
  change (getProjects fourTasks)
    with [Project.mk "p1" "Launch" 75 ProjectStatus.active].
  constructor; [|constructor]. split.
  - by vm_compute.
  - vm_compute. split; intros H; discriminate H.
Defined.

Lemma task_operations_keep_projects_up_to_date_witness :
  allUpToDate (addTask (Task.mk "t5" "Announce" (Some "p1") true) fourTasks)
  ∧ allUpToDate (deleteTask "t4" fourTasks).
Proof.
  destruct (task_operations_keep_projects_up_to_date fourTasks)
    as (Hadd & _ & Hdel).
  - by vm_compute.
  - apply (bool_decide_unpack _). by vm_compute.
  - apply (Forall_forall (λ p, Project.id p ≠ "")).
    change (getProjects fourTasks)
      with [Project.mk "p1" "Launch" 75 ProjectStatus.active].
    repeat constructor. discriminate.
  - exact fourTasks_upToDate.
  - split; [apply Hadd|apply Hdel].
    apply (bool_decide_unpack _). by vm_compute.
Defined.

Lemma updateProjectProgress_completed_iff_witness :
  ∃ p', getProjects (updateProjectProgress "p1" fourTasks) !! 0%nat = Some p'
        ∧ (Project.status p' = ProjectStatus.completed
           ↔ memberTasks "p1" fourTasks ≠ []
             ∧ Forall (λ t, Task.completed t = true) (memberTasks "p1" fourTasks))
        ∧ (memberTasks "p1" fourTasks = [] → Project.progress p' = 0).
Proof.
  apply (updateProjectProgress_completed_iff "p1" fourTasks 0
           (Project.mk "p1" "Launch" 75 ProjectStatus.active)).
  - reflexivity.
  - vm_compute. lia.
Defined.

Lemma completeOnboarding_other_user_witness :
  storage (completeOnboarding dayString15 evenDraws "u_xyz" [HEALTH]
             [morningRun] allGranted adaSession) = storage adaSession
  ∧ USER (completeOnboarding dayString15 evenDraws "u_xyz" [HEALTH]
            [morningRun] allGranted adaSession) = USER adaSession.
Proof.
  apply (completeOnboarding_other_user dayString15 evenDraws "u_xyz" [HEALTH]
           [morningRun] allGranted adaSession).
  intros u [= <-]. discriminate.
Defined.

Lemma completeOnboarding_current_user_witness :
  USER (completeOnboarding dayString15 evenDraws "u_abc" [HEALTH]
          [morningRun] allGranted adaSession)
  = Some (User.mk "u_abc" "ada@example.org" "Ada" true [HEALTH]
            (Settings.mk true true true))
  ∧ HABITS (storage (completeOnboarding dayString15 evenDraws "u_abc" [HEALTH]
                       [morningRun] allGranted adaSession))
    = Some [morningRun]
  ∧ storeInv (storage (completeOnboarding dayString15 evenDraws "u_abc" [HEALTH]
                         [morningRun] allGranted adaSession)).
Proof.
  destruct (completeOnboarding_current_user dayString15 evenDraws "u_abc"
              [HEALTH] [morningRun] allGranted adaSession ada)
    as (Huser & _ & Hhabits & _ & _ & Hinv).
  - reflexivity.
  - reflexivity.
  - split; [exact Huser|]. split; [exact Hhabits|]. apply Hinv.
    + apply (bool_decide_unpack _). by vm_compute.
    + apply (bool_decide_unpack _). by vm_compute.
Defined.

Lemma completeOnboarding_idempotent_witness :
  completeOnboarding sameDay15 oddDraws "u_abc" [HEALTH] [morningRun] allGranted
    (completeOnboarding dayString15 evenDraws "u_abc" [HEALTH] [morningRun]
       allGranted adaSession)
  = completeOnboarding dayString15 evenDraws "u_abc" [HEALTH] [morningRun]
      allGranted adaSession.
Proof.
  apply (completeOnboarding_idempotent dayString15 sameDay15 evenDraws oddDraws).
  intros i Hi. unfold sameDay15. destruct (Z.ltb_spec i 4); [reflexivity|lia].
Defined.

Lemma seeded_daily_streak_is_zero_witness :
  Forall (λ h, Habit.schedule h = DAILY → Habit.streak h = 0%nat)
    (getHabits "2024-01-15"
       (seedInstancesForWeek dayString15 evenDraws
          [morningRun; marketAnalysis] freshStore)).
Proof.
  apply Forall_forall. intros h Hh Hdaily.
  apply (seeded_daily_streak_is_zero dayString15 evenDraws
           [morningRun; marketAnalysis] freshStore "2024-01-15");
    [reflexivity|reflexivity| |discriminate|exact Hh|exact Hdaily].
  intros i Hi.
  assert (Hin : i ∈ seqZ (-14) 14) by (apply elem_of_seqZ; lia).
  clear Hi. revert i Hin.
  apply (Forall_forall
           (λ i, getTime (dayString15 i) < getTime (dayString15 3))).
  repeat constructor; by vm_compute.
Defined.

(** The seeded history of [h1] does hold completed days; its streak is
    0 all the same. *)
Example seeded_history_completed_days :
  length (filter (λ i, HabitInstance.completed i)
            (filter (λ i, HabitInstance.habitId i = "h1")
               (parseOr (INSTANCES (seedInstancesForWeek dayString15 evenDraws
                                      [morningRun; marketAnalysis] freshStore)))))
  = 12%nat.
Proof. by vm_compute. Qed.

End FurtherRuns.
